(** * Location matching engine of [match_locations.py]

    A shallow embedding of the text normaliser, the per-level matchers, the
    parent-chain walk and the two matching strategies, followed by the
    properties of the specification that were checked against them.

    Conventions.
    - A Python [str] is a list of Unicode code points ([pystr]).
    - A Python [dict] is an association list in insertion order; the
      level tables are built with unique keys by [load_location_groups].
    - Scores are Python floats built from the literals 1.0, 0.95, 0.9,
      0.85, 0.75, 0.01 and 0.001 by one product and one sum.  They are
      embedded as exact rationals: two scores that are equal as rationals
      are produced by the same float operations, and two that differ do so
      by 0.001 or more, so every comparison of the source has the same
      outcome on the rationals; [round2] follows the doubles where they
      round otherwise than the exact values.
    - Ids are Python ints; an id is tested by its truth value in two
      places, which the embedding keeps ([truthy]). *)

From Stdlib Require Import List Bool NArith ZArith QArith Qround Lia.
From Stdlib Require Import Ascii String Permutation.
Import ListNotations.

Set Implicit Arguments.

(** ** Python strings *)

Definition pystr := list N.

Module Utf8.
(** Decoder used only to write string literals readably. *)

Definition byte_of (a : ascii) : N := N_of_ascii a.

Fixpoint bytes (s : string) : list N :=
  match s with
  | EmptyString => []
  | String a r => byte_of a :: bytes r
  end.

Definition cont (b : N) : N := N.land b 63.

Fixpoint decode (fuel : nat) (bs : list N) : list N :=
  match fuel with
  | O => []
  | S fuel' =>
    match bs with
    | [] => []
    | b0 :: r0 =>
      if (b0 <? 128)%N then b0 :: decode fuel' r0
      else if (b0 <? 224)%N then
        match r0 with
        | b1 :: r1 => (N.land b0 31 * 64 + cont b1)%N :: decode fuel' r1
        | _ => []
        end
      else if (b0 <? 240)%N then
        match r0 with
        | b1 :: b2 :: r2 =>
          (N.land b0 15 * 4096 + cont b1 * 64 + cont b2)%N :: decode fuel' r2
        | _ => []
        end
      else
        match r0 with
        | b1 :: b2 :: b3 :: r3 =>
          (N.land b0 7 * 262144 + cont b1 * 4096 + cont b2 * 64 + cont b3)%N
            :: decode fuel' r3
        | _ => []
        end
    end
  end.

Definition of_string (s : string) : pystr :=
  decode (String.length s) (bytes s).
End Utf8.

Notation "'u' s" := (Utf8.of_string s%string) (at level 1, s at level 0, only parsing).

(** ** Unicode character data

    The excerpt of the Unicode Character Database (version 14, the one of
    the interpreter's [unicodedata]) that the embedding relies on.  It is
    exact on the repertoire [in_repertoire]: Basic Latin, Latin-1 Supplement
    and Combining Diacritical Marks, which covers Spanish text, and on the
    three further characters listed in [ccc].  Any other code point is given
    the default properties (uncased, no decomposition, combining class 0,
    not a mark, not a space, not a word character). *)

Module Unicode.
Local Open Scope N_scope.

Definition in_range (lo hi c : N) : bool := (lo <=? c) && (c <=? hi).

Definition in_repertoire (c : N) : bool :=
  (c <=? 255) || in_range 768 879 c.

(** [str.lower] on one character. *)
Definition lower_char (c : N) : N :=
  if in_range 65 90 c then c + 32
  else if in_range 192 222 c && negb (c =? 215) then c + 32
  else c.

(** Full canonical decomposition of one character. *)
Definition latin1_base (c : N) : option (N * N) :=
  match c with
  | 224 => Some (97, 768) | 225 => Some (97, 769) | 226 => Some (97, 770)
  | 227 => Some (97, 771) | 228 => Some (97, 776) | 229 => Some (97, 778)
  | 231 => Some (99, 807)
  | 232 => Some (101, 768) | 233 => Some (101, 769) | 234 => Some (101, 770)
  | 235 => Some (101, 776)
  | 236 => Some (105, 768) | 237 => Some (105, 769) | 238 => Some (105, 770)
  | 239 => Some (105, 776)
  | 241 => Some (110, 771)
  | 242 => Some (111, 768) | 243 => Some (111, 769) | 244 => Some (111, 770)
  | 245 => Some (111, 771) | 246 => Some (111, 776)
  | 249 => Some (117, 768) | 250 => Some (117, 769) | 251 => Some (117, 770)
  | 252 => Some (117, 776)
  | 253 => Some (121, 769) | 255 => Some (121, 776)
  | _ => None
  end.

Definition decomp (c : N) : list N :=
  match latin1_base c with
  | Some (b, m) => [b; m]
  | None =>
    if in_range 192 221 c then
      match latin1_base (c + 32) with
      | Some (b, m) => [b - 32; m]
      | None => [c]
      end
    else
      match c with
      | 832 => [768]
      | 833 => [769]
      | 835 => [787]
      | 836 => [776; 769]
      | _ => [c]
      end
  end.

(** Canonical combining class. *)
Definition ccc (c : N) : N :=
  if in_range 768 788 c then 230
  else if c =? 789 then 232
  else if in_range 790 793 c then 220
  else if c =? 794 then 232
  else if c =? 795 then 216
  else if in_range 796 800 c then 220
  else if in_range 801 802 c then 202
  else if in_range 803 806 c then 220
  else if in_range 807 808 c then 202
  else if in_range 809 819 c then 220
  else if in_range 820 824 c then 1
  else if in_range 825 828 c then 220
  else if in_range 829 836 c then 230
  else if c =? 837 then 240
  else if c =? 838 then 230
  else if in_range 839 841 c then 220
  else if in_range 842 844 c then 230
  else if in_range 845 846 c then 220
  else if c =? 847 then 0
  else if in_range 848 850 c then 230
  else if in_range 851 854 c then 220
  else if c =? 855 then 230
  else if c =? 856 then 232
  else if in_range 857 858 c then 220
  else if c =? 859 then 230
  else if c =? 860 then 233
  else if in_range 861 862 c then 234
  else if c =? 863 then 233
  else if in_range 864 865 c then 234
  else if c =? 866 then 233
  else if in_range 867 879 c then 230
  (* U+302E, U+302F HANGUL TONE MARKS and U+1D165 MUSICAL SYMBOL
     COMBINING STEM: spacing marks (category Mc) that reorder. *)
  else if in_range 12334 12335 c then 224
  else if c =? 119141 then 216
  else 0.

(** [unicodedata.category(c) == 'Mn']. *)
Definition is_Mn (c : N) : bool := in_range 768 879 c.

(** [str.isspace] on one character. *)
Definition is_space (c : N) : bool :=
  in_range 9 13 c || in_range 28 32 c || (c =? 133) || (c =? 160)
  || (c =? 5760) || in_range 8192 8202 c || in_range 8232 8233 c
  || (c =? 8239) || (c =? 8287) || (c =? 12288).

(** The class [\w] of [re] on [str] patterns: alphanumeric or underscore. *)
Definition is_word (c : N) : bool :=
  in_range 48 57 c || in_range 65 90 c || (c =? 95) || in_range 97 122 c
  || (c =? 170) || in_range 178 179 c || (c =? 181) || in_range 185 186 c
  || in_range 188 190 c || in_range 192 214 c || in_range 216 246 c
  || in_range 248 255 c.

(** Canonical ordering: a character of non-zero class moves left past the
    characters of greater class that precede it.  [out] is the output so
    far, last character first. *)
Fixpoint insert_mark (c : N) (out : list N) : list N :=
  match out with
  | d :: r =>
    if (0 <? ccc c) && (ccc c <? ccc d) then d :: insert_mark c r
    else c :: out
  | [] => [c]
  end.

Definition canonical_order (s : pystr) : pystr :=
  rev (fold_left (fun out c => insert_mark c out) s []).

(** [unicodedata.normalize('NFD', s)]. *)
Definition nfd (s : pystr) : pystr := canonical_order (flat_map decomp s).

(** [s.lower()]. *)
Definition lower (s : pystr) : pystr := map lower_char s.
End Unicode.

(** ** String primitives *)

Fixpoint lstrip (s : pystr) : pystr :=
  match s with
  | c :: r => if Unicode.is_space c then lstrip r else s
  | [] => []
  end.

(** [s.strip()]. *)
Definition strip (s : pystr) : pystr := rev (lstrip (rev (lstrip s))).

(** [s.startswith(p)], returning the rest of [s] after [p]. *)
Fixpoint strip_prefix (p s : pystr) : option pystr :=
  match p, s with
  | [], _ => Some s
  | a :: p', b :: s' => if (a =? b)%N then strip_prefix p' s' else None
  | _ :: _, [] => None
  end.

Definition startswith (s p : pystr) : bool :=
  match strip_prefix p s with Some _ => true | None => false end.

(** [p in s] on strings. *)
Fixpoint contains (p s : pystr) : bool :=
  startswith s p ||
  match s with
  | _ :: r => contains p r
  | [] => false
  end.

(** Truth value of a string: [not s] holds of the empty string only. *)
Definition nonempty (s : pystr) : bool :=
  match s with [] => false | _ => true end.

(** ** [normalize_text] *)

Definition drop_marks (s : pystr) : pystr :=
  filter (fun c => negb (Unicode.is_Mn c)) s.

Definition normalize_text (text : pystr) : pystr :=
  match text with
  | [] => []
  | _ => strip (drop_marks (Unicode.nfd (Unicode.lower text)))
  end.

(** ** [remove_location_prefixes] *)

Definition prefixes : list pystr :=
  [ u"residencial "; u"colonia "; u"urbanizacion "; u"urbanización ";
    u"barrio "; u"lotificacion "; u"lotificación "; u"reparto ";
    u"comunidad "; u"cantón "; u"canton "; u"caserio ";
    u"col. "; u"res. "; u"urb. "; u"bo. ";
    u"la "; u"el "; u"los "; u"las " ].

(** The [for prefix in prefixes] scan: the text after the first prefix that
    matches, or [None] when the scan ends without a [break]. *)
Fixpoint strip_first (ps : list pystr) (s : pystr) : option pystr :=
  match ps with
  | [] => None
  | p :: ps' =>
    match strip_prefix p s with
    | Some r => Some r
    | None => strip_first ps' s
    end
  end.

(** The [while changed] loop; [None] when the fuel runs out first. *)
Fixpoint strip_loop (fuel : nat) (s : pystr) : option pystr :=
  match strip_first prefixes s with
  | None => Some s
  | Some r =>
    match fuel with
    | O => None
    | S fuel' => strip_loop fuel' r
    end
  end.

Definition remove_location_prefixes (text : pystr) : pystr :=
  let normalized := normalize_text text in
  match strip_loop (List.length normalized) normalized with
  | Some r => strip r
  | None => []
  end.

(** ** Word-boundary search

    [re.search(r'\b' + re.escape(v) + r'\b', text)]: the literal [v] occurs
    in [text] at a position where a word boundary holds on both sides.  A
    boundary holds between two neighbours exactly one of which is a word
    character; the outside of the text counts as a non-word character. *)

Definition word_opt (c : option N) : bool :=
  match c with
  | Some c => Unicode.is_word c
  | None => false
  end.

Definition boundary (before after : option N) : bool :=
  xorb (word_opt before) (word_opt after).

(** Last character consumed once [pat] has been read after [prev]. *)
Definition last_after (prev : option N) (pat : pystr) : option N :=
  match pat with
  | [] => prev
  | c :: r => Some (last r c)
  end.

Definition match_here (prev : option N) (pat s : pystr) : bool :=
  match strip_prefix pat s with
  | None => false
  | Some rest =>
    boundary prev (hd_error s) && boundary (last_after prev pat) (hd_error rest)
  end.

Fixpoint search_from (prev : option N) (pat s : pystr) : bool :=
  match_here prev pat s ||
  match s with
  | c :: r => search_from (Some c) pat r
  | [] => false
  end.

Definition re_search_word (pat text : pystr) : bool :=
  search_from None pat text.

(** ** Data model *)

Inductive Source := location | title | details | description.

Definition Source_eqb (a b : Source) : bool :=
  match a, b with
  | location, location | title, title
  | details, details | description, description => true
  | _, _ => false
  end.

(** The [texts] dict, in insertion order. *)
Definition Texts := list (Source * pystr).

(** [texts.get(source, '')]. *)
Fixpoint texts_get (texts : Texts) (source : Source) : pystr :=
  match texts with
  | [] => []
  | (s, t) :: r => if Source_eqb s source then t else texts_get r source
  end.

(** One entry of a level table, as built by [load_location_groups]. *)
Record LocInfo := {
  name : pystr;
  normalized : pystr;
  no_prefix : pystr;
  alt_names : list pystr;
  parent_id : option Z
}.

Definition LevelData := list (Z * LocInfo).
Definition Groups := list (Z * LevelData).

Fixpoint lookup (A : Type) (k : Z) (d : list (Z * A)) : option A :=
  match d with
  | [] => None
  | (k', v) :: r => if (k' =? k)%Z then Some v else lookup k r
  end.

(** [groups.get(level, {})]. *)
Definition groups_get (groups : Groups) (level : Z) : LevelData :=
  match lookup level groups with
  | Some d => d
  | None => []
  end.

(** Truth value of an optional id: [None] and [0] are falsy. *)
Definition truthy (i : option Z) : bool :=
  match i with
  | Some p => negb (p =? 0)%Z
  | None => false
  end.

Definition opt_eqb (a b : option Z) : bool :=
  match a, b with
  | Some x, Some y => (x =? y)%Z
  | None, None => true
  | _, _ => false
  end.

Record Chain := {
  locGroup2Id : option Z;
  locGroup3Id : option Z;
  locGroup4Id : option Z;
  locGroup5Id : option Z
}.

(** The result dict: the four id keys, which [result.update(chain)]
    overwrites together, and the four match keys. *)
Record MatchResult := {
  chain : Chain;
  matchLevel : option Z;
  matchScore : option Q;
  matchSource : option Source;
  matchedText : option pystr
}.

Definition empty_chain : Chain := Build_Chain None None None None.

Definition empty_result : MatchResult :=
  Build_MatchResult empty_chain None None None None.

(** ** Scores *)

Local Open Scope Q_scope.

Definition Qltb (x y : Q) : bool := negb (Qle_bool y x).

Definition MIN_SCORE : Q := 0.9.

(** [round(x)] of Python: to the nearest integer, ties to the even one. *)
Definition round_half_even (q : Q) : Z :=
  let f := Qfloor q in
  let r := q - inject_Z f in
  if Qltb r (1 # 2) then f
  else if Qltb (1 # 2) r then (f + 1)%Z
  else if Z.even f then f else (f + 1)%Z.

(** [round(score, 2)].  Python rounds the double that the code has
    computed to the nearest multiple of 0.01.  Three scores of the engine
    lie, as exact numbers, halfway between two multiples; the doubles that
    the code computes for them do not: 0.9 * 0.85 and 0.9 * 0.75 are above
    0.765 and 0.675 and are rounded up, to 0.77 and 0.68, and
    0.9 * 0.95 + 0.01 is below 0.865 and is rounded down, to 0.86.  Every
    other score is rounded as its exact value. *)
Definition double_above (q : Q) : bool :=
  Qeq_bool q 0.765 || Qeq_bool q 0.675.

Definition double_below (q : Q) : bool := Qeq_bool q 0.865.

Definition round2 (q : Q) : Q :=
  Qred ((if double_above q then (Qfloor (q * 100) + 1)%Z
         else if double_below q then Qfloor (q * 100)
         else round_half_even (q * 100)) # 100).

(** [text[:255] if text else None]. *)
Definition truncate_text (t : pystr) : option pystr :=
  if nonempty t then Some (firstn 255 t) else None.

(** ** [find_match_in_level] (Strategy A) *)

(** First alternate name that is non-empty and occurs as a word. *)
Definition first_alt (alts : list pystr) (text : pystr) : option pystr :=
  find (fun alt => nonempty alt && re_search_word alt text) alts.

(** The quick check before the regular expressions. *)
Definition quick_check (text : pystr) (info : LocInfo) : bool :=
  contains (normalized info) text
  || existsb (fun alt => nonempty alt && contains alt text) (alt_names info).

(** The [if / elif / elif] chain: base score and matched name. *)
Definition base_match (text : pystr) (info : LocInfo) : Q * pystr :=
  if re_search_word (normalized info) text then (1.0, name info)
  else if nonempty (no_prefix info) && re_search_word (no_prefix info) text
  then (0.95, name info)
  else match first_alt (alt_names info) text with
       | Some alt => (0.9, name info ++ u" (" ++ alt ++ u")")
       | None => (0, normalized info)
       end.

(** Base score of a node of the level against [text]; 0 when the node is
    skipped or nothing matches. *)
Definition base_score (text : pystr) (info : LocInfo) : Q :=
  if negb (nonempty (normalized info)) then 0
  else if negb (quick_check text info) then 0
  else fst (base_match text info).

Definition source_weight (source : Source) : Q :=
  match source with
  | title => 1.0
  | location => 0.95
  | details => 0.85
  | description => 0.75
  end.

Definition LevelBest := (option (Z * Q * pystr) * Q)%type.

(** One iteration of [for loc_id, loc_info in level_data.items()]. *)
Definition visit_in_level (text : pystr) (source : Source)
  (st : LevelBest) (entry : Z * LocInfo) : LevelBest :=
  let '(loc_id, info) := entry in
  if negb (nonempty (normalized info)) then st
  else if negb (quick_check text info) then st
  else
    let '(score, matched_name) := base_match text info in
    if Qltb 0 score then
      let score := score * source_weight source in
      if Qltb (snd st) score then (Some (loc_id, score, matched_name), score)
      else st
    else st.

Definition find_match_in_level (text : pystr) (level_data : LevelData)
  (source : Source) : option (Z * Q * pystr) :=
  if negb (nonempty text) then None
  else fst (fold_left (visit_in_level text source) level_data (None, 0)).

(** ** [get_parent_chain]

    [get_parent_chain_local] of [match_listing_with_texts] has the same
    body, with [groups] taken from the enclosing function; both are this
    definition. *)

(** [result[f'locGroup{level}Id'] = id].  The callers pass levels 2 to 5
    only; other levels leave the four keys untouched. *)
Definition set_level (level : Z) (i : Z) (c : Chain) : Chain :=
  if (level =? 2)%Z then
    Build_Chain (Some i) (locGroup3Id c) (locGroup4Id c) (locGroup5Id c)
  else if (level =? 3)%Z then
    Build_Chain (locGroup2Id c) (Some i) (locGroup4Id c) (locGroup5Id c)
  else if (level =? 4)%Z then
    Build_Chain (locGroup2Id c) (locGroup3Id c) (Some i) (locGroup5Id c)
  else if (level =? 5)%Z then
    Build_Chain (locGroup2Id c) (locGroup3Id c) (locGroup4Id c) (Some i)
  else c.

Definition get_level (level : Z) (c : Chain) : option Z :=
  if (level =? 2)%Z then locGroup2Id c
  else if (level =? 3)%Z then locGroup3Id c
  else if (level =? 4)%Z then locGroup4Id c
  else if (level =? 5)%Z then locGroup5Id c
  else None.

(** The [while current_level <= 5] loop; one unit of fuel per iteration,
    [None] when the fuel runs out before the loop ends. *)
Fixpoint chain_loop (fuel : nat) (groups : Groups)
  (current_id current_level : Z) (result : Chain) : option Chain :=
  if negb (current_level <=? 5)%Z then Some result
  else
    match fuel with
    | O => None
    | S fuel' =>
      let result := set_level current_level current_id result in
      if (current_level =? 5)%Z then Some result
      else
        match lookup current_id (groups_get groups current_level) with
        | Some info =>
          if truthy (parent_id info) then
            match parent_id info with
            | Some p => chain_loop fuel' groups p (current_level + 1) result
            | None => Some result
            end
          else Some result
        | None => Some result
        end
    end.

Definition get_parent_chain (loc_id level : Z) (groups : Groups) : Chain :=
  match chain_loop (Z.to_nat (6 - level)) groups loc_id level empty_chain with
  | Some c => c
  | None => empty_chain
  end.

(** ** [find_best_match_in_level] (Strategy A) *)

Definition Candidate := (Z * Q * pystr * Source)%type.

Definition cand_id (c : Candidate) : Z := fst (fst (fst c)).
Definition cand_score (c : Candidate) : Q := snd (fst (fst c)).
Definition cand_text (c : Candidate) : pystr := snd (fst c).
Definition cand_source (c : Candidate) : Source := snd c.

(** [{k: v for k, v in level_data.items() if v.get('parent_id') == p}]. *)
Definition filter_parent (level_data : LevelData) (p : Z) : LevelData :=
  filter (fun e => opt_eqb (parent_id (snd e)) (Some p)) level_data.

(** The bonus of the location source, added after the weighting. *)
Definition location_bonus (source : Source) : Q :=
  match source with
  | location => 0.01
  | _ => 0
  end.

Definition BestA := (option Candidate * Q)%type.

(** One iteration of [for source in ['location', 'title', ...]]. *)
Definition visit_source (texts : Texts) (level_data : LevelData)
  (parent_filter : option Z) (st : BestA) (source : Source) : BestA :=
  let text := texts_get texts source in
  if negb (nonempty text) then st
  else
    let filtered_data :=
      match parent_filter with
      | Some p => filter_parent level_data p
      | None => level_data
      end in
    match find_match_in_level text filtered_data source with
    | Some (loc_id, score, matched_text) =>
      let score :=
        match source with
        | location => score + 0.01
        | _ => score
        end in
      if Qltb (snd st) score
      then (Some (loc_id, score, matched_text, source), score)
      else st
    | None => st
    end.

Definition source_order : list Source :=
  [location; title; details; description].

Definition find_best_match_in_level (texts : Texts) (level_data : LevelData)
  (parent_filter : option Z) : option Candidate :=
  fst (fold_left (visit_source texts level_data parent_filter)
                 source_order (None, 0)).

(** ** Ids of a level under a department *)

Definition keys (d : LevelData) : list Z := map fst d.

Definition mem (i : Z) (ids : list Z) : bool :=
  existsb (fun j => (j =? i)%Z) ids.

(** [info.get('parent_id') in ids]; [None] belongs to no set of ids. *)
Definition parent_in (ids : list Z) (info : LocInfo) : bool :=
  match parent_id info with
  | Some p => mem p ids
  | None => false
  end.

Definition ids_level4 (groups : Groups) (dept_id : Z) : list Z :=
  keys (filter (fun e => opt_eqb (parent_id (snd e)) (Some dept_id))
               (groups_get groups 4)).

Definition ids_level3 (groups : Groups) (dept_id : Z) : list Z :=
  keys (filter (fun e => parent_in (ids_level4 groups dept_id) (snd e))
               (groups_get groups 3)).

Definition ids_level2 (groups : Groups) (dept_id : Z) : list Z :=
  keys (filter (fun e => parent_in (ids_level3 groups dept_id) (snd e))
               (groups_get groups 2)).

Definition get_ids_under_department (groups : Groups) (level dept_id : Z)
  : list Z :=
  if (level =? 4)%Z then ids_level4 groups dept_id
  else if (level =? 3)%Z then ids_level3 groups dept_id
  else if (level =? 2)%Z then ids_level2 groups dept_id
  else [].

(** [{k: v for k, v in groups.get(level, {}).items() if k in valid_ids}]. *)
Definition filter_ids (groups : Groups) (level : Z) (valid_ids : list Z)
  : LevelData :=
  filter (fun e => mem (fst e) valid_ids) (groups_get groups level).

(** ** [match_listing] (Strategy A) *)

(** The assignments that record a match in the result dict. *)
Definition record_match (r : MatchResult) (level : Z) (c : Candidate)
  : MatchResult :=
  Build_MatchResult (chain r) (Some level) (Some (round2 (cand_score c)))
    (Some (cand_source c)) (truncate_text (cand_text c)).

Definition with_chain (r : MatchResult) (c : Chain) : MatchResult :=
  Build_MatchResult c (matchLevel r) (matchScore r) (matchSource r)
    (matchedText r).

Definition LowerA := (option Candidate * Z * Q)%type.

(** One iteration of [for level in [2, 3, 4]] under a department. *)
Definition visit_lower_A (texts : Texts) (groups : Groups) (l5_id : Z)
  (st : LowerA) (level : Z) : LowerA :=
  let '(best_lower, best_lower_level, best_lower_score) := st in
  let valid_ids := get_ids_under_department groups level l5_id in
  match valid_ids with
  | [] => st
  | _ =>
    let filtered_data := filter_ids groups level valid_ids in
    match filtered_data with
    | [] => st
    | _ =>
      match find_best_match_in_level texts filtered_data None with
      | Some c =>
        if Qle_bool MIN_SCORE (cand_score c) && (level <? best_lower_level)%Z
        then (Some c, level, cand_score c)
        else if Qltb best_lower_score (cand_score c)
                && (level =? best_lower_level)%Z
        then (Some c, best_lower_level, cand_score c)
        else st
      | None => st
      end
    end
  end.

(** The result of [match_listing]: [None] is the Python [None]. *)
Record ListingMatch := {
  externalId : Z;
  fields : MatchResult
}.

(** The body of [match_listing] after its first line:
    [extract_searchable_text], which reads the texts out of the listing's
    fields and their JSON, is not embedded, and [texts] is what it
    returned. *)
Definition match_texts_A (texts : Texts) (groups : Groups)
  : option MatchResult :=
  let result := empty_result in
  match find_best_match_in_level texts (groups_get groups 5) None with
  | Some l5 =>
    let result :=
      record_match
        (with_chain result
           (Build_Chain None None None (Some (cand_id l5)))) 5 l5 in
    let '(best_lower, best_lower_level, _) :=
      fold_left (visit_lower_A texts groups (cand_id l5)) [2; 3; 4]%Z
                (None, 5%Z, 0) in
    match best_lower with
    | Some c =>
      let parent_chain := get_parent_chain (cand_id c) best_lower_level groups in
      Some (record_match (with_chain result parent_chain) best_lower_level c)
    | None => Some result
    end
  | None =>
    let try_l2 :=
      match find_best_match_in_level texts (groups_get groups 2) None with
      | Some l2 =>
        if Qle_bool MIN_SCORE (cand_score l2) then
          Some (record_match
                  (with_chain result (get_parent_chain (cand_id l2) 2 groups))
                  2 l2)
        else None
      | None => None
      end in
    match find_best_match_in_level texts (groups_get groups 3) None with
    | Some l3 =>
      if Qle_bool MIN_SCORE (cand_score l3) then
        let result :=
          record_match
            (with_chain result (get_parent_chain (cand_id l3) 3 groups))
            3 l3 in
        match find_best_match_in_level texts (groups_get groups 2)
                (Some (cand_id l3)) with
        | Some l2 =>
          if Qle_bool MIN_SCORE (cand_score l2) then
            Some (record_match
                    (with_chain result
                       (set_level 2 (cand_id l2) (chain result))) 2 l2)
          else Some result
        | None => Some result
        end
      else try_l2
    | None => try_l2
    end
  end.

Definition match_listing (external_id : Z) (texts : Texts) (groups : Groups)
  : option ListingMatch :=
  option_map (Build_ListingMatch external_id) (match_texts_A texts groups).

(** ** [match_listing_with_texts] (Strategy B) *)

Definition source_priority (source : Source) : Q :=
  match source with
  | location => 4
  | title => 3
  | details => 2
  | description => 1
  end.

(** The inner helper [has_word_match]. *)
Definition has_word_match (variant text : pystr) : bool :=
  nonempty variant && re_search_word variant text.

(** [[search_name, no_prefix] + alt_names] without the empty strings. *)
Definition all_variants (info : LocInfo) : list pystr :=
  filter nonempty (normalized info :: no_prefix info :: alt_names info).

(** The [if / elif / else] chain of [find_match]. *)
Definition base_match_B (text : pystr) (info : LocInfo) : Q * pystr :=
  if re_search_word (normalized info) text then (1.0, name info)
  else if nonempty (no_prefix info) && re_search_word (no_prefix info) text
  then (0.95, name info ++ u" (via " ++ no_prefix info ++ u")")
  else match first_alt (alt_names info) text with
       | Some alt => (0.9, name info ++ u" (" ++ alt ++ u")")
       | None => (0, name info)
       end.

(** Score of one node against one text in [find_match]; 0 when the pair is
    skipped or nothing matches. *)
Definition score_B (text : pystr) (info : LocInfo) : Q :=
  if negb (nonempty text) then 0
  else if negb (existsb (fun v => has_word_match v text) (all_variants info))
  then 0
  else fst (base_match_B text info).

(** One iteration of [for source, text in texts.items()]. *)
Definition visit_text_B (loc_id : Z) (info : LocInfo)
  (st : BestA) (entry : Source * pystr) : BestA :=
  let '(source, text) := entry in
  if negb (nonempty text) then st
  else if negb (existsb (fun v => has_word_match v text) (all_variants info))
  then st
  else
    let '(score, matched_name) := base_match_B text info in
    if Qltb 0 score then
      let priority := source_priority source * 0.001 in
      let adjusted := score + priority in
      if Qltb (snd st) adjusted
      then (Some (loc_id, score, matched_name, source), adjusted)
      else st
    else st.

(** One iteration of [for loc_id, info in level_data.items()]. *)
Definition visit_node_B (texts : Texts) (parent_filter : option Z)
  (st : BestA) (entry : Z * LocInfo) : BestA :=
  let '(loc_id, info) := entry in
  if truthy parent_filter && negb (opt_eqb (parent_id info) parent_filter)
  then st
  else fold_left (visit_text_B loc_id info) texts st.

Definition find_match (texts : Texts) (level_data : LevelData)
  (parent_filter : option Z) : option Candidate :=
  fst (fold_left (visit_node_B texts parent_filter) level_data (None, 0)).

Definition LowerB := (option (Candidate * Z) * Z)%type.

(** One iteration of [for level in [2, 3, 4]] under a department. *)
Definition visit_lower_B (texts : Texts) (groups : Groups) (l5_id : Z)
  (st : LowerB) (level : Z) : LowerB :=
  let valid_ids := get_ids_under_department groups level l5_id in
  match valid_ids with
  | [] => st
  | _ =>
    match find_match texts (filter_ids groups level valid_ids) None with
    | Some c =>
      if Qle_bool MIN_SCORE (cand_score c) && (level <? snd st)%Z
      then (Some (c, level), level)
      else st
    | None => st
    end
  end.

Definition match_listing_with_texts (texts : Texts) (groups : Groups)
  : MatchResult :=
  let result := empty_result in
  let step2 :=
    match find_match texts (groups_get groups 5) None with
    | Some l5 =>
      let result :=
        record_match
          (with_chain result
             (Build_Chain None None None (Some (cand_id l5)))) 5 l5 in
      match fst (fold_left (visit_lower_B texts groups (cand_id l5))
                           [2; 3; 4]%Z (None, 5%Z)) with
      | Some (c, level) =>
        record_match
          (with_chain result (get_parent_chain (cand_id c) level groups))
          level c
      | None => result
      end
    | None =>
      match find_match texts (groups_get groups 2) None with
      | Some l2 =>
        if Qle_bool MIN_SCORE (cand_score l2) then
          record_match
            (with_chain result (get_parent_chain (cand_id l2) 2 groups)) 2 l2
        else result
      | None => result
      end
    end in
  match find_match texts (groups_get groups 3) None with
  | Some l3 =>
    if Qle_bool MIN_SCORE (cand_score l3) then
      let result :=
        record_match
          (with_chain result (get_parent_chain (cand_id l3) 3 groups)) 3 l3 in
      match find_match texts (groups_get groups 2) (Some (cand_id l3)) with
      | Some l2 =>
        if Qle_bool MIN_SCORE (cand_score l2) then
          record_match
            (with_chain result (set_level 2 (cand_id l2) (chain result))) 2 l2
        else result
      | None => result
      end
    else step2
  | None => step2
  end.

(** ** Auxiliary predicates used in the statements *)

(** The text is a word followed by one blank, as every entry of [prefixes]. *)
Definition ends_with_blank (p : pystr) : bool :=
  match rev p with
  | c :: _ :: _ => Unicode.is_space c
  | _ => false
  end.

(** The text is non-empty and its last character is not a space. *)
Definition ends_nonspace (s : pystr) : bool :=
  match rev s with
  | c :: _ => negb (Unicode.is_space c)
  | [] => false
  end.

(** Every character of the text is in the repertoire on which the
    character data is exact. *)
Definition in_repertoire_text (s : pystr) : Prop :=
  Forall (fun c => Unicode.in_repertoire c = true) s.

(** The characters of the repertoire, listed. *)
Definition repertoire : list N :=
  map N.of_nat (seq 0 256 ++ seq 768 112).

Definition list_eqb (a b : list N) : bool :=
  if list_eq_dec N.eq_dec a b then true else false.

(** A character that lowercasing, decomposition, reordering and the removal
    of marks all leave in place. *)
Definition fixed_char (c : N) : bool :=
  (Unicode.lower_char c =? c)%N && list_eqb (Unicode.decomp c) [c]
  && (Unicode.ccc c =? 0)%N && negb (Unicode.is_Mn c).

Definition starter (c : N) : bool := (Unicode.ccc c =? 0)%N.

(** ** Well-formed hierarchies *)

(** Every node of levels 2 to 4 has a parent id, and that id is a node of
    the level above. *)
Definition well_formed (groups : Groups) : Prop :=
  forall (level i : Z) (info : LocInfo),
    (2 <= level <= 4)%Z ->
    lookup i (groups_get groups level) = Some info ->
    exists p pinfo,
      parent_id info = Some p
      /\ lookup p (groups_get groups (level + 1)) = Some pinfo.

(** No parent id has the truth value false, that is, none is 0. *)
Definition truthy_parents (groups : Groups) : Prop :=
  forall (level i : Z) (info : LocInfo),
    lookup i (groups_get groups level) = Some info ->
    parent_id info <> Some 0%Z.

(** A node built from a display name the way [load_location_groups] does,
    for a row without [loc_name_search]; [alts] stands for the alternate
    names taken from the row's details. *)
Definition node (display : pystr) (alts : list pystr) (parent : option Z)
  : LocInfo :=
  Build_LocInfo display (normalize_text display)
    (remove_location_prefixes display) alts parent.

(** A department with id 0 and one region under it. *)
Definition groups_zero_id : Groups :=
  [ (5, [(0, node u"La Libertad" [] None)]);
    (4, [(7, node u"Region Central" [] (Some 0))]) ]%Z.

(** A listing that names the region and the department of
    [groups_zero_id] in its title. *)
Definition texts_zero_id : Texts :=
  [ (title, u"terreno en region central, la libertad"); (location, []);
    (details, []); (description, []) ].

(** A department, a region, a municipality and a colonia, each under the
    one before. *)
Definition groups_four_levels : Groups :=
  [ (5, [(501, node u"La Libertad" [] None)]);
    (4, [(401, node u"Region Central" [] (Some 501))]);
    (3, [(301, node u"Antiguo Cuscatlán" [] (Some 401))]);
    (2, [(201, node u"San Francisco" [] (Some 301))]) ]%Z.

(** Decision procedures for the two conditions above. *)
Definition has_parent_above (groups : Groups) (level : Z) (info : LocInfo)
  : bool :=
  match parent_id info with
  | Some p =>
    match lookup p (groups_get groups (level + 1)) with
    | Some _ => true
    | None => false
    end
  | None => false
  end.

Definition check_level (groups : Groups) (level : Z) : bool :=
  forallb (fun e => has_parent_above groups level (snd e))
          (groups_get groups level).

Definition well_formed_b (groups : Groups) : bool :=
  check_level groups 2 && check_level groups 3 && check_level groups 4.

Definition truthy_parents_b (groups : Groups) : bool :=
  forallb
    (fun lv => forallb (fun e => negb (opt_eqb (parent_id (snd e)) (Some 0%Z)))
                       (snd lv))
    groups.

(** ** Selection of the best candidate

    The three searches share one loop shape: a candidate that is eligible
    replaces the best so far when its key is strictly greater.  [best_step]
    is that loop body; the lemmas of section [Best] relate each search to
    it. *)

Definition best_step (X C : Type) (elig : X -> bool) (key : X -> Q)
  (mk : X -> C) (st : option C * Q) (x : X) : option C * Q :=
  if elig x then
    if Qltb (snd st) (key x) then (Some (mk x), key x) else st
  else st.

(** The source weights as the specification states them. *)
Definition claimed_weight (source : Source) : Q :=
  match source with
  | location => 1.0
  | title => 1.0
  | details => 0.85
  | description => 0.75
  end.

(** [find_match_in_level] as a selection: a node is eligible when its base
    score is positive, and its key is the weighted score. *)
Definition level_elig (text : pystr) (e : Z * LocInfo) : bool :=
  Qltb 0 (base_score text (snd e)).

Definition level_key (text : pystr) (source : Source) (e : Z * LocInfo) : Q :=
  base_score text (snd e) * source_weight source.

Definition level_cand (text : pystr) (source : Source) (e : Z * LocInfo)
  : Z * Q * pystr :=
  (fst e, level_key text source e, snd (base_match text (snd e))).

(** [find_best_match_in_level] as a selection over the sources. *)
Definition filtered_level (level_data : LevelData) (parent_filter : option Z)
  : LevelData :=
  match parent_filter with
  | Some p => filter_parent level_data p
  | None => level_data
  end.

Definition source_match (texts : Texts) (level_data : LevelData)
  (parent_filter : option Z) (source : Source) : option (Z * Q * pystr) :=
  let text := texts_get texts source in
  if negb (nonempty text) then None
  else find_match_in_level text (filtered_level level_data parent_filter)
                           source.

Definition source_elig (texts : Texts) (level_data : LevelData)
  (parent_filter : option Z) (source : Source) : bool :=
  match source_match texts level_data parent_filter source with
  | Some _ => true
  | None => false
  end.

Definition boosted (source : Source) (score : Q) : Q :=
  match source with
  | location => score + 0.01
  | _ => score
  end.

Definition source_key (texts : Texts) (level_data : LevelData)
  (parent_filter : option Z) (source : Source) : Q :=
  match source_match texts level_data parent_filter source with
  | Some (_, score, _) => boosted source score
  | None => 0
  end.

Definition source_cand (texts : Texts) (level_data : LevelData)
  (parent_filter : option Z) (source : Source) : Candidate :=
  match source_match texts level_data parent_filter source with
  | Some (loc_id, score, matched_text) =>
    (loc_id, boosted source score, matched_text, source)
  | None => (0%Z, 0, [], source)
  end.

(** [find_match] as a selection over the pairs of a node that passes the
    parent filter and a text, in the order of the two nested loops. *)
Definition Pair := ((Z * LocInfo) * (Source * pystr))%type.

Definition passes_filter (parent_filter : option Z) (info : LocInfo) : bool :=
  negb (truthy parent_filter && negb (opt_eqb (parent_id info) parent_filter)).

Definition pairs_B (texts : Texts) (parent_filter : option Z)
  (level_data : LevelData) : list Pair :=
  flat_map (fun e => if passes_filter parent_filter (snd e)
                     then map (pair e) texts else [])
           level_data.

Definition pair_score (x : Pair) : Q := score_B (snd (snd x)) (snd (fst x)).

Definition pair_elig (x : Pair) : bool := Qltb 0 (pair_score x).

(** The adjusted score: base score plus the tie-breaker of the source. *)
Definition pair_key (x : Pair) : Q :=
  pair_score x + source_priority (fst (snd x)) * 0.001.

Definition pair_cand (x : Pair) : Candidate :=
  (fst (fst x), pair_score x,
   snd (base_match_B (snd (snd x)) (snd (fst x))), fst (snd x)).

(** The three base scores. *)
Definition score_value (a : Q) : Prop := a = 1.0 \/ a = 0.95 \/ a = 0.9.

(** Two municipalities, and a listing that names one in its location line
    and the other in its description. *)
Definition two_municipalities : LevelData :=
  [ (31, node u"San Salvador" [] (Some 41));
    (32, node u"Santa Tecla" [] (Some 42)) ]%Z.

Definition texts_two_sources : Texts :=
  [ (title, []); (location, u"santa tecla"); (details, []);
    (description, u"a diez minutos de san salvador") ].

(** ** Scenarios *)

(** One row of a level table as [load_location_groups] indexes it. *)
Definition load_row (loc_name loc_name_search details : pystr)
  (parent_loc_group : option Z) : LocInfo :=
  Build_LocInfo loc_name
    (normalize_text
       (if nonempty loc_name_search then loc_name_search else loc_name))
    (remove_location_prefixes loc_name)
    (if nonempty details
     then [normalize_text details; remove_location_prefixes details]
     else [])
    parent_loc_group.

Definition D1 : Z := 501.
Definition M1 : Z := 301.
Definition C1 : Z := 201.
Definition R1 : Z := 401.

(** The hierarchy of the end-to-end scenario: the municipality has the
    department as its parent. *)
Definition groups_scenario : Groups :=
  [ (5, [(D1, node u"La Libertad" [] None)]);
    (3, [(M1, node u"Antiguo Cuscatlán" [] (Some D1))]);
    (2, [(C1, node u"San Francisco" [u"san francisco plaza"] (Some M1))]) ]%Z.

(** The same places with a region between municipality and department. *)
Definition groups_scenario_region : Groups :=
  [ (5, [(D1, node u"La Libertad" [] None)]);
    (4, [(R1, node u"Region Central" [] (Some D1))]);
    (3, [(M1, node u"Antiguo Cuscatlán" [] (Some R1))]);
    (2, [(C1, node u"San Francisco" [u"san francisco plaza"] (Some M1))]) ]%Z.

(** The texts of a listing that has a title only, as [match_scraped_listings]
    builds them. *)
Definition title_only (t : pystr) : Texts :=
  [ (title, normalize_text t); (location, []); (details, []);
    (description, []) ].

Definition texts_scenario : Texts :=
  title_only u"Casa en San Francisco, Antiguo Cuscatlán".

(** A listing that names a department in its details only, in the key
    order of [extract_searchable_text]. *)
Definition texts_details_only : Texts :=
  [ (title, []); (location, []); (details, u"casa en la libertad");
    (description, []) ].

Definition groups_department : Groups :=
  [ (5, [(D1, node u"La Libertad" [] None)]) ]%Z.

(** A row without a name whose details give an alternate name. *)
Definition nameless_row : LocInfo :=
  load_row [] [] u"Nueva San Salvador" None.

(** Two departments and the municipality whose name ends with the name of
    one of them. *)
Definition groups_cuscatlan : Groups :=
  [ (5, [(D1, node u"La Libertad" [] None);
         (507, node u"Cuscatlán" [] None)]);
    (4, [(R1, node u"Region Central" [] (Some D1))]);
    (3, [(M1, node u"Antiguo Cuscatlán" [] (Some R1))]) ]%Z.

(** [pat] occurs in [text] with a word boundary on each side. *)
Definition occurs_as_word (pat text : pystr) : Prop :=
  exists pre post,
    text = pre ++ pat ++ post
    /\ boundary (last_after None pre) (hd_error (pat ++ post)) = true
    /\ boundary (last_after None (pre ++ pat)) (hd_error post) = true.

(** A result that records a match: the match level, the id of that level
    and a score of at least [MIN_SCORE]. *)
Definition records_match (r : MatchResult) : Prop :=
  exists l i s,
    (2 <= l <= 5)%Z
    /\ matchLevel r = Some l
    /\ get_level l (chain r) = Some i
    /\ matchScore r = Some s
    /\ MIN_SCORE <= s.

(** ** Hierarchies and results: predicates of the further properties *)

(** The keys of every level table are pairwise different, as in a Python
    dict. *)
Definition unique_keys (groups : Groups) : Prop :=
  forall level, NoDup (keys (groups_get groups level)).

Fixpoint nodup_b (ids : list Z) : bool :=
  match ids with
  | [] => true
  | i :: r => negb (mem i r) && nodup_b r
  end.

Definition unique_keys_b (groups : Groups) : bool :=
  forallb (fun lv => nodup_b (keys (snd lv))) groups.

(** [i] is the id of a node of the level. *)
Definition is_node (groups : Groups) (level i : Z) : Prop :=
  exists info, In (i, info) (groups_get groups level).

(** Node [i] of level [level] has a parent id [p] that the walk of
    [get_parent_chain] follows. *)
Definition parent_step (groups : Groups) (level i p : Z) : Prop :=
  exists info,
    lookup i (groups_get groups level) = Some info
    /\ parent_id info = Some p /\ p <> 0%Z.

(** [j] at [level'] is reached from [i] at [level] by following parent
    ids, one level per step. *)
Inductive climbs (groups : Groups) : Z -> Z -> Z -> Z -> Prop :=
| climbs_here (i level : Z) : climbs groups i level i level
| climbs_up (i level p j level' : Z) :
    parent_step groups level i p ->
    climbs groups p (level + 1) j level' ->
    climbs groups i level j level'.

(** Two ids that a chain holds at neighbouring levels are those of a node
    and of its parent. *)
Definition linked (groups : Groups) (c : Chain) : Prop :=
  forall (l k p : Z),
    (2 <= l <= 4)%Z ->
    get_level l c = Some k -> get_level (l + 1) c = Some p ->
    exists info,
      In (k, info) (groups_get groups l) /\ parent_id info = Some p.

(** No level table has a node with id 0. *)
Definition no_zero_key (groups : Groups) : Prop :=
  forall level info, ~ In (0%Z, info) (groups_get groups level).

Definition no_zero_key_b (groups : Groups) : bool :=
  forallb (fun lv => negb (mem 0%Z (keys (snd lv)))) groups.

(** The result dict once a match of candidate [c] at [level] has been
    recorded over the chain [ch]. *)
Definition recorded (ch : Chain) (level : Z) (c : Candidate) : MatchResult :=
  Build_MatchResult ch (Some level) (Some (round2 (cand_score c)))
    (Some (cand_source c)) (truncate_text (cand_text c)).

(** A candidate of a level that lies under department [d]. *)
Definition under_department (groups : Groups) (d : Z) (c : Candidate)
  (level : Z) : Prop :=
  In (cand_id c) (get_ids_under_department groups level d)
  /\ is_node groups level (cand_id c).

(** The two ways in which a strategy fills a result: the chain of the
    matched node, or the chain of a municipality with a colonia found under
    it.  [strict] tells whether the parent filter applies to every id
    (Strategy A) or to the ids other than 0 only (Strategy B). *)
Inductive filled (strict : bool) (groups : Groups) : MatchResult -> Prop :=
| filled_chain (level : Z) (c : Candidate) :
    (2 <= level <= 5)%Z ->
    is_node groups level (cand_id c) ->
    filled strict groups
      (recorded (get_parent_chain (cand_id c) level groups) level c)
| filled_scoped (l3 l2 : Candidate) (info : LocInfo) :
    is_node groups 3 (cand_id l3) ->
    In (cand_id l2, info) (groups_get groups 2) ->
    (strict = true \/ cand_id l3 <> 0%Z ->
     parent_id info = Some (cand_id l3)) ->
    filled strict groups
      (recorded (set_level 2 (cand_id l2)
                   (get_parent_chain (cand_id l3) 3 groups)) 2 l2).

(** [level] is the most specific level of the result [r]: the result holds
    the id of a node of that level, and no id of a level below. *)
Definition most_specific (groups : Groups) (r : MatchResult) (level : Z)
  : Prop :=
  (2 <= level <= 5)%Z
  /\ (exists i, get_level level (chain r) = Some i /\ is_node groups level i)
  /\ (forall j, (j < level)%Z -> get_level j (chain r) = None).

(** The chain has every level from [level] to 5 set. *)
Definition complete_from (level : Z) (c : Chain) : Prop :=
  forall m, (level <= m <= 5)%Z -> get_level m c <> None.

(** The matched text and the score as they are stored: a text of 1 to 255
    characters or null, a score with two decimals. *)
Definition stored_fields (r : MatchResult) : Prop :=
  match matchedText r with
  | Some t => t <> [] /\ (List.length t <= 255)%nat
  | None => True
  end
  /\ match matchScore r with
     | Some s => exists n : Z, s == n # 100
     | None => True
     end.

(** A department, a region and a municipality, and a listing that names
    the region and the department. *)
Definition groups_three_levels : Groups :=
  [ (5, [(501, node u"La Libertad" [] None)]);
    (4, [(401, node u"Region Central" [] (Some 501))]);
    (3, [(301, node u"Antiguo Cuscatlán" [] (Some 401))]) ]%Z.

Definition texts_region : Texts :=
  title_only u"Terreno en Region Central, La Libertad".

(** ** Paginated reads

    [load_location_groups] and [process_listings] read a table page by
    page with [.range(offset, offset + page_size - 1)].  The server is
    modelled by the rows of the table, which do not change between two
    requests: a range request returns the rows at the positions asked for,
    both ends included. *)

Definition page_size : nat := 1000.

Definition range_rows (A : Type) (table : list A) (first last : nat)
  : list A :=
  firstn (last + 1 - first) (skipn first table).

(** The [while True] loop; one unit of fuel per request, [None] when the
    fuel runs out before the loop ends. *)
Fixpoint read_pages (A : Type) (fuel : nat) (table : list A) (offset : nat)
  (all_rows : list A) : option (list A) :=
  match fuel with
  | O => None
  | S fuel' =>
    let data := range_rows table offset (offset + page_size - 1) in
    match data with
    | [] => Some all_rows
    | _ :: _ =>
      let all_rows := all_rows ++ data in
      if (List.length data <? page_size)%nat then Some all_rows
      else read_pages fuel' table (offset + page_size) all_rows
    end
  end.

(** ** Insertion in batches *)

Definition BATCH_SIZE : nat := 100.

(** [range(start, stop, step)] for a positive step. *)
Fixpoint range (fuel start stop step : nat) : list nat :=
  match fuel with
  | O => []
  | S fuel' =>
    if (start <? stop)%nat
    then start :: range fuel' (start + step) stop step
    else []
  end.

(** [l[i:j]]. *)
Definition slice (A : Type) (l : list A) (i j : nat) : list A :=
  firstn (j - i) (skipn i l).

(** The batches of [for i in range(0, len(matches), BATCH_SIZE)]. *)
Definition batches (A : Type) (matches : list A) : list (list A) :=
  map (fun i => slice matches i (i + BATCH_SIZE))
      (range (List.length matches) 0 (List.length matches) BATCH_SIZE).

(** What [requests.post] does on one call: it returns a response with a
    status code, or raises. *)
Inductive Response :=
| Status (code : Z)
| Raised.

(** One iteration of the loop of [match_scraped_listings] that posts the
    batches; [st] is [(success, errors)]. *)
Definition post_batch (A : Type) (st : nat * nat)
  (call : Response * list A) : nat * nat :=
  let '(resp, batch) := call in
  match resp with
  | Status code =>
    if (code =? 200)%Z || (code =? 201)%Z
    then (fst st + List.length batch, snd st)%nat
    else (fst st, snd st + List.length batch)%nat
  | Raised => (fst st, snd st + List.length batch)%nat
  end.

(** The end of [match_scraped_listings]: [(0, 0)] without matches, else the
    counts after all batches were posted; [responses k] is the outcome of
    the k-th call. *)
Definition insert_matches (A : Type) (responses : nat -> Response)
  (matches : list A) : nat * nat :=
  match matches with
  | [] => (0, 0)%nat
  | _ :: _ =>
    let bs := batches matches in
    fold_left (@post_batch A)
              (combine (map responses (seq 0 (List.length bs))) bs)
              (0, 0)%nat
  end.

(** ** [load_location_groups]

    A row of a table [sv_loc_group<level>]; its text columns are strings
    (a null is read as the empty string). *)
Record Row := {
  row_id : Z;
  loc_name : pystr;
  loc_name_search : pystr;
  row_details : pystr;
  parent_loc_group : option Z
}.

(** [d[k] = v] on a dict: the value of a key that is present is replaced
    where it stands, a new key is added at the end. *)
Fixpoint dict_set (A : Type) (d : list (Z * A)) (k : Z) (v : A)
  : list (Z * A) :=
  match d with
  | [] => [(k, v)]
  | (k', v') :: r =>
    if (k' =? k)%Z then (k, v) :: r else (k', v') :: dict_set r k v
  end.

Definition row_info (row : Row) : LocInfo :=
  load_row (loc_name row) (loc_name_search row) (row_details row)
           (parent_loc_group row).

(** The body of [for row in all_rows]. *)
Definition index_row (level_table : LevelData) (row : Row) : LevelData :=
  dict_set level_table (row_id row) (row_info row).

(** The table of one level: the rows read page by page and indexed, or the
    empty dict when reading raised ([None]). *)
Definition load_level (table : option (list Row)) : LevelData :=
  match table with
  | Some rows =>
    match read_pages (S (List.length rows)) rows 0 [] with
    | Some all_rows => fold_left index_row all_rows []
    | None => []
    end
  | None => []
  end.

Definition load_location_groups (tables : Z -> option (list Row)) : Groups :=
  map (fun level => (level, load_level (tables level))) [2; 3; 4; 5]%Z.

(** The last row of [rows] with id [i]. *)
Definition last_row (rows : list Row) (i : Z) : option Row :=
  find (fun row => (row_id row =? i)%Z) (rev rows).

(** ** The test of [match_scraped_listings] for a match

    [any(v for k, v in match_result.items()
         if k.startswith('locGroup') and v is not None)]. *)
Definition has_location (r : MatchResult) : bool :=
  existsb truthy
    [ locGroup2Id (chain r); locGroup3Id (chain r);
      locGroup4Id (chain r); locGroup5Id (chain r) ].

(** Two rows with the same id, and a row of another id between them. *)
Definition rows_example : list Row :=
  [ Build_Row 7 u"Colonia Escalón" [] [] (Some 3%Z);
    Build_Row 8 u"San Benito" [] [] (Some 3%Z);
    Build_Row 7 u"Escalón" [] u"Colonia Escalón" (Some 4%Z) ].

(** * Properties *)

(** ** Stripping *)

Section Strip.

Lemma lstrip_split (s : pystr) :
  exists pre, s = pre ++ lstrip s
              /\ Forall (fun c => Unicode.is_space c = true) pre.
Proof.
  induction s as [|c r IH]; simpl.
  - exists []. split; [reflexivity | constructor].
  - destruct (Unicode.is_space c) eqn:E.
    + destruct IH as [pre [H1 H2]].
      exists (c :: pre). split.
      * simpl. now rewrite <- H1.
      * now constructor.
    + exists []. split; [reflexivity | constructor].
Qed.

Lemma lstrip_head (s : pystr) (c : N) (r : pystr) :
  lstrip s = c :: r -> Unicode.is_space c = false.
Proof.
  induction s as [|d q IH]; simpl; [discriminate|].
  destruct (Unicode.is_space d) eqn:E; [exact IH|].
  intros H. injection H as -> _. exact E.
Qed.

Lemma lstrip_fixed (s : pystr) :
  match s with c :: _ => Unicode.is_space c = false | [] => True end ->
  lstrip s = s.
Proof.
  destruct s as [|c r]; simpl; [reflexivity|].
  now intros ->.
Qed.

Lemma lstrip_idem (s : pystr) : lstrip (lstrip s) = lstrip s.
Proof.
  apply lstrip_fixed.
  destruct (lstrip s) as [|c r] eqn:E; [exact I|].
  exact (lstrip_head _ E).
Qed.

Lemma strip_incl (s : pystr) (c : N) : In c (strip s) -> In c s.
Proof.
  unfold strip. intros H. apply in_rev in H.
  destruct (lstrip_split (rev (lstrip s))) as [p1 [E1 _]].
  assert (H1 : In c (rev (lstrip s))).
  { rewrite E1. apply in_or_app. now right. }
  apply in_rev in H1.
  destruct (lstrip_split s) as [p2 [E2 _]].
  rewrite E2. apply in_or_app. now right.
Qed.

(** The stripped text starts with a non-space character. *)
Lemma strip_head (s : pystr) (c : N) (r : pystr) :
  strip s = c :: r -> Unicode.is_space c = false.
Proof.
  unfold strip. intros H.
  destruct (lstrip_split (rev (lstrip s))) as [p [E _]].
  set (b := lstrip (rev (lstrip s))) in *.
  assert (Ha : lstrip s = rev b ++ rev p).
  { rewrite <- rev_app_distr, <- E. now rewrite rev_involutive. }
  rewrite H in Ha. simpl in Ha.
  exact (lstrip_head _ Ha).
Qed.

Lemma strip_idem (s : pystr) : strip (strip s) = strip s.
Proof.
  assert (Hl : lstrip (strip s) = strip s).
  { apply lstrip_fixed. destruct (strip s) as [|c r] eqn:E; [exact I|].
    exact (strip_head _ E). }
  unfold strip at 1. rewrite Hl. unfold strip.
  rewrite rev_involutive. now rewrite lstrip_idem.
Qed.

(** The stripped text ends with a non-space character. *)
Lemma strip_last (s : pystr) (c : N) (r : pystr) :
  rev (strip s) = c :: r -> Unicode.is_space c = false.
Proof.
  unfold strip. rewrite rev_involutive. apply lstrip_head.
Qed.

(** A text that ends with a non-space character is not stripped away. *)
Lemma strip_keeps_last (s : pystr) (c : N) (r : pystr) :
  rev s = c :: r -> Unicode.is_space c = false ->
  exists r', rev (strip s) = c :: r'.
Proof.
  intros Hs Hc. unfold strip. rewrite rev_involutive.
  destruct (lstrip_split s) as [p [E Hp]].
  assert (Hr : rev s = rev (lstrip s) ++ rev p).
  { rewrite E at 1. apply rev_app_distr. }
  destruct (rev (lstrip s)) as [|d q] eqn:Ed.
  - simpl in Hr. rewrite Hs in Hr.
    assert (Hin : In c p). { apply in_rev. rewrite <- Hr. now left. }
    rewrite Forall_forall in Hp. rewrite (Hp _ Hin) in Hc. discriminate.
  - simpl in Hr. rewrite Hs in Hr. injection Hr as -> _.
    simpl. rewrite Hc. now exists q.
Qed.

End Strip.

(** ** Prefix removal *)

Section Prefixes.

Lemma strip_prefix_app (p s r : pystr) :
  strip_prefix p s = Some r -> s = p ++ r.
Proof.
  revert s; induction p as [|a p IH]; intros s; simpl.
  - now intros [= ->].
  - destruct s as [|b s]; [discriminate|].
    destruct (N.eqb_spec a b) as [->|]; [|discriminate].
    intros H. now rewrite (IH _ H).
Qed.

Lemma strip_first_app (ps : list pystr) (s r : pystr) :
  strip_first ps s = Some r -> exists p, In p ps /\ s = p ++ r.
Proof.
  induction ps as [|p ps IH]; simpl; [discriminate|].
  destruct (strip_prefix p s) as [q|] eqn:E.
  - intros [= ->]. exists p. split; [now left | now apply strip_prefix_app].
  - intros H. destruct (IH H) as [p' [Hin Hs]].
    exists p'. split; [now right | exact Hs].
Qed.

Lemma strip_first_none (ps : list pystr) (s : pystr) :
  strip_first ps s = None <-> forall p, In p ps -> startswith s p = false.
Proof.
  unfold startswith. induction ps as [|p ps IH]; simpl.
  - split; [intros _ q [] | reflexivity].
  - destruct (strip_prefix p s) eqn:E.
    + split; [discriminate|]. intros H.
      specialize (H p (or_introl eq_refl)). rewrite E in H. discriminate.
    + rewrite IH. split.
      * intros H q [<-|Hq]; [now rewrite E | now apply H].
      * intros H q Hq. apply H. now right.
Qed.

Lemma prefixes_end_with_blank :
  forall p, In p prefixes -> ends_with_blank p = true.
Proof.
  apply Forall_forall. unfold prefixes.
  repeat (constructor; [vm_compute; reflexivity|]). constructor.
Qed.

Lemma strip_first_shorter (s r : pystr) :
  strip_first prefixes s = Some r -> (List.length r < List.length s)%nat.
Proof.
  intros H. destruct (strip_first_app _ _ H) as [p [Hin ->]].
  apply prefixes_end_with_blank in Hin. unfold ends_with_blank in Hin.
  rewrite length_app.
  destruct p as [|a p]; [discriminate|]. simpl. lia.
Qed.

Lemma strip_loop_eq (fuel : nat) (s : pystr) :
  strip_loop fuel s =
  match strip_first prefixes s with
  | None => Some s
  | Some r => match fuel with O => None | S fuel' => strip_loop fuel' r end
  end.
Proof. destruct fuel; reflexivity. Qed.

(** The loop ends within as many iterations as the text has characters. *)
Lemma strip_loop_total (fuel : nat) (s : pystr) :
  (List.length s <= fuel)%nat ->
  exists r, strip_loop fuel s = Some r /\ strip_first prefixes r = None.
Proof.
  revert s; induction fuel as [|fuel IH]; intros s Hlen;
    rewrite strip_loop_eq;
    destruct (strip_first prefixes s) as [r|] eqn:E;
    try (exists s; split; [reflexivity | exact E]).
  - apply strip_first_shorter in E. lia.
  - apply IH. apply strip_first_shorter in E. lia.
Qed.

Lemma strip_first_ends (s r : pystr) :
  strip_first prefixes s = Some r ->
  ends_nonspace s = true -> ends_nonspace r = true.
Proof.
  intros H Hs. destruct (strip_first_app _ _ H) as [p [Hin ->]].
  apply prefixes_end_with_blank in Hin.
  unfold ends_nonspace, ends_with_blank in *.
  rewrite rev_app_distr in Hs.
  destruct (rev r) as [|c q]; [|exact Hs].
  simpl in Hs. destruct (rev p) as [|c [|d q]]; try discriminate.
  rewrite Hin in Hs. discriminate.
Qed.

Lemma strip_loop_ends (fuel : nat) (s r : pystr) :
  strip_loop fuel s = Some r ->
  ends_nonspace s = true -> ends_nonspace r = true.
Proof.
  revert s; induction fuel as [|fuel IH]; intros s;
    rewrite strip_loop_eq;
    destruct (strip_first prefixes s) as [q|] eqn:E;
    try discriminate; try (now intros [= ->]).
  intros H Hs. apply (IH _ H). exact (strip_first_ends _ E Hs).
Qed.

(** The loop removes a sequence of prefixes of the table from the front
    of the text, and nothing else. *)
Lemma strip_loop_removed (fuel : nat) (s r : pystr) :
  strip_loop fuel s = Some r ->
  exists ps, Forall (fun p => In p prefixes) ps /\ s = List.concat ps ++ r.
Proof.
  revert s; induction fuel as [|fuel IH]; intros s;
    rewrite strip_loop_eq;
    destruct (strip_first prefixes s) as [q|] eqn:E;
    try discriminate;
    try (intros [= ->]; exists []; split; [constructor | reflexivity]).
  intros H. destruct (IH _ H) as [ps [Hps Hq]].
  destruct (strip_first_app _ _ E) as [p [Hin Hs]].
  exists (p :: ps). split; [now constructor|].
  rewrite Hs, Hq. simpl. now rewrite app_assoc.
Qed.

End Prefixes.

Section Normalised.

Lemma normalize_text_stripped (text : pystr) :
  exists x, normalize_text text = strip x.
Proof.
  destruct text as [|c r].
  - exists []. reflexivity.
  - eexists. reflexivity.
Qed.

Lemma normalize_text_ends (text : pystr) :
  normalize_text text <> [] -> ends_nonspace (normalize_text text) = true.
Proof.
  destruct (normalize_text_stripped text) as [x ->].
  intros Hne. unfold ends_nonspace.
  destruct (rev (strip x)) as [|c q] eqn:E.
  - apply (f_equal (@rev N)) in E. rewrite rev_involutive in E.
    now elim Hne.
  - now rewrite (strip_last _ E).
Qed.

Lemma ends_nonspace_strip (s : pystr) :
  ends_nonspace s = true -> strip s <> [].
Proof.
  unfold ends_nonspace. destruct (rev s) as [|c q] eqn:E; [discriminate|].
  intros Hc. apply negb_true_iff in Hc.
  destruct (strip_keeps_last _ E Hc) as [r' Hr]. intros H0.
  rewrite H0 in Hr. discriminate.
Qed.

End Normalised.

(** C10.  [remove_location_prefixes] normalises its input and removes
    locality prefixes one after the other until none applies: for
    ["Colonia La Cima 1"] it removes ["colonia "], then ["la "], and returns
    ["cima 1"]; for ["Cantón El Ángel"], whose accents the normalisation
    drops first, it returns ["angel"].  For every input the loop ends,
    within as many iterations as the normalised text has characters: what
    it has removed from the front of the normalised text is a sequence of
    prefixes of the table, what it leaves starts with no prefix of the
    table, and the result is what it leaves, stripped.  A name whose
    normalised form is not empty is never reduced to the empty string. *)
Theorem remove_location_prefixes_stops :
  remove_location_prefixes u"Colonia La Cima 1" = u"cima 1"
  /\ (strip_first prefixes u"colonia la cima 1" = Some u"la cima 1"
      /\ strip_first prefixes u"la cima 1" = Some u"cima 1"
      /\ strip_first prefixes u"cima 1" = None)
  /\ remove_location_prefixes u"Cantón El Ángel" = u"angel"
  /\ (forall text, exists ps r,
        strip_loop (List.length (normalize_text text)) (normalize_text text)
          = Some r
        /\ Forall (fun p => In p prefixes) ps
        /\ normalize_text text = List.concat ps ++ r
        /\ (forall p, In p prefixes -> startswith r p = false)
        /\ remove_location_prefixes text = strip r)
  /\ (forall text,
        normalize_text text <> [] -> remove_location_prefixes text <> []).
Proof.
  split; [vm_compute; reflexivity|].
  split; [repeat split; vm_compute; reflexivity|].
  split; [vm_compute; reflexivity|].
  split.
  - intros text.
    destruct (strip_loop_total (normalize_text text) (le_n _)) as [r [Hr Hn]].
    destruct (strip_loop_removed _ _ Hr) as [ps [Hps Hs]].
    exists ps, r. split; [exact Hr|]. split; [exact Hps|].
    split; [exact Hs|]. split.
    + now apply strip_first_none.
    + unfold remove_location_prefixes. now rewrite Hr.
  - intros text Hne.
    destruct (strip_loop_total (normalize_text text) (le_n _)) as [r [Hr _]].
    unfold remove_location_prefixes. rewrite Hr.
    apply ends_nonspace_strip.
    apply (strip_loop_ends _ _ Hr). now apply normalize_text_ends.
Qed.

Lemma remove_location_prefixes_stops_witness :
  normalize_text u"Barrio San Jacinto" <> []
  /\ remove_location_prefixes u"Barrio San Jacinto" <> []
  /\ remove_location_prefixes u"Barrio San Jacinto" = u"san jacinto"
  /\ exists ps r,
       strip_loop (List.length (normalize_text u"Barrio San Jacinto"))
         (normalize_text u"Barrio San Jacinto") = Some r
       /\ Forall (fun p => In p prefixes) ps
       /\ normalize_text u"Barrio San Jacinto" = List.concat ps ++ r
       /\ (forall p, In p prefixes -> startswith r p = false)
       /\ remove_location_prefixes u"Barrio San Jacinto" = strip r.
Proof.
  assert (H : normalize_text u"Barrio San Jacinto" <> [])
    by (vm_compute; discriminate).
  split; [exact H|].
  split;
    [exact (proj2 (proj2 (proj2 (proj2 remove_location_prefixes_stops)))
              _ H)|].
  split; [vm_compute; reflexivity|].
  exact (proj1 (proj2 (proj2 (proj2 remove_location_prefixes_stops)))
           u"Barrio San Jacinto").
Defined.

(** ** Normalisation *)

Section CanonicalOrder.

Local Abbreviation ins := (fun out c => Unicode.insert_mark c out).

Lemma insert_mark_in (c d : N) (out : list N) :
  In d (Unicode.insert_mark c out) <-> d = c \/ In d out.
Proof.
  induction out as [|e r IH]; simpl.
  - intuition.
  - destruct ((0 <? Unicode.ccc c)%N && (Unicode.ccc c <? Unicode.ccc e)%N);
      simpl; rewrite ?IH; intuition.
Qed.

Lemma insert_mark_starters (c : N) (out : list N) :
  filter starter (Unicode.insert_mark c out) =
  if starter c then c :: filter starter out else filter starter out.
Proof.
  unfold starter. induction out as [|e r IH]; simpl.
  - destruct (Unicode.ccc c =? 0)%N; reflexivity.
  - destruct ((0 <? Unicode.ccc c)%N && (Unicode.ccc c <? Unicode.ccc e)%N)
      eqn:E; simpl.
    + apply andb_true_iff in E. destruct E as [E1 E2].
      apply N.ltb_lt in E1, E2.
      destruct (N.eqb_spec (Unicode.ccc e) 0); [lia|].
      destruct (N.eqb_spec (Unicode.ccc c) 0); [lia|].
      rewrite IH. destruct (N.eqb_spec (Unicode.ccc c) 0); [lia|reflexivity].
    + destruct (Unicode.ccc c =? 0)%N; reflexivity.
Qed.

Lemma fold_insert_in (s acc : list N) (d : N) :
  In d (fold_left ins s acc) <-> In d s \/ In d acc.
Proof.
  revert acc; induction s as [|c r IH]; intros acc; simpl.
  - intuition.
  - rewrite IH. rewrite insert_mark_in. intuition.
Qed.

Lemma fold_insert_starters (s acc : list N) :
  filter starter (fold_left ins s acc) =
  rev (filter starter s) ++ filter starter acc.
Proof.
  revert acc; induction s as [|c r IH]; intros acc; simpl.
  - reflexivity.
  - rewrite IH. rewrite insert_mark_starters.
    destruct (starter c); simpl; [|reflexivity].
    now rewrite <- app_assoc.
Qed.

Lemma canonical_order_in (s : pystr) (d : N) :
  In d (Unicode.canonical_order s) <-> In d s.
Proof.
  unfold Unicode.canonical_order. rewrite <- in_rev.
  rewrite fold_insert_in. simpl. intuition.
Qed.

Lemma filter_rev (f : N -> bool) (l : list N) :
  filter f (rev l) = rev (filter f l).
Proof.
  induction l as [|a l IH]; simpl; [reflexivity|].
  rewrite filter_app, IH. simpl. destruct (f a); simpl.
  - reflexivity.
  - now rewrite app_nil_r.
Qed.

(** Reordering moves marks only: the starters keep their order. *)
Lemma canonical_order_starters (s : pystr) :
  filter starter (Unicode.canonical_order s) = filter starter s.
Proof.
  unfold Unicode.canonical_order. rewrite filter_rev.
  rewrite fold_insert_starters. simpl. rewrite app_nil_r.
  apply rev_involutive.
Qed.

Lemma fold_insert_all_starters (s acc : list N) :
  Forall (fun c => starter c = true) s ->
  fold_left ins s acc = rev s ++ acc.
Proof.
  revert acc; induction s as [|c r IH]; intros acc H; simpl.
  - reflexivity.
  - inversion H as [|? ? Hc Hr]; subst. rewrite (IH _ Hr).
    rewrite <- app_assoc. simpl. f_equal.
    unfold starter in Hc. apply N.eqb_eq in Hc.
    destruct acc as [|e acc]; simpl; [reflexivity|].
    rewrite Hc. reflexivity.
Qed.

Lemma canonical_order_all_starters (s : pystr) :
  Forall (fun c => starter c = true) s -> Unicode.canonical_order s = s.
Proof.
  intros H. unfold Unicode.canonical_order.
  rewrite (fold_insert_all_starters [] H), app_nil_r.
  apply rev_involutive.
Qed.

Lemma filter_through (f g : N -> bool) (l : list N) :
  (forall c, In c l -> f c = true -> g c = true) ->
  filter f (filter g l) = filter f l.
Proof.
  induction l as [|a l IH]; intros H; simpl; [reflexivity|].
  assert (IH' := IH (fun c Hc => H c (or_intror Hc))).
  destruct (g a) eqn:Eg; simpl.
  - now rewrite IH'.
  - destruct (f a) eqn:Ef; [|exact IH'].
    rewrite (H a (or_introl eq_refl) Ef) in Eg. discriminate.
Qed.

(** When every character that is not a mark of category Mn is a starter,
    the reordering is invisible once the marks are dropped. *)
Lemma drop_marks_canonical_order (s : pystr) :
  (forall c, In c s -> Unicode.is_Mn c = false -> starter c = true) ->
  drop_marks (Unicode.canonical_order s) = drop_marks s.
Proof.
  intros H. unfold drop_marks.
  assert (Hs : forall l : pystr,
             (forall c, In c l -> In c s) ->
             filter (fun c => negb (Unicode.is_Mn c)) (filter starter l) =
             filter (fun c => negb (Unicode.is_Mn c)) l).
  { intros l Hl. apply filter_through.
    intros c Hc Hm. apply negb_true_iff in Hm. apply H; auto. }
  rewrite <- (Hs (Unicode.canonical_order s)).
  - rewrite canonical_order_starters. apply Hs. auto.
  - intros c Hc. now apply canonical_order_in.
Qed.

End CanonicalOrder.

Section Idempotence.

Lemma in_repertoire_listed (c : N) :
  Unicode.in_repertoire c = true -> In c repertoire.
Proof.
  unfold Unicode.in_repertoire, Unicode.in_range, repertoire. intros H.
  rewrite <- (N2Nat.id c). apply in_map. apply in_or_app.
  rewrite !in_seq.
  apply orb_true_iff in H. destruct H as [H|H].
  - apply N.leb_le in H. left. lia.
  - apply andb_true_iff in H. destruct H as [H1 H2].
    apply N.leb_le in H1, H2. right. lia.
Qed.

(** Checked on each of the 368 characters of the repertoire: whatever
    lowercasing and decomposition produce is a mark or a fixed character. *)
Lemma repertoire_pieces :
  forallb
    (fun c => forallb (fun d => Unicode.is_Mn d || fixed_char d)
                      (Unicode.decomp (Unicode.lower_char c)))
    repertoire = true.
Proof. vm_compute. reflexivity. Qed.

Lemma pieces_fixed (s : pystr) (d : N) :
  in_repertoire_text s ->
  In d (flat_map Unicode.decomp (Unicode.lower s)) ->
  Unicode.is_Mn d = false -> fixed_char d = true.
Proof.
  intros Hs Hd Hm. apply in_flat_map in Hd. destruct Hd as [c' [Hc' Hd]].
  unfold Unicode.lower in Hc'. apply in_map_iff in Hc'.
  destruct Hc' as [c [<- Hc]].
  unfold in_repertoire_text in Hs. rewrite Forall_forall in Hs.
  assert (Hl := @in_repertoire_listed c (Hs _ Hc)).
  assert (Hp := repertoire_pieces). rewrite forallb_forall in Hp.
  specialize (Hp _ Hl). rewrite forallb_forall in Hp.
  specialize (Hp _ Hd). now rewrite Hm in Hp.
Qed.

Lemma fixed_char_spec (c : N) :
  fixed_char c = true ->
  Unicode.lower_char c = c /\ Unicode.decomp c = [c]
  /\ starter c = true /\ Unicode.is_Mn c = false.
Proof.
  unfold fixed_char, list_eqb, starter. intros H.
  repeat (apply andb_true_iff in H; destruct H as [H ?]).
  apply N.eqb_eq in H.
  destruct (list_eq_dec N.eq_dec (Unicode.decomp c) [c]); [|discriminate].
  repeat split; try assumption. now apply negb_true_iff.
Qed.

(** On a text of fixed characters only the final [strip] can act. *)
Lemma fixed_text (t : pystr) :
  Forall (fun c => fixed_char c = true) t ->
  drop_marks (Unicode.nfd (Unicode.lower t)) = t.
Proof.
  intros H.
  assert (Hl : Unicode.lower t = t).
  { unfold Unicode.lower. induction H as [|c r Hc _ IH]; simpl.
    - reflexivity.
    - rewrite IH. now rewrite (proj1 (fixed_char_spec _ Hc)). }
  assert (Hd : flat_map Unicode.decomp t = t).
  { induction H as [|c r Hc _ IH]; simpl.
    - reflexivity.
    - assert (IH' := IH). unfold Unicode.lower in Hl. simpl in Hl.
      injection Hl as _ Hl. rewrite (IH Hl).
      destruct (fixed_char_spec _ Hc) as [_ [-> _]]. reflexivity. }
  assert (Hc : Unicode.canonical_order t = t).
  { apply canonical_order_all_starters.
    eapply Forall_impl; [|exact H]. intros c Hc.
    now destruct (fixed_char_spec _ Hc) as [_ [_ [? _]]]. }
  unfold Unicode.nfd. rewrite Hl, Hd, Hc.
  unfold drop_marks. apply forallb_filter_id.
  apply forallb_forall. rewrite Forall_forall in H. intros c Hin.
  destruct (fixed_char_spec _ (H _ Hin)) as [_ [_ [_ ->]]]. reflexivity.
Qed.

Lemma normalize_text_fixed (s : pystr) :
  in_repertoire_text s ->
  Forall (fun c => fixed_char c = true) (normalize_text s).
Proof.
  intros Hs. destruct s as [|c0 r0]; [constructor|].
  remember (c0 :: r0) as s eqn:Es. unfold normalize_text. rewrite Es.
  rewrite <- Es. apply Forall_forall. intros d Hd.
  apply strip_incl in Hd. unfold drop_marks in Hd.
  apply filter_In in Hd. destruct Hd as [Hd Hm].
  apply negb_true_iff in Hm. unfold Unicode.nfd in Hd.
  apply (proj1 (canonical_order_in _ _)) in Hd.
  exact (@pieces_fixed s d Hs Hd Hm).
Qed.

End Idempotence.

(** C9, as amended.  [normalize_text] is idempotent on every text in Basic
    Latin, Latin-1 Supplement and Combining Diacritical Marks, and it is
    insensitive to accents: ["Antigüo Cuscatlán"] and ["Antiguo Cuscatlan"]
    have the same normal form. *)
Theorem normalize_text_idempotent_latin :
  (forall s, in_repertoire_text s ->
             normalize_text (normalize_text s) = normalize_text s)
  /\ normalize_text u"Antigüo Cuscatlán" = normalize_text u"Antiguo Cuscatlan".
Proof.
  split; [|vm_compute; reflexivity].
  intros s Hs. assert (Hf := @normalize_text_fixed s Hs).
  destruct (normalize_text_stripped s) as [x Hx].
  destruct (normalize_text s) as [|c r] eqn:E; [reflexivity|].
  unfold normalize_text. rewrite (@fixed_text _ Hf).
  rewrite Hx. apply strip_idem.
Qed.

Lemma normalize_text_idempotent_latin_witness :
  in_repertoire_text u"  Antigüo Cuscatlán "
  /\ normalize_text (normalize_text u"  Antigüo Cuscatlán ")
     = normalize_text u"  Antigüo Cuscatlán ".
Proof.
  assert (H : in_repertoire_text u"  Antigüo Cuscatlán ").
  { apply Forall_forall. apply forallb_forall. vm_compute. reflexivity. }
  split; [exact H|].
  exact (proj1 normalize_text_idempotent_latin _ H).
Defined.

(** C9, as stated, fails: outside that repertoire two spacing marks that a
    combining grapheme joiner (a mark of category Mn) keeps apart become
    neighbours once it is dropped, and the second pass reorders them.
    [normalize_text] maps U+302E U+034F U+1D165 to U+302E U+1D165, and that
    to U+1D165 U+302E. *)
Lemma normalize_text_not_idempotent :
  ~ (forall s, normalize_text (normalize_text s) = normalize_text s).
Proof.
  intros H. specialize (H [12334; 847; 119141]%N).
  vm_compute in H. discriminate.
Qed.

(** ** Parent chain *)

Section ParentChain.

Variable groups : Groups.

Lemma get_set_level (l l' i : Z) (c : Chain) :
  (2 <= l' <= 5)%Z ->
  get_level l (set_level l' i c) = if (l =? l')%Z then Some i else get_level l c.
Proof.
  intros H. unfold get_level, set_level.
  assert (Hc : (l' = 2 \/ l' = 3 \/ l' = 4 \/ l' = 5)%Z) by lia.
  destruct Hc as [-> | [-> | [-> | ->]]]; simpl;
    destruct (Z.eqb_spec l 2), (Z.eqb_spec l 3), (Z.eqb_spec l 4),
             (Z.eqb_spec l 5); simpl; try reflexivity; lia.
Qed.

Lemma chain_loop_eq (fuel : nat) (i level : Z) (c : Chain) :
  chain_loop fuel groups i level c =
  if negb (level <=? 5)%Z then Some c
  else
    match fuel with
    | O => None
    | S fuel' =>
      let result := set_level level i c in
      if (level =? 5)%Z then Some result
      else
        match lookup i (groups_get groups level) with
        | Some info =>
          if truthy (parent_id info) then
            match parent_id info with
            | Some p => chain_loop fuel' groups p (level + 1) result
            | None => Some result
            end
          else Some result
        | None => Some result
        end
    end.
Proof. destruct fuel; reflexivity. Qed.

(** The walk never needs more iterations than there are levels left, be
    the hierarchy broken or not. *)
Lemma chain_loop_enough (fuel : nat) (i level : Z) (c : Chain) :
  (6 - level <= Z.of_nat fuel)%Z ->
  chain_loop fuel groups i level c <> None.
Proof.
  revert i level c; induction fuel as [|fuel IH]; intros i level c Hf;
    rewrite chain_loop_eq; destruct (Z.leb_spec level 5); simpl;
    try discriminate; try lia.
  destruct (Z.eqb_spec level 5); [discriminate|].
  destruct (lookup i (groups_get groups level)) as [info|]; [|discriminate].
  destruct (truthy (parent_id info)); [|discriminate].
  destruct (parent_id info) as [p|]; [|discriminate].
  apply IH. lia.
Qed.

Lemma chain_loop_mono (fuel fuel' : nat) (i level : Z) (c r : Chain) :
  (fuel <= fuel')%nat ->
  chain_loop fuel groups i level c = Some r ->
  chain_loop fuel' groups i level c = Some r.
Proof.
  revert fuel' i level c; induction fuel as [|fuel IH];
    intros fuel' i level c Hf; rewrite !chain_loop_eq;
    destruct (negb (level <=? 5)%Z); try discriminate; try (intros H; exact H).
  destruct fuel' as [|fuel']; [lia|]. simpl.
  destruct (level =? 5)%Z; [intros H; exact H|].
  destruct (lookup i (groups_get groups level)) as [info|];
    [|intros H; exact H].
  destruct (truthy (parent_id info)); [|intros H; exact H].
  destruct (parent_id info) as [p|]; [|intros H; exact H].
  apply IH. lia.
Qed.

Hypothesis Hwf : well_formed groups.
Hypothesis Hids : truthy_parents groups.

Lemma chain_loop_complete (fuel : nat) (i level : Z) (c : Chain)
  (info : LocInfo) :
  (2 <= level <= 5)%Z ->
  (6 - level <= Z.of_nat fuel)%Z ->
  lookup i (groups_get groups level) = Some info ->
  exists r,
    chain_loop fuel groups i level c = Some r
    /\ (forall l, (level <= l <= 5)%Z -> get_level l r <> None)
    /\ (forall l, (l < level)%Z -> get_level l r = get_level l c).
Proof.
  revert i level c info; induction fuel as [|fuel IH];
    intros i level c info Hl Hf Hi; [lia|].
  rewrite chain_loop_eq. destruct (Z.leb_spec level 5); [simpl|lia].
  destruct (Z.eqb_spec level 5) as [-> | Hn5].
  - eexists. split; [reflexivity|]. split; intros l Hl'.
    + assert (l = 5)%Z as -> by lia. rewrite get_set_level by lia.
      discriminate.
    + rewrite get_set_level by lia.
      destruct (Z.eqb_spec l 5); [lia|reflexivity].
  - rewrite Hi.
    destruct (@Hwf level i info ltac:(lia) Hi) as [p [pinfo [Hp Hpi]]].
    assert (Hz := @Hids level i info Hi). rewrite Hp in Hz |- *.
    assert (Ht : truthy (Some p) = true).
    { simpl. destruct (Z.eqb_spec p 0); [subst; now elim Hz|reflexivity]. }
    rewrite Ht.
    destruct (@IH p (level + 1)%Z (set_level level i c) pinfo
                ltac:(lia) ltac:(lia) Hpi) as [r [Hr [Hup Hlow]]].
    exists r. split; [exact Hr|]. split; intros l Hl'.
    + destruct (Z.eq_dec l level) as [-> | Hne].
      * rewrite Hlow by lia. rewrite get_set_level by lia.
        rewrite Z.eqb_refl. discriminate.
      * apply Hup. lia.
    + rewrite Hlow by lia. rewrite get_set_level by lia.
      destruct (Z.eqb_spec l level); [lia|reflexivity].
Qed.

End ParentChain.

Lemma get_level_empty (l : Z) : get_level l empty_chain = None.
Proof.
  unfold get_level. repeat (destruct (_ =? _)%Z; [reflexivity|]). reflexivity.
Qed.

(** X23.  In a hierarchy where every node of levels 2 to 4 has a parent id
    that is a node of the level above, and no parent id is 0, the chain of
    a node of level L in 2..5 has the id of every level from L up to 5 and
    of no level under L; so a chain with [locGroup3Id] has [locGroup4Id]
    and [locGroup5Id] too.  The walk ends within 4 iterations. *)
Theorem parent_chain_complete (groups : Groups) (L i : Z) :
  well_formed groups ->
  truthy_parents groups ->
  (2 <= L <= 5)%Z ->
  lookup i (groups_get groups L) <> None ->
  let c := get_parent_chain i L groups in
  chain_loop 4 groups i L empty_chain = Some c
  /\ (forall l, (L <= l <= 5)%Z -> get_level l c <> None)
  /\ (forall l, (l < L)%Z -> get_level l c = None)
  /\ (locGroup3Id c <> None ->
      locGroup4Id c <> None /\ locGroup5Id c <> None).
Proof.
  intros Hwf Hids HL Hi.
  destruct (lookup i (groups_get groups L)) as [info|] eqn:Ei;
    [clear Hi|now elim Hi].
  destruct (@chain_loop_complete groups Hwf Hids (Z.to_nat (6 - L)) i L
              empty_chain info HL ltac:(lia) Ei) as [r [Hr [Hup Hlow]]].
  unfold get_parent_chain. rewrite Hr. cbv zeta.
  split; [|split; [exact Hup|split]].
  - apply (@chain_loop_mono groups (Z.to_nat (6 - L))); [lia|exact Hr].
  - intros l Hl. rewrite Hlow by exact Hl. apply get_level_empty.
  - intros H3.
    assert (HL3 : (L <= 3)%Z).
    { destruct (Z.le_gt_cases L 3) as [|Hgt]; [assumption|].
      elim H3. change (locGroup3Id r) with (get_level 3 r).
      rewrite Hlow by lia. apply get_level_empty. }
    split.
    + change (locGroup4Id r) with (get_level 4 r). apply Hup. lia.
    + change (locGroup5Id r) with (get_level 5 r). apply Hup. lia.
Qed.

Section Deciding.

Lemma lookup_in (A : Type) (k : Z) (d : list (Z * A)) (v : A) :
  lookup k d = Some v -> In (k, v) d.
Proof.
  induction d as [|[k' v'] d IH]; simpl; [discriminate|].
  destruct (Z.eqb_spec k' k) as [-> | Hne].
  - intros [= ->]. now left.
  - intros H. right. now apply IH.
Qed.

Lemma well_formed_b_sound (groups : Groups) :
  well_formed_b groups = true -> well_formed groups.
Proof.
  unfold well_formed_b. intros H level i info Hl Hi.
  apply andb_true_iff in H. destruct H as [H H4].
  apply andb_true_iff in H. destruct H as [H2 H3].
  assert (Hc : check_level groups level = true).
  { assert (Hlv : (level = 2 \/ level = 3 \/ level = 4)%Z) by lia.
    destruct Hlv as [-> | [-> | ->]]; assumption. }
  unfold check_level in Hc. rewrite forallb_forall in Hc.
  specialize (Hc _ (lookup_in _ _ Hi)). unfold has_parent_above in Hc.
  simpl in Hc. destruct (parent_id info) as [p|]; [|discriminate].
  destruct (lookup p (groups_get groups (level + 1))) as [pinfo|] eqn:Ep;
    [|discriminate].
  exists p, pinfo. split; [reflexivity | exact Ep].
Qed.

Lemma truthy_parents_b_sound (groups : Groups) :
  truthy_parents_b groups = true -> truthy_parents groups.
Proof.
  unfold truthy_parents_b. intros H level i info Hi.
  rewrite forallb_forall in H. unfold groups_get in Hi.
  destruct (lookup level groups) as [d|] eqn:Ed; [|discriminate Hi].
  specialize (H _ (lookup_in _ _ Ed)). simpl in H.
  rewrite forallb_forall in H.
  specialize (H _ (lookup_in _ _ Hi)). simpl in H.
  intros Hp. rewrite Hp in H. discriminate.
Qed.

End Deciding.

Lemma parent_chain_complete_witness :
  well_formed groups_four_levels
  /\ truthy_parents groups_four_levels
  /\ get_parent_chain 201 2 groups_four_levels
     = Build_Chain (Some 201%Z) (Some 301%Z) (Some 401%Z) (Some 501%Z)
  /\ chain_loop 4 groups_four_levels 201 2 empty_chain
     = Some (get_parent_chain 201 2 groups_four_levels).
Proof.
  assert (Hwf : well_formed groups_four_levels)
    by (apply well_formed_b_sound; vm_compute; reflexivity).
  assert (Hids : truthy_parents groups_four_levels)
    by (apply truthy_parents_b_sound; vm_compute; reflexivity).
  split; [exact Hwf|]. split; [exact Hids|].
  split; [vm_compute; reflexivity|].
  refine (proj1 (@parent_chain_complete groups_four_levels 2 201
                   Hwf Hids _ _)).
  - lia.
  - intros Hx. vm_compute in Hx. discriminate Hx.
Defined.

(** Without the condition on the id 0 the completeness fails: the
    hierarchy [groups_zero_id] is well-formed, and the chain of its region
    has no [locGroup5Id]. *)
Lemma parent_chain_stops_at_zero_id :
  ~ (forall (groups : Groups) (L i : Z),
        well_formed groups ->
        (2 <= L <= 5)%Z ->
        lookup i (groups_get groups L) <> None ->
        forall l, (L <= l <= 5)%Z ->
                  get_level l (get_parent_chain i L groups) <> None).
Proof.
  intros H.
  apply (H groups_zero_id 4%Z 7%Z) with (l := 5%Z).
  - apply well_formed_b_sound. vm_compute. reflexivity.
  - lia.
  - intros Hx. vm_compute in Hx. discriminate Hx.
  - lia.
  - vm_compute. reflexivity.
Qed.

(** C7.  In a well-formed hierarchy the chain of a matched node should hold
    the id of every level from the node's level up to 5.  The walk tests
    the parent id by its truth value ([if parent_id:]), so it takes the
    parent id 0 for a missing parent.  In the well-formed hierarchy
    [groups_zero_id] the region 7 has the department 0 as its parent:
    [get_ids_under_department], which compares the ids with [==], finds the
    region under the department, but the chain of the region stops at level
    4 and has no [locGroup5Id].  Both strategies, having found the
    department and the region under it, then overwrite the department with
    that chain and return a result without [locGroup5Id]. *)
Theorem parent_chain_zero_id :
  well_formed groups_zero_id
  /\ lookup 7%Z (groups_get groups_zero_id 4)
     = Some (node u"Region Central" [] (Some 0%Z))
  /\ lookup 0%Z (groups_get groups_zero_id 5)
     = Some (node u"La Libertad" [] None)
  /\ get_ids_under_department groups_zero_id 4 0 = [7%Z]
  /\ get_parent_chain 7 4 groups_zero_id
     = Build_Chain None None (Some 7%Z) None
  /\ find_best_match_in_level texts_zero_id (groups_get groups_zero_id 5)
       None
     = Some (0%Z, 1.0 * 1.0, u"La Libertad", title)
  /\ match_listing 1001 texts_zero_id groups_zero_id
     = Some (Build_ListingMatch 1001
               (Build_MatchResult (Build_Chain None None (Some 7%Z) None)
                  (Some 4%Z) (Some 1) (Some title)
                  (Some u"Region Central")))
  /\ match_listing_with_texts texts_zero_id groups_zero_id
     = Build_MatchResult (Build_Chain None None (Some 7%Z) None)
         (Some 4%Z) (Some 1) (Some title) (Some u"Region Central").
Proof.
  split; [apply well_formed_b_sound; vm_compute; reflexivity|].
  repeat split; vm_compute; reflexivity.
Qed.

(** ** Selection of the best candidate *)

Lemma Qltb_lt (x y : Q) : Qltb x y = true <-> x < y.
Proof.
  unfold Qltb. rewrite negb_true_iff. split.
  - intros H. apply Qnot_le_lt. intros Hle.
    apply Qle_bool_iff in Hle. rewrite Hle in H. discriminate.
  - intros H. destruct (Qle_bool y x) eqn:E; [|reflexivity].
    apply Qle_bool_iff in E. exfalso. exact (Qlt_not_le _ _ H E).
Qed.

Lemma Qltb_ge (x y : Q) : Qltb x y = false <-> y <= x.
Proof.
  unfold Qltb. rewrite negb_false_iff. apply Qle_bool_iff.
Qed.

Section Best.

Variables X C : Type.
Variable elig : X -> bool.
Variable key : X -> Q.
Variable mk : X -> C.

Hypothesis key_pos : forall x, elig x = true -> 0 < key x.

Local Abbreviation step := (best_step elig key mk).

(** The state after the loop is the initial one or comes from an eligible
    element, and its score bounds the initial score and every eligible
    key. *)
Lemma best_fold (l : list X) (st : option C * Q) :
  let r := fold_left step l st in
  snd st <= snd r
  /\ (forall y, In y l -> elig y = true -> key y <= snd r)
  /\ (r = st \/ exists x, In x l /\ elig x = true /\ r = (Some (mk x), key x)).
Proof.
  revert st; induction l as [|x l IH]; intros st; simpl.
  - split; [apply Qle_refl|]. split; [intros y []|now left].
  - destruct (IH (step st x)) as [H1 [H2 H3]].
    assert (Hst : snd st <= snd (step st x) /\
                  (elig x = true -> key x <= snd (step st x))).
    { unfold best_step. destruct (elig x); [|split; [apply Qle_refl|discriminate]].
      destruct (Qltb (snd st) (key x)) eqn:E; simpl.
      - apply Qltb_lt in E. split; [now apply Qlt_le_weak|intros _; apply Qle_refl].
      - apply Qltb_ge in E. split; [apply Qle_refl|now intros _]. }
    destruct Hst as [Hs1 Hs2].
    split; [exact (Qle_trans _ _ _ Hs1 H1)|]. split.
    + intros y [<-|Hy] Hey.
      * exact (Qle_trans _ _ _ (Hs2 Hey) H1).
      * now apply H2.
    + destruct H3 as [H3|[z [Hz [Hez Hr]]]].
      * rewrite H3. unfold best_step.
        destruct (elig x) eqn:Ex; [|now left].
        destruct (Qltb (snd st) (key x)); [|now left].
        right. exists x. split; [now left|]. split; [exact Ex|reflexivity].
      * right. exists z. split; [now right|]. split; assumption.
Qed.

(** A result comes from an eligible element whose key no eligible element
    exceeds. *)
Lemma best_fold_some (l : list X) (c : C) :
  fst (fold_left step l (None, 0)) = Some c ->
  exists x, In x l /\ elig x = true /\ c = mk x
            /\ forall y, In y l -> elig y = true -> key y <= key x.
Proof.
  intros H. destruct (best_fold l (None, 0)) as [_ [H2 H3]].
  destruct H3 as [H3|[x [Hx [Hex Hr]]]].
  - rewrite H3 in H. discriminate.
  - rewrite Hr in H, H2. simpl in H, H2. injection H as <-.
    exists x. repeat split; assumption.
Qed.

(** No result means no eligible element. *)
Lemma best_fold_none (l : list X) :
  fst (fold_left step l (None, 0)) = None ->
  forall y, In y l -> elig y = false.
Proof.
  intros H y Hy. destruct (elig y) eqn:Ey; [|reflexivity].
  destruct (best_fold l (None, 0)) as [_ [H2 H3]].
  destruct H3 as [H3|[x [_ [_ Hr]]]].
  - rewrite H3 in H2. simpl in H2. specialize (H2 y Hy Ey).
    exfalso. exact (Qlt_not_le _ _ (@key_pos y Ey) H2).
  - rewrite Hr in H. discriminate.
Qed.

(** An eligible element gives a result. *)
Lemma best_fold_found (l : list X) (y : X) :
  In y l -> elig y = true ->
  exists c, fst (fold_left step l (None, 0)) = Some c.
Proof.
  intros Hy Ey. destruct (fst (fold_left step l (None, 0))) as [c|] eqn:E.
  - now exists c.
  - rewrite (@best_fold_none l E y Hy) in Ey. discriminate.
Qed.

End Best.

(** ** The searches as selections *)

Lemma fold_left_ext (A B : Type) (f g : A -> B -> A) (l : list B) (a : A) :
  (forall a x, f a x = g a x) -> fold_left f l a = fold_left g l a.
Proof.
  intros H. revert a; induction l as [|x l IH]; intros a; simpl.
  - reflexivity.
  - rewrite H. apply IH.
Qed.

Lemma fold_left_flat_map (A B X : Type) (f : A -> B -> A) (g : X -> list B)
  (l : list X) (a : A) :
  fold_left f (flat_map g l) a =
  fold_left (fun a x => fold_left f (g x) a) l a.
Proof.
  revert a; induction l as [|x l IH]; intros a; simpl.
  - reflexivity.
  - rewrite fold_left_app. apply IH.
Qed.

Lemma visit_in_level_step (text : pystr) (source : Source)
  (st : LevelBest) (e : Z * LocInfo) :
  visit_in_level text source st e =
  best_step (level_elig text) (level_key text source)
            (level_cand text source) st e.
Proof.
  destruct e as [i info].
  unfold visit_in_level, best_step, level_cand.
  unfold level_elig, level_key, base_score. simpl.
  destruct (nonempty (normalized info)); simpl; [|reflexivity].
  destruct (quick_check text info); simpl; [|reflexivity].
  destruct (base_match text info) as [score matched]. simpl.
  destruct (Qltb 0 score); reflexivity.
Qed.

Lemma find_match_in_level_fold (text : pystr) (data : LevelData)
  (source : Source) :
  find_match_in_level text data source =
  if negb (nonempty text) then None
  else fst (fold_left (best_step (level_elig text) (level_key text source)
                                 (level_cand text source)) data (None, 0)).
Proof.
  unfold find_match_in_level. destruct (negb (nonempty text)); [reflexivity|].
  f_equal. apply fold_left_ext. intros. apply visit_in_level_step.
Qed.

Lemma source_weight_pos (source : Source) : 0 < source_weight source.
Proof. destruct source; reflexivity. Qed.

Lemma level_key_pos (text : pystr) (source : Source) (e : Z * LocInfo) :
  level_elig text e = true -> 0 < level_key text source e.
Proof.
  unfold level_elig, level_key. intros H. apply Qltb_lt in H.
  rewrite <- (Qmult_0_l (source_weight source)).
  apply Qmult_lt_compat_r; [apply source_weight_pos | exact H].
Qed.

(** What [find_match_in_level] returns: a node of the level with a positive
    base score, its weighted score, which no node of the level exceeds. *)
Lemma find_match_in_level_some (text : pystr) (data : LevelData)
  (source : Source) (i : Z) (s : Q) (m : pystr) :
  find_match_in_level text data source = Some (i, s, m) ->
  exists info,
    In (i, info) data
    /\ 0 < base_score text info
    /\ s = base_score text info * source_weight source
    /\ m = snd (base_match text info)
    /\ forall j info', In (j, info') data ->
                       base_score text info' * source_weight source <= s.
Proof.
  rewrite find_match_in_level_fold.
  destruct (negb (nonempty text)); [discriminate|]. intros H.
  apply best_fold_some in H.
  destruct H as [[i' info] [Hin [He [Hc Hmax]]]].
  unfold level_cand, level_key in Hc. simpl in Hc. injection Hc as -> -> ->.
  exists info. split; [exact Hin|]. split.
  { now apply Qltb_lt. }
  split; [reflexivity|]. split; [reflexivity|].
  intros j info' Hj.
  destruct (level_elig text (j, info')) eqn:Ej.
  - exact (Hmax (j, info') Hj Ej).
  - unfold level_elig in Ej. simpl in Ej. apply Qltb_ge in Ej.
    apply Qle_trans with (y := 0).
    + rewrite <- (Qmult_0_l (source_weight source)).
      apply Qmult_le_compat_r; [exact Ej|].
      apply Qlt_le_weak, source_weight_pos.
    + apply Qlt_le_weak. apply (@level_key_pos text source (i', info) He).
Qed.

Lemma visit_source_step (texts : Texts) (data : LevelData)
  (pf : option Z) (st : BestA) (source : Source) :
  visit_source texts data pf st source =
  best_step (source_elig texts data pf) (source_key texts data pf)
            (source_cand texts data pf) st source.
Proof.
  unfold visit_source, best_step, source_elig, source_key, source_cand,
    source_match, filtered_level.
  destruct (negb (nonempty (texts_get texts source))); [reflexivity|].
  destruct (find_match_in_level _ _ source) as [[[i s] m]|]; [|reflexivity].
  destruct source; reflexivity.
Qed.

Lemma find_best_match_in_level_fold (texts : Texts) (data : LevelData)
  (pf : option Z) :
  find_best_match_in_level texts data pf =
  fst (fold_left (best_step (source_elig texts data pf)
                            (source_key texts data pf)
                            (source_cand texts data pf))
                 source_order (None, 0)).
Proof.
  unfold find_best_match_in_level. f_equal.
  apply fold_left_ext. intros. apply visit_source_step.
Qed.

Lemma filtered_level_incl (data : LevelData) (pf : option Z)
  (e : Z * LocInfo) :
  In e (filtered_level data pf) -> In e data.
Proof.
  destruct pf as [p|]; simpl; [|auto].
  unfold filter_parent. intros H. apply filter_In in H. tauto.
Qed.

Lemma boosted_bonus (source : Source) (s : Q) :
  boosted source s == s + location_bonus source.
Proof.
  destruct source; simpl; try reflexivity; now rewrite Qplus_0_r.
Qed.

(** What [find_best_match_in_level] returns: the result of
    [find_match_in_level] for one source with a non-empty text, with 0.01
    added when that source is the location. *)
Lemma find_best_match_in_level_some (texts : Texts) (data : LevelData)
  (pf : option Z) (c : Candidate) :
  find_best_match_in_level texts data pf = Some c ->
  exists s info,
    find_match_in_level (texts_get texts (cand_source c))
      (filtered_level data pf) (cand_source c)
      = Some (cand_id c, s, cand_text c)
    /\ In (cand_id c, info) data
    /\ 0 < base_score (texts_get texts (cand_source c)) info
    /\ s = base_score (texts_get texts (cand_source c)) info
           * source_weight (cand_source c)
    /\ cand_score c = boosted (cand_source c) s.
Proof.
  rewrite find_best_match_in_level_fold. intros H.
  apply best_fold_some in H. destruct H as [src [_ [He [Hc _]]]].
  unfold source_elig in He. unfold source_cand in Hc.
  unfold source_match in He, Hc.
  destruct (negb (nonempty (texts_get texts src))); [discriminate|].
  destruct (find_match_in_level (texts_get texts src)
              (filtered_level data pf) src) as [[[i s] m]|] eqn:E;
    [|discriminate].
  subst c. unfold cand_source, cand_id, cand_text, cand_score. simpl.
  destruct (find_match_in_level_some _ _ _ E) as [info [Hin [Hpos [Hs _]]]].
  exists s, info. split; [exact E|].
  split; [now apply (filtered_level_incl data pf)|].
  split; [exact Hpos|]. split; [exact Hs | reflexivity].
Qed.

(** C2, as amended.  In the single-level lookup of Strategy A the base
    score of the matched node (1.0, 0.95 or 0.9) is multiplied by the weight
    of the source: 1.0 for the title, 0.95 for the location line, 0.85 for
    details, 0.75 for description; [find_best_match_in_level] then adds
    0.01 to the result of the location source and nothing to the others. *)
Theorem source_weighting :
  (source_weight title == 1.0 /\ source_weight location == 0.95
   /\ source_weight details == 0.85 /\ source_weight description == 0.75)
  /\ (forall text data source i s m,
        find_match_in_level text data source = Some (i, s, m) ->
        exists info,
          In (i, info) data
          /\ (base_score text info == 1.0 \/ base_score text info == 0.95
              \/ base_score text info == 0.9)
          /\ s == base_score text info * source_weight source)
  /\ (forall texts data pf c,
        find_best_match_in_level texts data pf = Some c ->
        exists info,
          In (cand_id c, info) data
          /\ cand_score c ==
             base_score (texts_get texts (cand_source c)) info
             * source_weight (cand_source c)
             + location_bonus (cand_source c)).
Proof.
  split; [repeat split; reflexivity|]. split.
  - intros text data source i s m H.
    destruct (find_match_in_level_some _ _ _ H)
      as [info [Hin [Hpos [Hs _]]]].
    exists info. split; [exact Hin|]. split; [|now rewrite Hs].
    revert Hpos. unfold base_score, base_match.
    destruct (negb (nonempty (normalized info)));
      [intros Hx; discriminate Hx|].
    destruct (negb (quick_check text info)); [intros Hx; discriminate Hx|].
    destruct (re_search_word (normalized info) text); [now left|].
    destruct (nonempty (no_prefix info) && re_search_word (no_prefix info) text);
      [right; now left|].
    destruct (first_alt (alt_names info) text); [right; now right|].
    intros Hx; discriminate Hx.
  - intros texts data pf c H.
    destruct (find_best_match_in_level_some _ _ _ H)
      as [s [info [_ [Hin [_ [Hs Hc]]]]]].
    exists info. split; [exact Hin|].
    rewrite Hc, boosted_bonus, Hs. reflexivity.
Qed.

Lemma source_weighting_witness :
  find_match_in_level u"la libertad" [(501%Z, node u"La Libertad" [] None)]
    location = Some (501%Z, 1.0 * 0.95, u"La Libertad")
  /\ exists info,
       In (501%Z, info) [(501%Z, node u"La Libertad" [] None)]
       /\ (base_score u"la libertad" info == 1.0
           \/ base_score u"la libertad" info == 0.95
           \/ base_score u"la libertad" info == 0.9)
       /\ 1.0 * 0.95 == base_score u"la libertad" info * source_weight location.
Proof.
  assert (H : find_match_in_level u"la libertad"
                [(501%Z, node u"La Libertad" [] None)] location
              = Some (501%Z, 1.0 * 0.95, u"La Libertad"))
    by (vm_compute; reflexivity).
  split; [exact H|].
  exact (proj1 (proj2 source_weighting) _ _ _ _ _ _ H).
Defined.

(** C2, as stated, fails: with the weights of the specification the
    location line would leave the base score unchanged, but a department
    named in the location line scores 1.0 x 0.95. *)
Lemma location_weight_is_not_one :
  ~ (forall text data source i s m,
        find_match_in_level text data source = Some (i, s, m) ->
        exists info,
          In (i, info) data
          /\ s == base_score text info * claimed_weight source).
Proof.
  intros H.
  destruct (H u"la libertad" [(501%Z, node u"La Libertad" [] None)] location
              501%Z (1.0 * 0.95) u"La Libertad")
    as [info [Hin Hs]].
  - vm_compute. reflexivity.
  - destruct Hin as [Hin|[]]. injection Hin as <-.
    vm_compute in Hs. discriminate Hs.
Qed.

(** ** Strategy B: the global search of a level *)

Lemma fold_left_map (A B X : Type) (f : A -> B -> A) (g : X -> B)
  (l : list X) (a : A) :
  fold_left f (map g l) a = fold_left (fun a x => f a (g x)) l a.
Proof.
  revert a; induction l as [|x l IH]; intros a; simpl; [reflexivity|apply IH].
Qed.

Lemma visit_text_B_step (i : Z) (info : LocInfo) (st : BestA)
  (t : Source * pystr) :
  visit_text_B i info st t =
  best_step pair_elig pair_key pair_cand st ((i, info), t).
Proof.
  destruct t as [source text].
  unfold visit_text_B, best_step, pair_cand, pair_key, pair_elig.
  unfold pair_score, score_B. simpl.
  destruct (negb (nonempty text)); [reflexivity|].
  destruct (negb (existsb _ (all_variants info))); [reflexivity|].
  destruct (base_match_B text info) as [score matched]. simpl.
  destruct (Qltb 0 score); reflexivity.
Qed.

Lemma find_match_fold (texts : Texts) (data : LevelData) (pf : option Z) :
  find_match texts data pf =
  fst (fold_left (best_step pair_elig pair_key pair_cand)
                 (pairs_B texts pf data) (None, 0)).
Proof.
  unfold find_match, pairs_B. f_equal. rewrite fold_left_flat_map.
  apply fold_left_ext. intros st [i info]. unfold visit_node_B, passes_filter.
  simpl.
  destruct (truthy pf && negb (opt_eqb (parent_id info) pf)); simpl;
    [reflexivity|].
  rewrite fold_left_map. apply fold_left_ext. intros.
  apply visit_text_B_step.
Qed.

Lemma in_pairs_B (texts : Texts) (pf : option Z) (data : LevelData)
  (e : Z * LocInfo) (t : Source * pystr) :
  In (e, t) (pairs_B texts pf data) <->
  In e data /\ passes_filter pf (snd e) = true /\ In t texts.
Proof.
  unfold pairs_B. rewrite in_flat_map. split.
  - intros [e' [He' H]]. destruct (passes_filter pf (snd e')) eqn:Ep; [|elim H].
    apply in_map_iff in H. destruct H as [t' [[= <- <-] Ht]]. auto.
  - intros [He [Hp Ht]]. exists e. split; [exact He|]. rewrite Hp.
    now apply in_map.
Qed.

Lemma score_B_values (text : pystr) (info : LocInfo) :
  score_B text info = 0 \/ score_value (score_B text info).
Proof.
  unfold score_B, base_match_B, score_value.
  destruct (negb (nonempty text)); [now left|].
  destruct (negb (existsb _ (all_variants info))); [now left|].
  destruct (re_search_word (normalized info) text); [right; now left|].
  destruct (nonempty (no_prefix info) && re_search_word (no_prefix info) text);
    [right; right; now left|].
  destruct (first_alt (alt_names info) text); [right; right; now right|].
  now left.
Qed.

Lemma pair_elig_value (x : Pair) :
  pair_elig x = true -> score_value (pair_score x).
Proof.
  unfold pair_elig, pair_score. intros H.
  destruct (score_B_values (snd (snd x)) (snd (fst x))) as [E|E];
    [|exact E].
  rewrite E in H. discriminate.
Qed.




(** What [find_match] returns: a pair with a positive base score whose
    adjusted score no pair exceeds. *)
Lemma find_match_some (texts : Texts) (data : LevelData) (pf : option Z)
  (c : Candidate) :
  find_match texts data pf = Some c ->
  exists x,
    In x (pairs_B texts pf data) /\ pair_elig x = true /\ c = pair_cand x
    /\ forall y, In y (pairs_B texts pf data) -> pair_elig y = true ->
                 pair_key y <= pair_key x.
Proof.
  rewrite find_match_fold. apply best_fold_some.
Qed.

(** Every result of [find_match] has one of the three base scores, so it
    reaches [MIN_SCORE]. *)
Lemma find_match_min_score (texts : Texts) (data : LevelData)
  (pf : option Z) (c : Candidate) :
  find_match texts data pf = Some c ->
  score_value (cand_score c) /\ Qle_bool MIN_SCORE (cand_score c) = true.
Proof.
  intros H. destruct (find_match_some _ _ _ H) as [x [_ [He [-> _]]]].
  assert (Hv := pair_elig_value x He).
  change (cand_score (pair_cand x)) with (pair_score x).
  split; [exact Hv|]. destruct Hv as [-> | [-> | ->]]; reflexivity.
Qed.





(** ** Scenarios *)

(** C1.  No candidate with a score under 0.9 should be accepted at any
    level.  The department match of Strategy A is recorded without the
    comparison with [MIN_SCORE] that the other levels have: a department
    named in the details only has score 1.0 x 0.85 = 0.85 and is returned
    as a level-5 match. *)
Theorem department_below_threshold_A :
  match_listing 1001 texts_details_only groups_department
  = Some (Build_ListingMatch 1001
            (Build_MatchResult
               (Build_Chain None None None (Some D1))
               (Some 5%Z) (Some (17 # 20)) (Some details)
               (Some u"La Libertad")))
  /\ 17 # 20 < MIN_SCORE
  /\ find_best_match_in_level texts_details_only
       (groups_get groups_department 5) None
     = Some (D1, 1.0 * 0.85, u"La Libertad", details).
Proof.
  split; [vm_compute; reflexivity|]. split; reflexivity.
Qed.

(** C4.  A node without normalised name should never score.
    [find_match_in_level] skips such a node; [find_match] of Strategy B
    does not: the pattern built from the empty name is two word boundaries,
    it is found in any text with a word, and the node scores 1.0 once one
    of its alternate names lets it pass the first check. *)
Theorem nameless_node_scores_B :
  normalized nameless_row = []
  /\ find_match (title_only u"Casa en Nueva San Salvador")
       [(7%Z, nameless_row)] None
     = Some (7%Z, 1.0, [], title)
  /\ find_match_in_level (normalize_text u"Casa en Nueva San Salvador")
       [(7%Z, nameless_row)] title
     = None.
Proof.
  repeat split; vm_compute; reflexivity.
Qed.

(** A node without normalised name is never returned by the per-level
    matcher of Strategy A. *)
Lemma find_match_in_level_named (text : pystr) (data : LevelData)
  (source : Source) (i : Z) (s : Q) (m : pystr) :
  find_match_in_level text data source = Some (i, s, m) ->
  exists info, In (i, info) data /\ normalized info <> [].
Proof.
  intros H.
  destruct (find_match_in_level_some _ _ _ H) as [info [Hin [Hpos _]]].
  exists info. split; [exact Hin|]. intros Hn.
  unfold base_score in Hpos. rewrite Hn in Hpos. discriminate Hpos.
Qed.

(** C6, as amended.  On the hierarchy of the scenario Strategy B returns
    [locGroup2Id = C1], [locGroup3Id = M1], [matchLevel = 2],
    [matchScore = 1.0] and [matchSource = title]; the parent D1 of the
    municipality is recorded one level above it, as [locGroup4Id], and
    [locGroup5Id] stays null.  With a region between municipality and
    department, [locGroup5Id] is D1. *)
Theorem scenario_strategy_B :
  match_listing_with_texts texts_scenario groups_scenario
  = Build_MatchResult
      (Build_Chain (Some C1) (Some M1) (Some D1) None)
      (Some 2%Z) (Some 1) (Some title) (Some u"San Francisco")
  /\ match_listing_with_texts texts_scenario groups_scenario_region
     = Build_MatchResult
         (Build_Chain (Some C1) (Some M1) (Some R1) (Some D1))
         (Some 2%Z) (Some 1) (Some title) (Some u"San Francisco").
Proof.
  split; vm_compute; reflexivity.
Qed.

(** C6, as stated, fails: the department is not in [locGroup5Id]. *)
Lemma scenario_department_not_at_level_5 :
  locGroup5Id (chain (match_listing_with_texts texts_scenario groups_scenario))
  <> Some D1.
Proof.
  vm_compute. discriminate.
Qed.

(** ** Word-boundary search *)

Section WordSearch.

Lemma strip_prefix_complete (p r : pystr) : strip_prefix p (p ++ r) = Some r.
Proof.
  induction p as [|a p IH]; simpl; [reflexivity|].
  now rewrite N.eqb_refl.
Qed.

Lemma last_cons (c d : N) (s : pystr) : last (c :: s) d = last s c.
Proof.
  revert c d; induction s as [|e s IH]; intros c d; [reflexivity|].
  change (last (c :: e :: s) d) with (last (e :: s) d).
  now rewrite !IH.
Qed.

Lemma last_after_cons (prev : option N) (c : N) (s : pystr) :
  last_after prev (c :: s) = last_after (Some c) s.
Proof.
  destruct s as [|d s]; [reflexivity|].
  simpl last_after. f_equal. apply last_cons.
Qed.

Lemma last_after_app (prev : option N) (s t : pystr) :
  last_after prev (s ++ t) = last_after (last_after prev s) t.
Proof.
  revert prev; induction s as [|c s IH]; intros prev; [reflexivity|].
  change ((c :: s) ++ t) with (c :: (s ++ t)).
  rewrite !last_after_cons. apply IH.
Qed.

Lemma match_here_spec (prev : option N) (pat s : pystr) :
  match_here prev pat s = true <->
  exists post,
    s = pat ++ post
    /\ boundary prev (hd_error (pat ++ post)) = true
    /\ boundary (last_after prev pat) (hd_error post) = true.
Proof.
  unfold match_here. split.
  - destruct (strip_prefix pat s) as [rest|] eqn:E; [|discriminate].
    apply strip_prefix_app in E. subst s. intros H.
    apply andb_true_iff in H. exists rest. tauto.
  - intros [post [-> [H1 H2]]]. rewrite strip_prefix_complete.
    now rewrite H1, H2.
Qed.

Lemma search_from_spec (prev : option N) (pat s : pystr) :
  search_from prev pat s = true <->
  exists pre post,
    s = pre ++ pat ++ post
    /\ boundary (last_after prev pre) (hd_error (pat ++ post)) = true
    /\ boundary (last_after (last_after prev pre) pat) (hd_error post) = true.
Proof.
  revert prev; induction s as [|c r IH]; intros prev; simpl.
  - rewrite orb_false_r, match_here_spec. split.
    + intros [post H]. exists [], post. exact H.
    + intros [pre [post [Hs H]]].
      destruct pre as [|d pre]; [|discriminate Hs].
      exists post. split; [exact Hs | exact H].
  - rewrite orb_true_iff, match_here_spec, IH. split.
    + intros [[post H]|[pre [post [Hs H]]]].
      * exists [], post. exact H.
      * exists (c :: pre), post. rewrite last_after_cons. simpl.
        split; [now rewrite Hs | exact H].
    + intros [pre [post [Hs H]]]. destruct pre as [|d pre].
      * left. exists post. split; [exact Hs | exact H].
      * right. simpl in Hs. injection Hs as -> Hs.
        exists pre, post. rewrite last_after_cons in H.
        split; [exact Hs | exact H].
Qed.

(** The search finds the pattern exactly when it occurs between two word
    boundaries. *)
Lemma re_search_word_spec (pat text : pystr) :
  re_search_word pat text = true <-> occurs_as_word pat text.
Proof.
  unfold re_search_word, occurs_as_word. rewrite search_from_spec.
  split; intros [pre [post [Hs [H1 H2]]]]; exists pre, post;
    (split; [exact Hs|]); (split; [exact H1|]).
  - now rewrite last_after_app.
  - now rewrite <- last_after_app.
Qed.

End WordSearch.

(** ** The chain of a matched node *)

Section ChainSelf.

Variable groups : Groups.

(** The walk writes at the level it is at and above, never below. *)
Lemma chain_loop_lower (fuel : nat) (i level : Z) (c r : Chain) :
  (2 <= level)%Z ->
  chain_loop fuel groups i level c = Some r ->
  forall l, (l < level)%Z -> get_level l r = get_level l c.
Proof.
  revert i level c; induction fuel as [|fuel IH]; intros i level c Hl;
    rewrite chain_loop_eq; destruct (Z.leb_spec level 5) as [H5|H5]; simpl;
    try discriminate; try (intros [= ->]; reflexivity).
  assert (Hset : forall l, (l < level)%Z ->
                   get_level l (set_level level i c) = get_level l c).
  { intros l Hlt. rewrite get_set_level by lia.
    destruct (Z.eqb_spec l level); [lia|reflexivity]. }
  destruct (level =? 5)%Z; [intros [= <-]; exact Hset|].
  destruct (lookup i (groups_get groups level)) as [info|];
    [|intros [= <-]; exact Hset].
  destruct (truthy (parent_id info)); [|intros [= <-]; exact Hset].
  destruct (parent_id info) as [p|]; [|intros [= <-]; exact Hset].
  intros H l Hlt.
  rewrite (@IH p (level + 1)%Z (set_level level i c) ltac:(lia) H l
             ltac:(lia)).
  now apply Hset.
Qed.

(** The chain of a node has the node at its own level. *)
Lemma get_parent_chain_self (i L : Z) :
  (2 <= L <= 5)%Z -> get_level L (get_parent_chain i L groups) = Some i.
Proof.
  intros HL. unfold get_parent_chain.
  assert (Hne := @chain_loop_enough groups (Z.to_nat (6 - L)) i L empty_chain
                   ltac:(lia)).
  destruct (chain_loop (Z.to_nat (6 - L)) groups i L empty_chain)
    as [r|] eqn:E; [clear Hne|now elim Hne].
  destruct (Z.to_nat (6 - L)) as [|fuel] eqn:Ef; [lia|].
  rewrite chain_loop_eq in E.
  destruct (Z.leb_spec L 5) as [_|H5]; [simpl in E|lia].
  assert (Hset : get_level L (set_level L i empty_chain) = Some i).
  { rewrite get_set_level by lia. now rewrite Z.eqb_refl. }
  destruct (L =? 5)%Z; [injection E as <-; exact Hset|].
  destruct (lookup i (groups_get groups L)) as [info|];
    [|injection E as <-; exact Hset].
  destruct (truthy (parent_id info)); [|injection E as <-; exact Hset].
  destruct (parent_id info) as [p|]; [|injection E as <-; exact Hset].
  rewrite (@chain_loop_lower fuel p (L + 1)%Z _ r ltac:(lia) E L ltac:(lia)).
  exact Hset.
Qed.

End ChainSelf.

(** ** Strategy B *)

(** When the global search of level 3 finds a municipality, the result is
    that municipality or a colonia under it, with the chain of the
    municipality; the search of level 5 is not consulted. *)
Lemma strategy_B_level3_first (texts : Texts) (groups : Groups)
  (l3 : Candidate) :
  find_match texts (groups_get groups 3) None = Some l3 ->
  let r := match_listing_with_texts texts groups in
  locGroup3Id (chain r) = Some (cand_id l3)
  /\ (matchLevel r = Some 3%Z \/ matchLevel r = Some 2%Z)
  /\ locGroup4Id (chain r)
     = locGroup4Id (get_parent_chain (cand_id l3) 3 groups)
  /\ locGroup5Id (chain r)
     = locGroup5Id (get_parent_chain (cand_id l3) 3 groups).
Proof.
  intros H. cbv zeta. unfold match_listing_with_texts. cbv zeta.
  rewrite H. rewrite (proj2 (find_match_min_score _ _ _ H)).
  assert (H3 : locGroup3Id (get_parent_chain (cand_id l3) 3 groups)
               = Some (cand_id l3)).
  { change (locGroup3Id (get_parent_chain (cand_id l3) 3 groups))
      with (get_level 3 (get_parent_chain (cand_id l3) 3 groups)).
    apply get_parent_chain_self. lia. }
  destruct (find_match texts (groups_get groups 2) (Some (cand_id l3)))
    as [l2|] eqn:E2.
  - rewrite (proj2 (find_match_min_score _ _ _ E2)). simpl.
    repeat split; auto.
  - simpl. repeat split; auto.
Qed.

(** C3, as amended.  The word-boundary search finds a name exactly when it
    occurs with a word boundary on each side.  That keeps a name from
    matching inside a longer word ("colon" is not found in "colonia
    escalon"), not inside a longer phrase: "cuscatlan" is found in
    "antiguo cuscatlan".  Strategy B keeps the department Cuscatlán out of
    such a listing by searching level 3 first: when that search finds a
    municipality the result has it as [locGroup3Id], at level 3 or 2, with
    the upper levels of its own chain, and level 5 is not searched. *)
Theorem word_boundary_and_level3_first :
  (forall pat text, re_search_word pat text = true <-> occurs_as_word pat text)
  /\ re_search_word u"colon" u"colonia escalon" = false
  /\ re_search_word u"cuscatlan" u"antiguo cuscatlan" = true
  /\ (forall texts groups l3,
        find_match texts (groups_get groups 3) None = Some l3 ->
        let r := match_listing_with_texts texts groups in
        locGroup3Id (chain r) = Some (cand_id l3)
        /\ (matchLevel r = Some 3%Z \/ matchLevel r = Some 2%Z)
        /\ locGroup4Id (chain r)
           = locGroup4Id (get_parent_chain (cand_id l3) 3 groups)
        /\ locGroup5Id (chain r)
           = locGroup5Id (get_parent_chain (cand_id l3) 3 groups))
  /\ match_listing_with_texts (title_only u"Casa en Antiguo Cuscatlán")
       groups_cuscatlan
     = Build_MatchResult
         (Build_Chain None (Some M1) (Some R1) (Some D1))
         (Some 3%Z) (Some 1) (Some title) (Some u"Antiguo Cuscatlán").
Proof.
  split; [exact re_search_word_spec|].
  split; [vm_compute; reflexivity|].
  split; [vm_compute; reflexivity|].
  split; [exact strategy_B_level3_first|].
  vm_compute. reflexivity.
Qed.

Lemma word_boundary_and_level3_first_witness :
  find_match (title_only u"Casa en Antiguo Cuscatlán")
    (groups_get groups_cuscatlan 3) None
  = Some (M1, 1.0, u"Antiguo Cuscatlán", title)
  /\ locGroup3Id
       (chain (match_listing_with_texts
                 (title_only u"Casa en Antiguo Cuscatlán") groups_cuscatlan))
     = Some M1.
Proof.
  assert (H : find_match (title_only u"Casa en Antiguo Cuscatlán")
                (groups_get groups_cuscatlan 3) None
              = Some (M1, 1.0, u"Antiguo Cuscatlán", title))
    by (vm_compute; reflexivity).
  split; [exact H|].
  exact (proj1 (proj1 (proj2 (proj2 (proj2 word_boundary_and_level3_first)))
                  _ _ _ H)).
Defined.

(** C3, as stated, fails: the name of the department Cuscatlán is a whole
    word of the text "antiguo cuscatlan", the word-boundary search finds it
    there, and the search of level 5 returns the department with score
    1.0. *)
Lemma department_matches_inside_phrase :
  re_search_word (normalized (node u"Cuscatlán" [] None))
    u"antiguo cuscatlan" = true
  /\ find_match (title_only u"antiguo cuscatlan")
       (groups_get groups_cuscatlan 5) None
     = Some (507%Z, 1.0, u"Cuscatlán", title).
Proof.
  split; vm_compute; reflexivity.
Qed.

Section ResultsB.

Variables (texts : Texts) (groups : Groups).

(** The three scores that are rounded as their doubles. *)
Lemma round2_ties :
  round2 (0.9 * 0.85) == 0.77 /\ round2 (0.9 * 0.75) == 0.68
  /\ round2 (0.9 * 0.95 + 0.01) == 0.86.
Proof. repeat split; vm_compute; reflexivity. Qed.

Lemma round2_value (a : Q) : score_value a -> MIN_SCORE <= round2 a.
Proof.
  intros [-> | [-> | ->]]; vm_compute; discriminate.
Qed.

Lemma record_match_records (r : MatchResult) (l : Z) (c : Candidate) :
  (2 <= l <= 5)%Z ->
  get_level l (chain r) = Some (cand_id c) ->
  score_value (cand_score c) ->
  records_match (record_match r l c).
Proof.
  intros Hl Hc Hv. exists l, (cand_id c), (round2 (cand_score c)).
  repeat split; try assumption; try lia. now apply round2_value.
Qed.

Lemma visit_lower_B_inv (l5_id : Z) (levels : list Z) (st : LowerB) :
  Forall (fun l => 2 <= l <= 4)%Z levels ->
  match fst st with
  | Some (c, l) => (2 <= l <= 4)%Z /\ score_value (cand_score c)
  | None => True
  end ->
  match fst (fold_left (visit_lower_B texts groups l5_id) levels st) with
  | Some (c, l) => (2 <= l <= 4)%Z /\ score_value (cand_score c)
  | None => True
  end.
Proof.
  intros Hl. revert st; induction Hl as [|l levels Hr _ IH]; intros st Hst;
    simpl; [exact Hst|].
  apply IH. unfold visit_lower_B.
  destruct (get_ids_under_department groups l l5_id); [exact Hst|].
  destruct (find_match texts _ None) as [c|] eqn:E; [|exact Hst].
  destruct (Qle_bool MIN_SCORE (cand_score c) && (l <? snd st)%Z);
    [|exact Hst].
  simpl. split; [exact Hr|]. exact (proj1 (find_match_min_score _ _ _ E)).
Qed.

Lemma scope_levels : Forall (fun l => 2 <= l <= 4)%Z [2; 3; 4]%Z.
Proof. repeat constructor; lia. Qed.

(** Strategy B returns the empty result when its three global searches
    find nothing, and a result that records a match otherwise. *)
Lemma strategy_B_result :
  let r := match_listing_with_texts texts groups in
  (find_match texts (groups_get groups 3) None = None
   /\ find_match texts (groups_get groups 5) None = None
   /\ find_match texts (groups_get groups 2) None = None
   /\ r = empty_result)
  \/ ((find_match texts (groups_get groups 3) None <> None
       \/ find_match texts (groups_get groups 5) None <> None
       \/ find_match texts (groups_get groups 2) None <> None)
      /\ records_match r).
Proof.
  cbv zeta. unfold match_listing_with_texts. cbv zeta.
  destruct (find_match texts (groups_get groups 3) None) as [l3|] eqn:E3.
  - right. split; [left; discriminate|].
    destruct (find_match_min_score _ _ _ E3) as [Hv3 ->].
    destruct (find_match texts (groups_get groups 2) (Some (cand_id l3)))
      as [l2|] eqn:E2.
    + destruct (find_match_min_score _ _ _ E2) as [Hv2 ->].
      apply record_match_records; [lia| |exact Hv2].
      simpl. apply get_set_level. lia.
    + apply record_match_records; [lia| |exact Hv3].
      simpl. apply get_parent_chain_self. lia.
  - destruct (find_match texts (groups_get groups 5) None) as [l5|] eqn:E5.
    + right. split; [right; left; discriminate|].
      destruct (find_match_min_score _ _ _ E5) as [Hv5 _].
      assert (Hinv := @visit_lower_B_inv (cand_id l5) [2; 3; 4]%Z
                        (None, 5%Z) scope_levels I).
      destruct (fst (fold_left (visit_lower_B texts groups (cand_id l5))
                               [2; 3; 4]%Z (None, 5%Z))) as [[c l]|].
      * destruct Hinv as [Hl Hv].
        apply record_match_records; [lia| |exact Hv].
        simpl. apply get_parent_chain_self. lia.
      * apply record_match_records; [lia| |exact Hv5]. reflexivity.
    + destruct (find_match texts (groups_get groups 2) None) as [l2|] eqn:E2.
      * right. split; [right; right; discriminate|].
        destruct (find_match_min_score _ _ _ E2) as [Hv2 ->].
        apply record_match_records; [lia| |exact Hv2].
        simpl. apply get_parent_chain_self. lia.
      * left. repeat split; reflexivity.
Qed.

End ResultsB.

(** ** Strategy A *)

Lemma below_min_score (s : Q) : s < MIN_SCORE -> Qle_bool MIN_SCORE s = false.
Proof.
  intros H. destruct (Qle_bool MIN_SCORE s) eqn:E; [|reflexivity].
  apply Qle_bool_iff in E. exfalso. exact (Qlt_not_le _ _ H E).
Qed.

(** Strategy A returns [None] when no department is found and neither
    global search reaches the threshold. *)
Lemma match_listing_none (ext : Z) (texts : Texts) (groups : Groups) :
  find_best_match_in_level texts (groups_get groups 5) None = None ->
  (forall c, find_best_match_in_level texts (groups_get groups 3) None
             = Some c -> cand_score c < MIN_SCORE) ->
  (forall c, find_best_match_in_level texts (groups_get groups 2) None
             = Some c -> cand_score c < MIN_SCORE) ->
  match_listing ext texts groups = None.
Proof.
  intros H5 H3 H2. unfold match_listing, match_texts_A. cbv zeta.
  rewrite H5.
  assert (Hl2 :
    match find_best_match_in_level texts (groups_get groups 2) None with
    | Some l2 =>
      if Qle_bool MIN_SCORE (cand_score l2)
      then Some (record_match
                   (with_chain empty_result
                      (get_parent_chain (cand_id l2) 2 groups)) 2 l2)
      else None
    | None => None
    end = None).
  { destruct (find_best_match_in_level texts (groups_get groups 2) None)
      as [l2|]; [|reflexivity].
    now rewrite (below_min_score (H2 l2 eq_refl)). }
  destruct (find_best_match_in_level texts (groups_get groups 3) None)
    as [l3|].
  - rewrite (below_min_score (H3 l3 eq_refl)). now rewrite Hl2.
  - now rewrite Hl2.
Qed.

(** What Strategy A returns, when it returns a result, records a level. *)
Lemma match_listing_some (ext : Z) (texts : Texts) (groups : Groups)
  (r : ListingMatch) :
  match_listing ext texts groups = Some r ->
  externalId r = ext /\ matchLevel (fields r) <> None.
Proof.
  unfold match_listing. destruct (match_texts_A texts groups) as [m|] eqn:E;
    [|discriminate].
  intros [= <-]. split; [reflexivity|]. simpl.
  revert E. unfold match_texts_A. cbv zeta.
  destruct (find_best_match_in_level texts (groups_get groups 5) None)
    as [l5|].
  - destruct (fold_left _ _ _) as [[bl bll] bs].
    destruct bl; intros [= <-]; discriminate.
  - destruct (find_best_match_in_level texts (groups_get groups 3) None)
      as [l3|];
      [destruct (Qle_bool MIN_SCORE (cand_score l3))|];
      try (destruct (find_best_match_in_level texts (groups_get groups 2)
                       (Some (cand_id l3))) as [l2'|];
           [destruct (Qle_bool MIN_SCORE (cand_score l2'))|];
           intros [= <-]; discriminate);
      destruct (find_best_match_in_level texts (groups_get groups 2) None)
        as [l2|];
      try destruct (Qle_bool MIN_SCORE (cand_score l2));
      intros [= <-]; discriminate.
Qed.

Lemma records_match_not_empty (r : MatchResult) :
  records_match r -> r <> empty_result.
Proof.
  intros [l [i [s [_ [Hl _]]]]] ->. discriminate Hl.
Qed.

(** C8, as amended.  Strategy B ([match_listing_with_texts]) returns a
    MatchResult for every listing and every index: the one with all fields
    null exactly when its searches of levels 3, 5 and 2 find nothing, and
    otherwise one with [matchLevel], the id of that level and a
    [matchScore] of at least 0.9, which differs from the all-null one.
    Strategy A ([match_listing]) returns [None], not an all-null
    MatchResult, when it finds no department and nothing that reaches the
    threshold at levels 3 and 2; a result it does return has
    [matchLevel] set. *)
Theorem no_match_results :
  (forall texts groups,
      let r := match_listing_with_texts texts groups in
      (r = empty_result <->
       find_match texts (groups_get groups 3) None = None
       /\ find_match texts (groups_get groups 5) None = None
       /\ find_match texts (groups_get groups 2) None = None)
      /\ (r = empty_result \/ records_match r))
  /\ (forall r, records_match r -> r <> empty_result)
  /\ (forall ext texts groups,
        find_best_match_in_level texts (groups_get groups 5) None = None ->
        (forall c, find_best_match_in_level texts (groups_get groups 3) None
                   = Some c -> cand_score c < MIN_SCORE) ->
        (forall c, find_best_match_in_level texts (groups_get groups 2) None
                   = Some c -> cand_score c < MIN_SCORE) ->
        match_listing ext texts groups = None)
  /\ (forall ext texts groups r,
        match_listing ext texts groups = Some r ->
        externalId r = ext /\ matchLevel (fields r) <> None).
Proof.
  split; [|split; [exact records_match_not_empty|
                   split; [exact match_listing_none
                          |exact match_listing_some]]].
  intros texts groups. cbv zeta.
  destruct (strategy_B_result texts groups) as [[H3 [H5 [H2 Hr]]]|[Hf Hr]].
  - split; [|now left]. split; [auto|intros _; exact Hr].
  - split; [|now right]. split.
    + intros He. elim (records_match_not_empty Hr He).
    + intros [H3 [H5 H2]]. destruct Hf as [Hf|[Hf|Hf]]; now elim Hf.
Qed.

Lemma no_match_results_witness :
  match_listing 1001 (title_only u"Casa en venta") groups_scenario = None
  /\ match_listing_with_texts (title_only u"Casa en venta") groups_scenario
     = empty_result.
Proof.
  split.
  - apply (proj1 (proj2 (proj2 no_match_results))).
    + vm_compute. reflexivity.
    + intros c H. vm_compute in H. discriminate H.
    + intros c H. vm_compute in H. discriminate H.
  - apply (proj2 (proj1 (proj1 no_match_results
                             (title_only u"Casa en venta")
                             groups_scenario))).
    repeat split; vm_compute; reflexivity.
Defined.

(** C8, as stated, fails for Strategy A: for a listing that names no place
    of the index [match_listing] returns [None], not a MatchResult. *)
Lemma match_listing_returns_none :
  ~ (forall ext texts groups, match_listing ext texts groups <> None).
Proof.
  intros H.
  apply (H 1001%Z (title_only u"Casa en venta") groups_scenario).
  vm_compute. reflexivity.
Qed.

(** * Further properties of the matching engine *)

(** ** Text normalisation *)

Section Blank.

Lemma lstrip_blank (s : pystr) :
  Forall (fun c => Unicode.is_space c = true) s -> lstrip s = [].
Proof.
  induction 1 as [|c r Hc _ IH]; simpl; [reflexivity|].
  now rewrite Hc.
Qed.

Lemma strip_blank (s : pystr) :
  Forall (fun c => Unicode.is_space c = true) s -> strip s = [].
Proof.
  intros H. unfold strip. now rewrite (@lstrip_blank s H).
Qed.

Lemma lstrip_app_last (s : pystr) (c : N) :
  Unicode.is_space c = false -> lstrip (s ++ [c]) = lstrip s ++ [c].
Proof.
  intros Hc. induction s as [|d r IH]; simpl.
  - now rewrite Hc.
  - destruct (Unicode.is_space d); [exact IH | reflexivity].
Qed.

Lemma strip_ends_nonspace (s : pystr) :
  ends_nonspace s = true -> strip s = lstrip s.
Proof.
  unfold ends_nonspace. intros H.
  destruct (rev s) as [|c r] eqn:E; [discriminate|].
  apply negb_true_iff in H.
  assert (Hs : s = rev r ++ [c]).
  { rewrite <- (rev_involutive s), E. reflexivity. }
  unfold strip. rewrite Hs, (@lstrip_app_last (rev r) c H), rev_app_distr. simpl.
  rewrite H. simpl. now rewrite rev_involutive.
Qed.

Lemma spaces_fixed :
  forallb (fun c => implb (Unicode.is_space c) (fixed_char c)) repertoire = true.
Proof. vm_compute. reflexivity. Qed.

End Blank.

(** Checked on each character of the repertoire: lowercasing and
    decomposition do not lead out of the repertoire. *)
Lemma repertoire_closed :
  forallb
    (fun c => forallb Unicode.in_repertoire
                      (Unicode.decomp (Unicode.lower_char c)))
    repertoire = true.
Proof. vm_compute. reflexivity. Qed.

Lemma normalize_text_in_repertoire (text : pystr) (d : N) :
  in_repertoire_text text -> In d (normalize_text text) ->
  Unicode.in_repertoire d = true.
Proof.
  intros Hs Hd. destruct text as [|c0 r0]; [destruct Hd|].
  remember (c0 :: r0) as s eqn:Es. unfold normalize_text in Hd.
  rewrite Es in Hd. rewrite <- Es in Hd.
  apply strip_incl in Hd. unfold drop_marks in Hd.
  apply filter_In in Hd. destruct Hd as [Hd _].
  unfold Unicode.nfd in Hd.
  apply (proj1 (canonical_order_in _ _)) in Hd.
  apply in_flat_map in Hd. destruct Hd as [c' [Hc' Hd]].
  unfold Unicode.lower in Hc'. apply in_map_iff in Hc'.
  destruct Hc' as [c [<- Hc]].
  unfold in_repertoire_text in Hs. rewrite Forall_forall in Hs.
  assert (Hl := @in_repertoire_listed c (Hs _ Hc)).
  assert (Hp := repertoire_closed). rewrite forallb_forall in Hp.
  specialize (Hp _ Hl). rewrite forallb_forall in Hp.
  exact (Hp _ Hd).
Qed.

(** X1. The normalised form of a text of the repertoire (Basic Latin,
    Latin-1 Supplement, Combining Diacritical Marks) is clean: each of its
    characters is again in the repertoire, is no combining mark of category
    Mn, no uppercase letter ([str.lower] leaves it as it is) and no
    accented letter (it is its own canonical decomposition).  Whatever the
    text, its normalised form neither starts nor ends with a whitespace
    character. *)
Theorem normalize_text_clean :
  (forall text,
      in_repertoire_text text ->
      forall c,
        In c (normalize_text text) ->
        Unicode.in_repertoire c = true
        /\ Unicode.is_Mn c = false
        /\ Unicode.lower_char c = c
        /\ Unicode.decomp c = [c])
  /\ (forall text c r,
        normalize_text text = c :: r -> Unicode.is_space c = false)
  /\ (forall text c r,
        rev (normalize_text text) = c :: r -> Unicode.is_space c = false).
Proof.
  split; [|split].
  - intros text Hrep c Hc.
    split; [exact (@normalize_text_in_repertoire text c Hrep Hc)|].
    pose proof (@normalize_text_fixed text Hrep) as Hfix.
    rewrite Forall_forall in Hfix.
    destruct (@fixed_char_spec c (Hfix c Hc)) as [Hl [Hd [_ Hm]]].
    split; [exact Hm | split; [exact Hl | exact Hd]].
  - intros text c r H.
    destruct (normalize_text_stripped text) as [x Hx].
    rewrite Hx in H. exact (strip_head _ H).
  - intros text c r H.
    destruct (normalize_text_stripped text) as [x Hx].
    rewrite Hx in H. exact (strip_last _ H).
Qed.

Lemma normalize_text_clean_witness :
  in_repertoire_text u"  Cantón El Ángel "
  /\ normalize_text u"  Cantón El Ángel " = u"canton el angel"
  /\ (Unicode.in_repertoire 97 = true /\ Unicode.is_Mn 97 = false
      /\ Unicode.lower_char 97 = 97%N /\ Unicode.decomp 97 = [97%N])
  /\ Unicode.is_space 99 = false.
Proof.
  assert (Hrep : in_repertoire_text u"  Cantón El Ángel ").
  { repeat constructor. }
  assert (E : normalize_text u"  Cantón El Ángel " = u"canton el angel").
  { vm_compute. reflexivity. }
  split; [exact Hrep|]. split; [exact E|].
  destruct normalize_text_clean as [H1 [H2 _]].
  split.
  - apply (H1 u"  Cantón El Ángel " Hrep 97%N). rewrite E.
    right. left. vm_compute. reflexivity.
  - apply (H2 u"  Cantón El Ángel " 99%N u"anton el angel"). rewrite E.
    vm_compute. reflexivity.
Defined.

(** X2. A text of the repertoire that holds whitespace only is normalised
    to the empty string, like the empty text. *)
Theorem normalize_text_blank (text : pystr) :
  in_repertoire_text text ->
  Forall (fun c => Unicode.is_space c = true) text ->
  normalize_text text = [].
Proof.
  intros Hrep Hsp. destruct text as [|a t] eqn:E; [reflexivity|].
  rewrite <- E in *. 
  assert (Hfix : Forall (fun c => fixed_char c = true) text).
  { apply Forall_forall. intros c Hc.
    pose proof (proj1 (Forall_forall _ _) Hrep c Hc) as Hr.
    pose proof (proj1 (Forall_forall _ _) Hsp c Hc) as Hs.
    pose proof spaces_fixed as Hall.
    rewrite forallb_forall in Hall.
    specialize (Hall c (@in_repertoire_listed c Hr)).
    rewrite Hs in Hall. exact Hall. }
  assert (Hn : normalize_text text
               = strip (drop_marks (Unicode.nfd (Unicode.lower text)))).
  { rewrite E. reflexivity. }
  rewrite Hn, (@fixed_text text Hfix). now apply strip_blank.
Qed.

Lemma normalize_text_blank_witness :
  in_repertoire_text [32; 9; 160; 10]%N
  /\ Forall (fun c => Unicode.is_space c = true) [32; 9; 160; 10]%N
  /\ normalize_text [32; 9; 160; 10]%N = [].
Proof.
  assert (H1 : in_repertoire_text [32; 9; 160; 10]%N).
  { repeat constructor. }
  assert (H2 : Forall (fun c => Unicode.is_space c = true) [32; 9; 160; 10]%N).
  { repeat constructor. }
  split; [exact H1 | split; [exact H2 |]].
  exact (normalize_text_blank H1 H2).
Defined.

(** ** Prefix removal *)

Lemma strip_loop_suffix (fuel : nat) (s r : pystr) :
  strip_loop fuel s = Some r -> exists pre, s = pre ++ r.
Proof.
  revert s. induction fuel as [|fuel IH]; intros s; rewrite strip_loop_eq.
  - destruct (strip_first prefixes s) eqn:E; [discriminate|].
    intros H. injection H as <-. now exists [].
  - destruct (strip_first prefixes s) as [t|] eqn:E.
    + intros H. destruct (IH _ H) as [pre Hpre].
      destruct (strip_first_app _ _ E) as [p [_ Hp]].
      exists (p ++ pre). now rewrite Hp, Hpre, app_assoc.
    + intros H. injection H as <-. now exists [].
Qed.

(** X3. [remove_location_prefixes] only removes from the front: its result
    is the end of the normalised text, and it neither starts nor ends with a
    whitespace character. *)
Theorem remove_location_prefixes_suffix (text : pystr) :
  (exists removed,
      normalize_text text = removed ++ remove_location_prefixes text)
  /\ (forall c r, remove_location_prefixes text = c :: r ->
                  Unicode.is_space c = false)
  /\ (forall c r, rev (remove_location_prefixes text) = c :: r ->
                  Unicode.is_space c = false).
Proof.
  unfold remove_location_prefixes.
  destruct (@strip_loop_total (List.length (normalize_text text))
              (normalize_text text) (le_n _)) as [r [Hr _]].
  rewrite Hr. split; [|split].
  - destruct (strip_loop_suffix _ _ Hr) as [pre Hpre].
    destruct (normalize_text text) as [|a t] eqn:E.
    + destruct pre; [|discriminate]. destruct r; [|discriminate].
      now exists [].
    + assert (He : ends_nonspace (normalize_text text) = true).
      { apply normalize_text_ends. rewrite E. discriminate. }
      rewrite E in He.
      pose proof (strip_loop_ends _ _ Hr He) as Her.
      rewrite (strip_ends_nonspace _ Her).
      destruct (lstrip_split r) as [sp [Hsp _]].
      exists (pre ++ sp). rewrite <- app_assoc, <- Hsp. exact Hpre.
  - intros c q H. exact (strip_head _ H).
  - intros c q H. exact (strip_last _ H).
Qed.

Lemma remove_location_prefixes_suffix_witness :
  (exists removed,
      normalize_text u"Colonia La Cima 1"
      = removed ++ remove_location_prefixes u"Colonia La Cima 1")
  /\ Unicode.is_space 99 = false.
Proof.
  destruct (remove_location_prefixes_suffix u"Colonia La Cima 1")
    as [H1 [H2 _]].
  split; [exact H1|].
  apply (H2 99%N u"ima 1"). vm_compute. reflexivity.
Defined.

(** ** The per-level matcher of Strategy A *)

Section LevelMatcher.

Lemma contains_empty_text (p : pystr) : nonempty p && contains p [] = false.
Proof. destruct p; reflexivity. Qed.

Lemma base_score_empty_text (info : LocInfo) : base_score [] info = 0.
Proof.
  unfold base_score.
  destruct (nonempty (normalized info)) eqn:Hn; [simpl | reflexivity].
  assert (Hq : quick_check [] info = false).
  { unfold quick_check. apply orb_false_iff. split.
    - pose proof (contains_empty_text (normalized info)) as H.
      rewrite Hn in H. exact H.
    - induction (alt_names info) as [|a r IH]; [reflexivity|].
      simpl. now rewrite contains_empty_text. }
  now rewrite Hq.
Qed.

Lemma base_match_values (text : pystr) (info : LocInfo) :
  fst (base_match text info) = 0 \/ score_value (fst (base_match text info)).
Proof.
  unfold base_match, score_value.
  destruct (re_search_word (normalized info) text); [right; now left|].
  destruct (nonempty (no_prefix info) && re_search_word (no_prefix info) text);
    [right; right; now left|].
  destruct (first_alt (alt_names info) text); [right; right; now right|].
  now left.
Qed.

Lemma base_score_values (text : pystr) (info : LocInfo) :
  base_score text info = 0 \/ score_value (base_score text info).
Proof.
  unfold base_score.
  destruct (negb (nonempty (normalized info))); [now left|].
  destruct (negb (quick_check text info)); [now left|].
  apply base_match_values.
Qed.

Lemma base_score_le_1 (text : pystr) (info : LocInfo) :
  base_score text info <= 1.
Proof.
  destruct (base_score_values text info) as [H | [H | [H | H]]];
    rewrite H; vm_compute; discriminate.
Qed.

Lemma base_score_checked (text : pystr) (info : LocInfo) :
  0 < base_score text info ->
  normalized info <> [] /\ quick_check text info = true.
Proof.
  unfold base_score. intros H.
  destruct (normalized info) as [|a r] eqn:Hn; simpl in H.
  - now apply Qlt_irrefl in H.
  - split; [discriminate|].
    destruct (quick_check text info); [reflexivity|].
    simpl in H. now apply Qlt_irrefl in H.
Qed.

Lemma find_match_in_level_found (text : pystr) (data : LevelData)
  (source : Source) (e : Z * LocInfo) :
  In e data -> 0 < base_score text (snd e) ->
  exists cand, find_match_in_level text data source = Some cand.
Proof.
  intros Hin Hpos. rewrite find_match_in_level_fold.
  destruct text as [|a t].
  - rewrite base_score_empty_text in Hpos. now apply Qlt_irrefl in Hpos.
  - simpl. apply best_fold_found with (y := e).
    + intros x Hx. now apply level_key_pos.
    + exact Hin.
    + unfold level_elig. now apply Qltb_lt.
Qed.

End LevelMatcher.

(** X4. [find_match_in_level] only returns a node that passed its quick
    check: the node has a non-empty normalised name, and either that whole
    name is a substring of the text or one of its non-empty alternate names
    is.  A node whose prefix-stripped name alone occurs in the text is never
    returned. *)
Theorem find_match_in_level_quick_check (text : pystr) (data : LevelData)
  (source : Source) (i : Z) (s : Q) (m : pystr) :
  find_match_in_level text data source = Some (i, s, m) ->
  exists info,
    In (i, info) data
    /\ normalized info <> []
    /\ (contains (normalized info) text = true
        \/ exists alt, In alt (alt_names info) /\ alt <> []
                       /\ contains alt text = true).
Proof.
  intros H. apply find_match_in_level_some in H.
  destruct H as [info [Hin [Hpos _]]].
  exists info. split; [exact Hin|].
  destruct (base_score_checked _ _ Hpos) as [Hn Hq].
  split; [exact Hn|].
  unfold quick_check in Hq. apply orb_true_iff in Hq.
  destruct Hq as [Hq | Hq]; [now left | right].
  apply existsb_exists in Hq. destruct Hq as [alt [Ha Hb]].
  apply andb_true_iff in Hb. destruct Hb as [Hb1 Hb2].
  exists alt. split; [exact Ha | split; [|exact Hb2]].
  intros ->. discriminate Hb1.
Qed.

Lemma find_match_in_level_quick_check_witness :
  exists info,
    In (501%Z, info) [(501%Z, node u"La Libertad" [] None)]
    /\ normalized info <> []
    /\ (contains (normalized info) u"casa en la libertad" = true
        \/ exists alt, In alt (alt_names info) /\ alt <> []
                       /\ contains alt u"casa en la libertad" = true).
Proof.
  apply (@find_match_in_level_quick_check u"casa en la libertad"
           [(501%Z, node u"La Libertad" [] None)] title 501%Z (1.0 * 1.0)
           u"La Libertad").
  vm_compute. reflexivity.
Defined.

(** ** The search over the four sources of Strategy A *)

Section SourceSearch.

Variables (texts : Texts) (data : LevelData) (pf : option Z).

Lemma source_match_score (source : Source) (i : Z) (s : Q) (m : pystr) :
  source_match texts data pf source = Some (i, s, m) ->
  0 < s /\ s <= source_weight source.
Proof.
  unfold source_match.
  destruct (negb (nonempty (texts_get texts source))); [discriminate|].
  intros H. apply find_match_in_level_some in H.
  destruct H as [info [_ [Hpos [Hs _]]]]. subst s. split.
  - rewrite <- (Qmult_0_l (source_weight source)).
    apply Qmult_lt_compat_r; [apply source_weight_pos | exact Hpos].
  - rewrite <- (Qmult_1_l (source_weight source)) at 2.
    apply Qmult_le_compat_r; [apply base_score_le_1|].
    apply Qlt_le_weak, source_weight_pos.
Qed.

Lemma source_key_pos (source : Source) :
  source_elig texts data pf source = true ->
  0 < source_key texts data pf source.
Proof.
  unfold source_elig, source_key.
  destruct (source_match texts data pf source) as [[[i s] m]|] eqn:E;
    [|discriminate].
  intros _. destruct (source_match_score _ E) as [Hs _].
  rewrite boosted_bonus.
  apply Qlt_le_trans with (y := s + 0); [now rewrite Qplus_0_r|].
  apply Qplus_le_r. destruct source; vm_compute; discriminate.
Qed.

Lemma source_key_bound (source : Source) :
  source_key texts data pf source
  <= source_weight source + location_bonus source.
Proof.
  unfold source_key.
  destruct (source_match texts data pf source) as [[[i s] m]|] eqn:E.
  - destruct (source_match_score _ E) as [_ Hs].
    rewrite boosted_bonus. now apply Qplus_le_l.
  - destruct source; vm_compute; discriminate.
Qed.

End SourceSearch.

(** X5. In [find_best_match_in_level] an exact match of a node's name in
    the title always wins: when some node within the parent filter has base
    score 1.0 against the title, the returned candidate comes from the
    title with score 1.0, whatever the location line, the details and the
    description match (the location line reaches 0.96 at most). *)
Theorem exact_title_match_wins (texts : Texts) (data : LevelData)
  (pf : option Z) (e : Z * LocInfo) :
  In e (filtered_level data pf) ->
  base_score (texts_get texts title) (snd e) == 1 ->
  exists c,
    find_best_match_in_level texts data pf = Some c
    /\ cand_source c = title /\ cand_score c == 1.
Proof.
  intros Hin H1.
  assert (Hpos : 0 < base_score (texts_get texts title) (snd e)).
  { rewrite H1. reflexivity. }
  assert (Hne : nonempty (texts_get texts title) = true).
  { destruct (texts_get texts title); [|reflexivity].
    rewrite base_score_empty_text in Hpos. now apply Qlt_irrefl in Hpos. }
  destruct (@find_match_in_level_found (texts_get texts title)
              (filtered_level data pf) title e Hin Hpos) as [[[i s] m] Hf].
  assert (Hs : s == 1).
  { destruct (find_match_in_level_some _ _ _ Hf)
      as [info [_ [_ [Hs [_ Hmax]]]]].
    apply Qle_antisym.
    - rewrite Hs. rewrite <- (Qmult_1_r 1).
      apply Qle_trans with (y := 1 * source_weight title).
      + apply Qmult_le_compat_r; [apply base_score_le_1|].
        vm_compute. discriminate.
      + vm_compute. discriminate.
    - destruct e as [j info']. specialize (Hmax j info' Hin).
      simpl in H1. rewrite H1 in Hmax.
      apply Qle_trans with (y := 1 * source_weight title); [|exact Hmax].
      vm_compute. discriminate. }
  assert (Hm : source_match texts data pf title = Some (i, s, m)).
  { unfold source_match. rewrite Hne. exact Hf. }
  assert (He : source_elig texts data pf title = true).
  { unfold source_elig. now rewrite Hm. }
  assert (Hk : source_key texts data pf title == 1).
  { unfold source_key. rewrite Hm. exact Hs. }
  assert (Hsome : exists c, find_best_match_in_level texts data pf = Some c).
  { rewrite find_best_match_in_level_fold.
    apply best_fold_found with (y := title).
    - apply source_key_pos.
    - simpl. tauto.
    - exact He. }
  destruct Hsome as [c Hc]. exists c. split; [exact Hc|].
  rewrite find_best_match_in_level_fold in Hc.
  apply best_fold_some in Hc.
  destruct Hc as [x [_ [_ [Hcx Hmax]]]].
  assert (Hin_t : In title source_order) by (simpl; tauto).
  specialize (Hmax title Hin_t He). rewrite Hk in Hmax.
  pose proof (source_key_bound texts data pf x) as Hb.
  destruct x.
  - exfalso. apply (Qle_not_lt _ _ (Qle_trans _ _ _ Hmax Hb)).
    vm_compute. reflexivity.
  - subst c. unfold source_cand. rewrite Hm.
    unfold cand_source, cand_score. simpl. split; [reflexivity | exact Hs].
  - exfalso. apply (Qle_not_lt _ _ (Qle_trans _ _ _ Hmax Hb)).
    vm_compute. reflexivity.
  - exfalso. apply (Qle_not_lt _ _ (Qle_trans _ _ _ Hmax Hb)).
    vm_compute. reflexivity.
Qed.

Lemma exact_title_match_wins_witness :
  exists c,
    find_best_match_in_level
      [ (title, u"casa en santa tecla"); (location, u"santa tecla");
        (details, []); (description, []) ]
      two_municipalities None = Some c
    /\ cand_source c = title /\ cand_score c == 1.
Proof.
  apply (@exact_title_match_wins
           [ (title, u"casa en santa tecla"); (location, u"santa tecla");
             (details, []); (description, []) ]
           two_municipalities None
           (32%Z, node u"Santa Tecla" [] (Some 42%Z))).
  - simpl. right. left. reflexivity.
  - vm_compute. reflexivity.
Defined.

(** X6. With a parent filter, [find_best_match_in_level] only returns a
    node of the level whose parent id is the one given. *)
Theorem find_best_match_in_level_parent (texts : Texts) (data : LevelData)
  (p : Z) (c : Candidate) :
  find_best_match_in_level texts data (Some p) = Some c ->
  exists info, In (cand_id c, info) data /\ parent_id info = Some p.
Proof.
  intros H. apply find_best_match_in_level_some in H.
  destruct H as [s [_ [Hf _]]].
  apply find_match_in_level_some in Hf.
  destruct Hf as [info [Hin _]].
  simpl in Hin. unfold filter_parent in Hin. apply filter_In in Hin.
  destruct Hin as [Hin Hp]. exists info. split; [exact Hin|].
  simpl in Hp. destruct (parent_id info) as [q|]; [|discriminate].
  simpl in Hp. apply Z.eqb_eq in Hp. now subst q.
Qed.

Lemma find_best_match_in_level_parent_witness :
  exists info,
    In (32%Z, info) two_municipalities /\ parent_id info = Some 42%Z.
Proof.
  apply (@find_best_match_in_level_parent texts_two_sources
           two_municipalities 42%Z (32%Z, 1.0 * 0.95 + 0.01, u"Santa Tecla",
                                    location)).
  vm_compute. reflexivity.
Defined.

(** ** Listings without text *)

Lemma texts_get_empty (texts : Texts) (source : Source) :
  Forall (fun e => snd e = []) texts -> texts_get texts source = [].
Proof.
  induction 1 as [|[s t] r Ht _ IH]; [reflexivity|].
  simpl in *. subst t. destruct (Source_eqb s source); [reflexivity | exact IH].
Qed.

Lemma find_best_match_in_level_no_text (texts : Texts) (data : LevelData)
  (pf : option Z) :
  Forall (fun e => snd e = []) texts ->
  find_best_match_in_level texts data pf = None.
Proof.
  intros H. unfold find_best_match_in_level, source_order. simpl.
  unfold visit_source. now rewrite !(@texts_get_empty texts _ H).
Qed.

Lemma visit_text_B_no_text (texts : Texts) (i : Z) (info : LocInfo)
  (st : BestA) :
  Forall (fun e => snd e = []) texts ->
  fold_left (visit_text_B i info) texts st = st.
Proof.
  induction 1 as [|[s t] r Ht _ IH]; [reflexivity|].
  simpl in *. subst t. simpl. exact IH.
Qed.

Lemma find_match_no_text (texts : Texts) (data : LevelData) (pf : option Z) :
  Forall (fun e => snd e = []) texts ->
  find_match texts data pf = None.
Proof.
  intros He. unfold find_match.
  assert (H : forall st, fold_left (visit_node_B texts pf) data st = st).
  { induction data as [|[i info] r IH]; intros st; [reflexivity|].
    simpl. rewrite (@visit_text_B_no_text texts i info st He).
    destruct (truthy pf && negb (opt_eqb (parent_id info) pf)); apply IH. }
  now rewrite H.
Qed.

(** X7. A listing all of whose texts are empty matches nothing, whatever
    the hierarchy: Strategy A returns [None] and Strategy B the result with
    every field null. *)
Theorem empty_texts_no_match (ext : Z) (texts : Texts) (groups : Groups) :
  Forall (fun e => snd e = []) texts ->
  match_listing ext texts groups = None
  /\ match_listing_with_texts texts groups = empty_result.
Proof.
  intros H. split.
  - unfold match_listing, match_texts_A.
    now rewrite !(fun d p => @find_best_match_in_level_no_text texts d p H).
  - unfold match_listing_with_texts.
    now rewrite !(fun d p => @find_match_no_text texts d p H).
Qed.

Lemma empty_texts_no_match_witness :
  match_listing 1001 (title_only []) groups_scenario = None
  /\ match_listing_with_texts (title_only []) groups_scenario = empty_result.
Proof.
  apply (@empty_texts_no_match 1001%Z (title_only []) groups_scenario).
  repeat constructor.
Defined.

(** ** Walking up from the nodes under a department *)

Section Keys.

Lemma mem_In (i : Z) (ids : list Z) : mem i ids = true <-> In i ids.
Proof.
  unfold mem. rewrite existsb_exists. split.
  - intros [j [Hj He]]. apply Z.eqb_eq in He. now subst j.
  - intros H. exists i. split; [exact H | apply Z.eqb_refl].
Qed.

Lemma nodup_b_sound (ids : list Z) : nodup_b ids = true -> NoDup ids.
Proof.
  induction ids as [|i r IH]; simpl; [constructor|].
  intros H. apply andb_true_iff in H. destruct H as [Hm Hr].
  constructor; [|now apply IH].
  intros Hin. apply mem_In in Hin. rewrite Hin in Hm. discriminate.
Qed.

Lemma groups_get_in (groups : Groups) (level : Z) :
  groups_get groups level = [] \/ In (level, groups_get groups level) groups.
Proof.
  unfold groups_get.
  destruct (lookup level groups) as [d|] eqn:E; [right | now left].
  now apply lookup_in.
Qed.

Lemma unique_keys_b_sound (groups : Groups) :
  unique_keys_b groups = true -> unique_keys groups.
Proof.
  intros H level. destruct (groups_get_in groups level) as [E | Hin].
  - rewrite E. constructor.
  - unfold unique_keys_b in H. rewrite forallb_forall in H.
    apply nodup_b_sound. exact (H _ Hin).
Qed.

Lemma no_zero_key_b_sound (groups : Groups) :
  no_zero_key_b groups = true -> no_zero_key groups.
Proof.
  intros H level info Hin.
  destruct (groups_get_in groups level) as [E | Hg].
  - rewrite E in Hin. destruct Hin.
  - unfold no_zero_key_b in H. rewrite forallb_forall in H.
    specialize (H _ Hg). simpl in H. apply negb_true_iff in H.
    assert (Hm : mem 0%Z (keys (groups_get groups level)) = true).
    { apply mem_In. unfold keys.
      change 0%Z with (fst (0%Z, info)). now apply in_map. }
    rewrite Hm in H. discriminate.
Qed.

Lemma in_lookup (A : Type) (k : Z) (v : A) (d : list (Z * A)) :
  NoDup (map fst d) -> In (k, v) d -> lookup k d = Some v.
Proof.
  induction d as [|[k' v'] r IH]; simpl; [tauto|].
  intros Hnd [He | Hin].
  - injection He as -> ->. now rewrite Z.eqb_refl.
  - inversion Hnd as [|? ? Hnot Hr]; subst.
    destruct (Z.eqb_spec k' k) as [->|_].
    + exfalso. apply Hnot. change k with (fst (k, v)). now apply in_map.
    + now apply IH.
Qed.

End Keys.

Section Climbing.

Variable groups : Groups.

Lemma climbs_le (i l j l' : Z) : climbs groups i l j l' -> (l <= l')%Z.
Proof. induction 1; lia. Qed.

Lemma climbs_prefix (i l j l' m : Z) :
  climbs groups i l j l' -> (l <= m <= l')%Z ->
  exists k, climbs groups i l k m.
Proof.
  induction 1 as [i l | i l p j l' Hs Hc IH]; intros Hm.
  - assert (m = l) by lia. subst m. exists i. constructor.
  - destruct (Z.eq_dec m l) as [->|Hne].
    + exists i. constructor.
    + destruct IH as [k Hk]; [lia|].
      exists k. now apply climbs_up with (p := p).
Qed.

(** The walk writes its starting id at its starting level. *)
Lemma chain_loop_self (fuel : nat) (i level : Z) (c r : Chain) :
  (2 <= level <= 5)%Z ->
  chain_loop fuel groups i level c = Some r ->
  get_level level r = Some i.
Proof.
  intros HL. destruct fuel as [|fuel]; rewrite chain_loop_eq;
    destruct (Z.leb_spec level 5) as [_|H5]; try lia; simpl;
    [discriminate|].
  assert (Hset : get_level level (set_level level i c) = Some i).
  { rewrite get_set_level by lia. now rewrite Z.eqb_refl. }
  destruct (level =? 5)%Z; [intros [= <-]; exact Hset|].
  destruct (lookup i (groups_get groups level)) as [info|];
    [|intros [= <-]; exact Hset].
  destruct (truthy (parent_id info)); [|intros [= <-]; exact Hset].
  destruct (parent_id info) as [p|]; [|intros [= <-]; exact Hset].
  intros E.
  rewrite (@chain_loop_lower groups fuel p (level + 1)%Z _ r ltac:(lia) E
             level ltac:(lia)).
  exact Hset.
Qed.

(** The walk records every node that is reached by climbing. *)
Lemma chain_loop_climbs (i l j l' : Z) :
  climbs groups i l j l' ->
  forall (fuel : nat) (c r : Chain),
    (2 <= l)%Z -> (l' <= 5)%Z ->
    chain_loop fuel groups i l c = Some r ->
    get_level l' r = Some j.
Proof.
  induction 1 as [i l | i l p j l' Hs Hc IH]; intros fuel c r Hl Hl' E.
  - now apply (@chain_loop_self fuel i l c r).
  - pose proof (climbs_le Hc) as Hle.
    destruct Hs as [info [Hlook [Hp Hnz]]].
    destruct fuel as [|fuel]; rewrite chain_loop_eq in E;
      destruct (Z.leb_spec l 5) as [_|H5]; try lia; simpl in E;
      [discriminate|].
    destruct (Z.eqb_spec l 5) as [->|_]; [lia|].
    rewrite Hlook in E. rewrite Hp in E. simpl in E.
    destruct (Z.eqb_spec p 0) as [->|_]; [now elim Hnz|]. simpl in E.
    apply (IH fuel (set_level l i c) r); [lia | lia | exact E].
Qed.

Lemma get_parent_chain_loop (i l : Z) :
  exists r,
    chain_loop (Z.to_nat (6 - l)) groups i l empty_chain = Some r
    /\ get_parent_chain i l groups = r.
Proof.
  unfold get_parent_chain.
  assert (Hne := @chain_loop_enough groups (Z.to_nat (6 - l)) i l
                   empty_chain ltac:(lia)).
  destruct (chain_loop (Z.to_nat (6 - l)) groups i l empty_chain) as [r|];
    [|now elim Hne].
  now exists r.
Qed.

Lemma get_parent_chain_climbs (i l j l' : Z) :
  climbs groups i l j l' -> (2 <= l)%Z -> (l' <= 5)%Z ->
  get_level l' (get_parent_chain i l groups) = Some j.
Proof.
  intros Hc Hl Hl'. destruct (get_parent_chain_loop i l) as [r [E ->]].
  exact (@chain_loop_climbs i l j l' Hc _ _ r Hl Hl' E).
Qed.

Hypothesis Hkeys : unique_keys groups.
Hypothesis Hids : truthy_parents groups.

Lemma node_parent_step (level i p : Z) (info : LocInfo) :
  In (i, info) (groups_get groups level) -> parent_id info = Some p ->
  parent_step groups level i p.
Proof.
  intros Hin Hp. exists info.
  assert (Hl : lookup i (groups_get groups level) = Some info).
  { apply in_lookup; [apply Hkeys | exact Hin]. }
  split; [exact Hl | split; [exact Hp|]].
  intros ->. exact (@Hids level i info Hl Hp).
Qed.

Lemma in_keys_filter (f : Z * LocInfo -> bool) (d : LevelData) (i : Z) :
  In i (keys (filter f d)) -> exists info, In (i, info) d /\ f (i, info) = true.
Proof.
  unfold keys. intros H. apply in_map_iff in H.
  destruct H as [[j info] [Hj Hin]]. simpl in Hj. subst j.
  apply filter_In in Hin. now exists info.
Qed.

Lemma ids_level4_climbs (d i : Z) :
  In i (ids_level4 groups d) -> climbs groups i 4 d 5.
Proof.
  unfold ids_level4. intros H. apply in_keys_filter in H.
  destruct H as [info [Hin Hp]]. simpl in Hp.
  destruct (parent_id info) as [p|] eqn:Ep; [|discriminate].
  simpl in Hp. apply Z.eqb_eq in Hp. subst p.
  apply climbs_up with (p := d); [now apply node_parent_step with info|].
  constructor.
Qed.

Lemma ids_level3_climbs (d i : Z) :
  In i (ids_level3 groups d) -> climbs groups i 3 d 5.
Proof.
  unfold ids_level3. intros H. apply in_keys_filter in H.
  destruct H as [info [Hin Hp]]. simpl in Hp. unfold parent_in in Hp.
  destruct (parent_id info) as [p|] eqn:Ep; [|discriminate].
  apply mem_In in Hp.
  apply climbs_up with (p := p); [now apply node_parent_step with info|].
  now apply ids_level4_climbs.
Qed.

Lemma ids_level2_climbs (d i : Z) :
  In i (ids_level2 groups d) -> climbs groups i 2 d 5.
Proof.
  unfold ids_level2. intros H. apply in_keys_filter in H.
  destruct H as [info [Hin Hp]]. simpl in Hp. unfold parent_in in Hp.
  destruct (parent_id info) as [p|] eqn:Ep; [|discriminate].
  apply mem_In in Hp.
  apply climbs_up with (p := p); [now apply node_parent_step with info|].
  now apply ids_level3_climbs.
Qed.

Lemma ids_under_department_climbs (level d i : Z) :
  In i (get_ids_under_department groups level d) ->
  (2 <= level <= 4)%Z /\ climbs groups i level d 5.
Proof.
  unfold get_ids_under_department.
  destruct (Z.eqb_spec level 4) as [->|_];
    [intros H; split; [lia | now apply ids_level4_climbs]|].
  destruct (Z.eqb_spec level 3) as [->|_];
    [intros H; split; [lia | now apply ids_level3_climbs]|].
  destruct (Z.eqb_spec level 2) as [->|_];
    [intros H; split; [lia | now apply ids_level2_climbs]|].
  intros [].
Qed.

End Climbing.

(** X8. In a hierarchy with unique keys and no parent id 0, every id that
    [get_ids_under_department] returns for a level and a department has a
    parent chain that starts at the id, has every level up to 5 set, and
    ends in that department. *)
Theorem ids_under_department_chain (groups : Groups) (level d i : Z) :
  unique_keys groups ->
  truthy_parents groups ->
  In i (get_ids_under_department groups level d) ->
  let c := get_parent_chain i level groups in
  get_level level c = Some i
  /\ locGroup5Id c = Some d
  /\ (forall l, (level <= l <= 5)%Z -> get_level l c <> None).
Proof.
  intros Hk Ht Hin c.
  destruct (@ids_under_department_climbs groups Hk Ht level d i Hin)
    as [Hl Hc].
  split; [apply get_parent_chain_self; lia|]. split.
  - exact (@get_parent_chain_climbs groups i level d 5%Z Hc ltac:(lia)
             ltac:(lia)).
  - intros l Hrange.
    destruct (@climbs_prefix groups i level d 5%Z l Hc Hrange) as [k Hk'].
    unfold c.
    rewrite (@get_parent_chain_climbs groups i level k l Hk' ltac:(lia)
               ltac:(lia)).
    discriminate.
Qed.

Lemma ids_under_department_chain_witness :
  unique_keys groups_four_levels
  /\ truthy_parents groups_four_levels
  /\ In 201%Z (get_ids_under_department groups_four_levels 2 501)
  /\ get_parent_chain 201 2 groups_four_levels
     = Build_Chain (Some 201%Z) (Some 301%Z) (Some 401%Z) (Some 501%Z)
  /\ locGroup5Id (get_parent_chain 201 2 groups_four_levels) = Some 501%Z.
Proof.
  assert (Hk : unique_keys groups_four_levels).
  { apply unique_keys_b_sound. vm_compute. reflexivity. }
  assert (Ht : truthy_parents groups_four_levels).
  { apply truthy_parents_b_sound. vm_compute. reflexivity. }
  assert (Hin : In 201%Z (get_ids_under_department groups_four_levels 2 501)).
  { vm_compute. left. reflexivity. }
  split; [exact Hk | split; [exact Ht | split; [exact Hin | split]]].
  - vm_compute. reflexivity.
  - exact (proj1 (proj2 (@ids_under_department_chain groups_four_levels
                           2%Z 501%Z 201%Z Hk Ht Hin))).
Defined.

(** ** The shape of the results of the two strategies *)

Section Shapes.

Variables (texts : Texts) (groups : Groups).

Lemma record_with_chain (r : MatchResult) (ch : Chain) (l : Z)
  (c : Candidate) :
  record_match (with_chain r ch) l c = recorded ch l c.
Proof. reflexivity. Qed.

Lemma chain_of_department (i : Z) :
  Build_Chain None None None (Some i) = get_parent_chain i 5 groups.
Proof. reflexivity. Qed.

Lemma find_match_node (data : LevelData) (pf : option Z) (c : Candidate) :
  find_match texts data pf = Some c ->
  exists info, In (cand_id c, info) data /\ passes_filter pf info = true.
Proof.
  intros H. apply find_match_some in H.
  destruct H as [[[i info] t] [Hin [_ [Hc _]]]].
  apply in_pairs_B in Hin. destruct Hin as [Hin [Hp _]].
  subst c. exists info. split; [exact Hin | exact Hp].
Qed.

Lemma find_best_match_in_level_node (data : LevelData) (pf : option Z)
  (c : Candidate) :
  find_best_match_in_level texts data pf = Some c ->
  exists info, In (cand_id c, info) (filtered_level data pf).
Proof.
  intros H. apply find_best_match_in_level_some in H.
  destruct H as [s [_ [Hf _]]].
  apply find_match_in_level_some in Hf.
  destruct Hf as [info [Hin _]]. now exists info.
Qed.

Lemma filter_ids_node (level : Z) (valid : list Z) (i : Z) (info : LocInfo) :
  In (i, info) (filter_ids groups level valid) ->
  In i valid /\ is_node groups level i.
Proof.
  unfold filter_ids. intros H. apply filter_In in H.
  destruct H as [Hin Hm]. simpl in Hm. apply mem_In in Hm.
  split; [exact Hm | now exists info].
Qed.

(** The scoped search of Strategy B keeps a candidate of a level under the
    department. *)
Lemma visit_lower_B_under (d : Z) (levels : list Z) (st : LowerB) :
  match fst st with
  | Some (c, l) => under_department groups d c l
  | None => True
  end ->
  match fst (fold_left (visit_lower_B texts groups d) levels st) with
  | Some (c, l) => under_department groups d c l
  | None => True
  end.
Proof.
  revert st. induction levels as [|level r IH]; intros st Hst; [exact Hst|].
  simpl. apply IH. unfold visit_lower_B.
  destruct (get_ids_under_department groups level d) as [|v vs] eqn:Ev;
    [exact Hst|].
  destruct (find_match texts (filter_ids groups level (v :: vs)) None)
    as [c|] eqn:Ef; [|exact Hst].
  destruct (Qle_bool MIN_SCORE (cand_score c) && (level <? snd st)%Z);
    [|exact Hst].
  simpl. destruct (find_match_node _ _ Ef) as [info [Hin _]].
  apply filter_ids_node in Hin. unfold under_department.
  now rewrite Ev.
Qed.

(** The same for the scoped search of Strategy A. *)
Lemma visit_lower_A_under (d : Z) (levels : list Z) (st : LowerA) :
  match fst (fst st) with
  | Some c => under_department groups d c (snd (fst st))
  | None => True
  end ->
  match fst (fst (fold_left (visit_lower_A texts groups d) levels st)) with
  | Some c =>
    under_department groups d c
      (snd (fst (fold_left (visit_lower_A texts groups d) levels st)))
  | None => True
  end.
Proof.
  revert st. induction levels as [|level r IH]; intros st Hst; [exact Hst|].
  simpl. apply IH. unfold visit_lower_A.
  destruct st as [[b bl] bs]. simpl in Hst.
  destruct (get_ids_under_department groups level d) as [|v vs] eqn:Ev;
    [exact Hst|].
  destruct (filter_ids groups level (v :: vs)) as [|e es] eqn:Ed;
    [exact Hst|].
  destruct (find_best_match_in_level texts (e :: es) None) as [c|] eqn:Ef;
    [|exact Hst].
  assert (Hc : under_department groups d c level).
  { destruct (find_best_match_in_level_node _ _ Ef) as [info Hin].
    unfold filtered_level in Hin. rewrite <- Ed in Hin.
    apply filter_ids_node in Hin.
    unfold under_department. now rewrite Ev. }
  destruct (Qle_bool MIN_SCORE (cand_score c) && (level <? bl)%Z);
    [exact Hc|].
  destruct (Qltb bs (cand_score c)); simpl; [|exact Hst].
  destruct (Z.eqb_spec level bl) as [<-|_]; [exact Hc | exact Hst].
Qed.

(** The result of Strategy B after a department was found and the global
    search of level 3 found nothing. *)
Lemma strategy_B_department (l5 : Candidate) :
  find_match texts (groups_get groups 3) None = None ->
  find_match texts (groups_get groups 5) None = Some l5 ->
  let r := match_listing_with_texts texts groups in
  r = recorded (get_parent_chain (cand_id l5) 5 groups) 5 l5
  \/ exists c l,
       under_department groups (cand_id l5) c l
       /\ r = recorded (get_parent_chain (cand_id c) l groups) l c.
Proof.
  intros H3 H5. unfold match_listing_with_texts. rewrite H3, H5.
  pose proof (@visit_lower_B_under (cand_id l5) [2; 3; 4]%Z (None, 5%Z) I)
    as Hinv.
  destruct (fst (fold_left (visit_lower_B texts groups (cand_id l5))
                           [2; 3; 4]%Z (None, 5%Z))) as [[c l]|].
  - right. exists c, l. split; [exact Hinv | reflexivity].
  - left. reflexivity.
Qed.

(** The result of Strategy A after a department was found. *)
Lemma strategy_A_department (l5 : Candidate) :
  find_best_match_in_level texts (groups_get groups 5) None = Some l5 ->
  exists r,
    match_texts_A texts groups = Some r
    /\ (r = recorded (get_parent_chain (cand_id l5) 5 groups) 5 l5
        \/ exists c l,
             under_department groups (cand_id l5) c l
             /\ r = recorded (get_parent_chain (cand_id c) l groups) l c).
Proof.
  intros H5. unfold match_texts_A. rewrite H5.
  pose proof (@visit_lower_A_under (cand_id l5) [2; 3; 4]%Z
                (None, 5%Z, 0) I) as Hinv.
  destruct (fold_left (visit_lower_A texts groups (cand_id l5))
                      [2; 3; 4]%Z (None, 5%Z, 0)) as [[b bl] bs].
  simpl in Hinv. destruct b as [c|].
  - eexists. split; [reflexivity|]. right. exists c, bl.
    split; [exact Hinv | reflexivity].
  - eexists. split; [reflexivity|]. left. reflexivity.
Qed.

Lemma under_department_level (d : Z) (c : Candidate) (l : Z) :
  under_department groups d c l -> (2 <= l <= 4)%Z.
Proof.
  intros [Hin _]. unfold get_ids_under_department in Hin.
  destruct (Z.eqb_spec l 4); [lia|].
  destruct (Z.eqb_spec l 3); [lia|].
  destruct (Z.eqb_spec l 2); [lia|].
  destruct Hin.
Qed.

(** Every result of Strategy B is empty or filled in one of the two
    ways. *)
Lemma strategy_B_filled :
  let r := match_listing_with_texts texts groups in
  r = empty_result \/ filled false groups r.
Proof.
  intros r.
  destruct (find_match texts (groups_get groups 3) None) as [l3|] eqn:E3.
  - right. unfold r, match_listing_with_texts. rewrite E3.
    destruct (find_match_min_score _ _ _ E3) as [_ Hs3]. rewrite Hs3.
    destruct (find_match_node _ _ E3) as [i3 [Hin3 _]].
    assert (Hn3 : is_node groups 3 (cand_id l3)) by now exists i3.
    rewrite !record_with_chain.
    destruct (find_match texts (groups_get groups 2) (Some (cand_id l3)))
      as [l2|] eqn:E2.
    + destruct (find_match_min_score _ _ _ E2) as [_ Hs2]. rewrite Hs2.
      destruct (find_match_node _ _ E2) as [i2 [Hin2 Hp2]].
      simpl. apply filled_scoped with (info := i2); [exact Hn3 | exact Hin2|].
      intros [Hf | Hnz]; [discriminate|].
      unfold passes_filter in Hp2. simpl in Hp2.
      destruct (Z.eqb_spec (cand_id l3) 0) as [Hz|_]; [now elim Hnz|].
      simpl in Hp2. apply negb_true_iff, negb_false_iff in Hp2.
      destruct (parent_id i2) as [q|]; [|discriminate].
      simpl in Hp2. apply Z.eqb_eq in Hp2. now subst q.
    + apply filled_chain; [lia | exact Hn3].
  - destruct (find_match texts (groups_get groups 5) None) as [l5|] eqn:E5.
    + right. destruct (strategy_B_department E3 E5) as [Hr | [c [l [Hu Hr]]]];
        fold r in Hr; rewrite Hr.
      * apply filled_chain; [lia|].
        destruct (find_match_node _ _ E5) as [i5 [Hin5 _]]. now exists i5.
      * pose proof (under_department_level Hu) as Hl.
        apply filled_chain; [lia | exact (proj2 Hu)].
    + unfold r, match_listing_with_texts. rewrite E3, E5.
      destruct (find_match texts (groups_get groups 2) None) as [l2|] eqn:E2;
        [|now left].
      right. destruct (find_match_min_score _ _ _ E2) as [_ Hs2]. rewrite Hs2.
      rewrite record_with_chain. apply filled_chain; [lia|].
      destruct (find_match_node _ _ E2) as [i2 [Hin2 _]]. now exists i2.
Qed.

(** Every result that Strategy A returns is filled in one of the two
    ways. *)
Lemma strategy_A_filled (r : MatchResult) :
  match_texts_A texts groups = Some r -> filled true groups r.
Proof.
  destruct (find_best_match_in_level texts (groups_get groups 5) None)
    as [l5|] eqn:E5.
  - destruct (strategy_A_department E5) as [r' [Hr' Hcase]].
    rewrite Hr'. intros [= <-].
    destruct Hcase as [-> | [c [l [Hu ->]]]].
    + apply filled_chain; [lia|].
      destruct (find_best_match_in_level_node _ _ E5) as [i5 Hin5].
      now exists i5.
    + pose proof (under_department_level Hu) as Hl.
      apply filled_chain; [lia | exact (proj2 Hu)].
  - unfold match_texts_A. rewrite E5.
    assert (Hl2 : forall r,
      match find_best_match_in_level texts (groups_get groups 2) None with
      | Some l2 =>
        if Qle_bool MIN_SCORE (cand_score l2) then
          Some (record_match
                  (with_chain empty_result
                     (get_parent_chain (cand_id l2) 2 groups)) 2 l2)
        else None
      | None => None
      end = Some r -> filled true groups r).
    { intros r0.
      destruct (find_best_match_in_level texts (groups_get groups 2) None)
        as [l2|] eqn:E2; [|discriminate].
      destruct (Qle_bool MIN_SCORE (cand_score l2)); [|discriminate].
      intros [= <-]. rewrite record_with_chain.
      apply filled_chain; [lia|].
      destruct (find_best_match_in_level_node _ _ E2) as [i2 Hin2].
      now exists i2. }
    destruct (find_best_match_in_level texts (groups_get groups 3) None)
      as [l3|] eqn:E3; [|apply Hl2].
    destruct (Qle_bool MIN_SCORE (cand_score l3)); [|apply Hl2].
    destruct (find_best_match_in_level_node _ _ E3) as [i3 Hin3].
    assert (Hn3 : is_node groups 3 (cand_id l3)) by now exists i3.
    rewrite !record_with_chain.
    destruct (find_best_match_in_level texts (groups_get groups 2)
                (Some (cand_id l3))) as [l2|] eqn:E2.
    + destruct (Qle_bool MIN_SCORE (cand_score l2)).
      * intros [= <-]. rewrite record_with_chain. simpl.
        destruct (find_best_match_in_level_node _ _ E2) as [i2 Hin2].
        unfold filtered_level, filter_parent in Hin2.
        apply filter_In in Hin2. destruct Hin2 as [Hin2 Hp2].
        apply filled_scoped with (info := i2); [exact Hn3 | exact Hin2|].
        intros _. simpl in Hp2.
        destruct (parent_id i2) as [q|]; [|discriminate].
        simpl in Hp2. apply Z.eqb_eq in Hp2. now subst q.
      * intros [= <-]. apply filled_chain; [lia | exact Hn3].
    + intros [= <-]. apply filled_chain; [lia | exact Hn3].
Qed.

End Shapes.

(** ** Invariants of the results *)

Section ResultInvariants.

Variable groups : Groups.

Lemma get_level_out (j : Z) (c : Chain) : (j < 2)%Z -> get_level j c = None.
Proof.
  intros H. unfold get_level.
  destruct (Z.eqb_spec j 2); [lia|]. destruct (Z.eqb_spec j 3); [lia|].
  destruct (Z.eqb_spec j 4); [lia|]. destruct (Z.eqb_spec j 5); [lia|].
  reflexivity.
Qed.

Lemma get_parent_chain_lower (i L j : Z) :
  (2 <= L)%Z -> (j < L)%Z -> get_level j (get_parent_chain i L groups) = None.
Proof.
  intros HL Hj. destruct (get_parent_chain_loop groups i L) as [r [E ->]].
  rewrite (@chain_loop_lower groups _ i L empty_chain r HL E j Hj).
  apply get_level_empty.
Qed.

Lemma filled_most_specific (strict : bool) (r : MatchResult) :
  filled strict groups r ->
  exists l, matchLevel r = Some l /\ most_specific groups r l.
Proof.
  intros [level c Hl Hn | l3 l2 info Hn3 Hin2 _].
  - exists level. split; [reflexivity|]. split; [exact Hl|]. split.
    + exists (cand_id c). split; [|exact Hn].
      simpl. now apply get_parent_chain_self.
    + intros j Hj. simpl. apply get_parent_chain_lower; lia.
  - exists 2%Z. split; [reflexivity|]. split; [lia|]. split.
    + exists (cand_id l2). split; [|now exists info].
      simpl. rewrite get_set_level by lia. reflexivity.
    + intros j Hj. apply get_level_out. exact Hj.
Qed.

Lemma Qred_hundredths (z : Z) : exists n : Z, Qred (z # 100) == n # 100.
Proof. exists z. apply Qred_correct. Qed.

Lemma firstn_stored (n : nat) (t : pystr) :
  nonempty t = true ->
  firstn (S n) t <> [] /\ (List.length (firstn (S n) t) <= S n)%nat.
Proof.
  intros Hn. split; [|apply firstn_le_length].
  destruct t as [|a t]; [discriminate|].
  rewrite firstn_cons. discriminate.
Qed.

Lemma recorded_stored (ch : Chain) (l : Z) (c : Candidate) :
  stored_fields (recorded ch l c).
Proof.
  unfold stored_fields.
  change (matchedText (recorded ch l c)) with (truncate_text (cand_text c)).
  change (matchScore (recorded ch l c)) with (Some (round2 (cand_score c))).
  split.
  - unfold truncate_text.
    destruct (nonempty (cand_text c)) eqn:En; [|exact I].
    exact (@firstn_stored 254 (cand_text c) En).
  - unfold round2. apply Qred_hundredths.
Qed.

Lemma filled_stored (strict : bool) (r : MatchResult) :
  filled strict groups r -> stored_fields r.
Proof. intros [? ? ? ? | ? ? ? ? ? ?]; apply recorded_stored. Qed.

(** The ids that the walk writes at neighbouring levels are those of a
    node and of its parent. *)
Lemma chain_loop_linked (fuel : nat) (i l : Z) (c r : Chain) :
  (2 <= l)%Z ->
  chain_loop fuel groups i l c = Some r ->
  (forall m, (l <= m)%Z -> get_level m c = None) ->
  forall m k p,
    (l <= m <= 4)%Z ->
    get_level m r = Some k -> get_level (m + 1) r = Some p ->
    exists info,
      In (k, info) (groups_get groups m) /\ parent_id info = Some p.
Proof.
  revert i l c. induction fuel as [|fuel IH]; intros i l c Hl E Hc m k p Hm;
    rewrite chain_loop_eq in E;
    (destruct (Z.leb_spec l 5) as [H5|H5]; [|lia]); simpl in E;
    [discriminate|].
  assert (Hstop : r = set_level l i c ->
                  get_level (m + 1) r = Some p -> False).
  { intros -> Hp. rewrite get_set_level in Hp by lia.
    destruct (Z.eqb_spec (m + 1) l); [lia|].
    rewrite Hc in Hp by lia. discriminate. }
  destruct (Z.eqb_spec l 5) as [->|Hn5];
    [intros _ Hp; exfalso; injection E as <-; now apply Hstop|].
  destruct (lookup i (groups_get groups l)) as [info|] eqn:Hlook;
    [|intros _ Hp; exfalso; injection E as <-; now apply Hstop].
  destruct (truthy (parent_id info));
    [|intros _ Hp; exfalso; injection E as <-; now apply Hstop].
  destruct (parent_id info) as [p0|] eqn:Hpar;
    [|intros _ Hp; exfalso; injection E as <-; now apply Hstop].
  destruct (Z.eq_dec m l) as [->|Hne].
  - intros Hk Hp.
    rewrite (@chain_loop_lower groups fuel p0 (l + 1)%Z _ r ltac:(lia) E l
               ltac:(lia)) in Hk.
    rewrite get_set_level in Hk by lia. rewrite Z.eqb_refl in Hk.
    injection Hk as <-.
    rewrite (@chain_loop_self groups fuel p0 (l + 1)%Z _ r ltac:(lia) E)
      in Hp.
    injection Hp as <-.
    exists info. split; [now apply lookup_in | exact Hpar].
  - apply (IH p0 (l + 1)%Z (set_level l i c)); [lia | exact E | | lia].
    intros m' Hm'. rewrite get_set_level by lia.
    destruct (Z.eqb_spec m' l); [lia|]. apply Hc. lia.
Qed.

Lemma get_parent_chain_linked (i L : Z) :
  (2 <= L)%Z -> linked groups (get_parent_chain i L groups).
Proof.
  intros HL l k p Hl Hk Hp.
  destruct (get_parent_chain_loop groups i L) as [r [E Hr]].
  rewrite Hr in Hk, Hp.
  destruct (Z.lt_ge_cases l L) as [Hlt | Hge].
  - rewrite (@chain_loop_lower groups _ i L empty_chain r HL E l Hlt) in Hk.
    rewrite get_level_empty in Hk. discriminate.
  - apply (@chain_loop_linked _ i L empty_chain r HL E
             (fun m _ => get_level_empty m) l k p); [lia | exact Hk | exact Hp].
Qed.

Lemma filled_linked (strict : bool) (r : MatchResult) :
  strict = true \/ no_zero_key groups ->
  filled strict groups r -> linked groups (chain r).
Proof.
  intros Hs [level c Hl Hn | l3 l2 info Hn3 Hin2 Hpar]; simpl.
  - apply get_parent_chain_linked. lia.
  - intros l k p Hl Hk Hp.
    rewrite get_set_level in Hk, Hp by lia.
    destruct (Z.eqb_spec (l + 1) 2); [lia|].
    destruct (Z.eqb_spec l 2) as [->|Hn2].
    + injection Hk as <-. simpl in Hp.
      rewrite (@get_parent_chain_self groups (cand_id l3) 3%Z ltac:(lia))
        in Hp.
      injection Hp as <-.
      exists info. split; [exact Hin2|]. apply Hpar.
      destruct Hs as [Hs | Hz]; [now left | right].
      intros E0. destruct Hn3 as [i3 Hin3]. rewrite E0 in Hin3.
      exact (Hz _ _ Hin3).
    + exact (@get_parent_chain_linked (cand_id l3) 3%Z ltac:(lia) l k p Hl
               Hk Hp).
Qed.

Hypothesis Hkeys : unique_keys groups.
Hypothesis Hids : truthy_parents groups.

Lemma under_department_chain (d : Z) (c : Candidate) (l : Z) :
  under_department groups d c l ->
  locGroup5Id (get_parent_chain (cand_id c) l groups) = Some d
  /\ complete_from l (get_parent_chain (cand_id c) l groups).
Proof.
  intros [Hin _].
  destruct (@ids_under_department_climbs groups Hkeys Hids l d (cand_id c)
              Hin) as [Hl Hc].
  split.
  - exact (@get_parent_chain_climbs groups (cand_id c) l d 5%Z Hc
             ltac:(lia) ltac:(lia)).
  - intros m Hm.
    destruct (@climbs_prefix groups (cand_id c) l d 5%Z m Hc Hm) as [k Hk].
    rewrite (@get_parent_chain_climbs groups (cand_id c) l k m Hk
               ltac:(lia) ltac:(lia)).
    discriminate.
Qed.

Lemma department_chain (i : Z) :
  locGroup5Id (get_parent_chain i 5 groups) = Some i
  /\ complete_from 5 (get_parent_chain i 5 groups).
Proof.
  split; [reflexivity|]. intros m Hm. assert (m = 5%Z) by lia. subst m.
  rewrite get_parent_chain_self by lia. discriminate.
Qed.

End ResultInvariants.

(** X9. In a hierarchy with unique keys and no parent id 0, when Strategy A
    finds a department it returns a result that keeps that department as
    [locGroup5Id], whichever lower level it settles on, and that has every
    level from the match level up to 5 set. *)
Theorem match_listing_keeps_department (ext : Z) (texts : Texts)
  (groups : Groups) (l5 : Candidate) :
  unique_keys groups ->
  truthy_parents groups ->
  find_best_match_in_level texts (groups_get groups 5) None = Some l5 ->
  exists r l,
    match_listing ext texts groups = Some r
    /\ externalId r = ext
    /\ locGroup5Id (chain (fields r)) = Some (cand_id l5)
    /\ matchLevel (fields r) = Some l
    /\ complete_from l (chain (fields r)).
Proof.
  intros Hk Ht H5.
  destruct (strategy_A_department _ _ H5) as [r [Hr Hcase]].
  unfold match_listing. rewrite Hr. simpl.
  destruct Hcase as [-> | [c [l [Hu ->]]]].
  - exists (Build_ListingMatch ext
              (recorded (get_parent_chain (cand_id l5) 5 groups) 5 l5)), 5%Z.
    destruct (department_chain groups (cand_id l5)) as [Hd Hc].
    simpl. repeat split; assumption.
  - exists (Build_ListingMatch ext
              (recorded (get_parent_chain (cand_id c) l groups) l c)), l.
    destruct (@under_department_chain groups Hk Ht _ _ _ Hu) as [Hd Hc].
    simpl. repeat split; assumption.
Qed.

Lemma match_listing_keeps_department_witness :
  exists r l,
    match_listing 1001 texts_region groups_three_levels = Some r
    /\ externalId r = 1001%Z
    /\ locGroup5Id (chain (fields r)) = Some 501%Z
    /\ matchLevel (fields r) = Some l
    /\ complete_from l (chain (fields r)).
Proof.
  apply (@match_listing_keeps_department 1001%Z texts_region
           groups_three_levels (501%Z, 1.0 * 1.0, u"La Libertad", title)).
  - apply unique_keys_b_sound. vm_compute. reflexivity.
  - apply truthy_parents_b_sound. vm_compute. reflexivity.
  - vm_compute. reflexivity.
Defined.

(** X10. The same for Strategy B: when its global search of level 3 finds
    nothing and the search of level 5 finds a department, the result keeps
    that department as [locGroup5Id] and has every level from the match
    level up to 5 set. *)
Theorem match_listing_with_texts_keeps_department (texts : Texts)
  (groups : Groups) (l5 : Candidate) :
  unique_keys groups ->
  truthy_parents groups ->
  find_match texts (groups_get groups 3) None = None ->
  find_match texts (groups_get groups 5) None = Some l5 ->
  let r := match_listing_with_texts texts groups in
  exists l,
    locGroup5Id (chain r) = Some (cand_id l5)
    /\ matchLevel r = Some l
    /\ complete_from l (chain r).
Proof.
  intros Hk Ht H3 H5 r.
  destruct (strategy_B_department _ _ H3 H5) as [Hr | [c [l [Hu Hr]]]];
    fold r in Hr; rewrite Hr.
  - exists 5%Z. destruct (department_chain groups (cand_id l5)) as [Hd Hc].
    simpl. repeat split; assumption.
  - exists l.
    destruct (@under_department_chain groups Hk Ht _ _ _ Hu) as [Hd Hc].
    simpl. repeat split; assumption.
Qed.

Lemma match_listing_with_texts_keeps_department_witness :
  match_listing_with_texts texts_region groups_three_levels
  = Build_MatchResult (Build_Chain None None (Some 401%Z) (Some 501%Z))
      (Some 4%Z) (Some 1) (Some title) (Some u"Region Central")
  /\ exists l,
       locGroup5Id (chain (match_listing_with_texts texts_region
                             groups_three_levels)) = Some 501%Z
       /\ matchLevel (match_listing_with_texts texts_region
                        groups_three_levels) = Some l
       /\ complete_from l (chain (match_listing_with_texts texts_region
                                    groups_three_levels)).
Proof.
  split; [vm_compute; reflexivity|].
  apply (@match_listing_with_texts_keeps_department texts_region
           groups_three_levels (501%Z, 1.0, u"La Libertad", title)).
  - apply unique_keys_b_sound. vm_compute. reflexivity.
  - apply truthy_parents_b_sound. vm_compute. reflexivity.
  - vm_compute. reflexivity.
  - vm_compute. reflexivity.
Defined.

(** X11. In every result of either strategy that is not empty, the match
    level is the most specific level of the result: the result holds the id
    of a node of that level of the hierarchy, and no id of a level below. *)
Theorem match_level_most_specific (texts : Texts) (groups : Groups) :
  (match_listing_with_texts texts groups = empty_result
   \/ exists l,
        matchLevel (match_listing_with_texts texts groups) = Some l
        /\ most_specific groups (match_listing_with_texts texts groups) l)
  /\ (forall ext,
        match match_listing ext texts groups with
        | Some r =>
          exists l, matchLevel (fields r) = Some l
                    /\ most_specific groups (fields r) l
        | None => True
        end).
Proof.
  split.
  - destruct (strategy_B_filled texts groups) as [H | H]; [now left | right].
    exact (filled_most_specific H).
  - intros ext. unfold match_listing.
    destruct (match_texts_A texts groups) as [r|] eqn:E; simpl; [|exact I].
    exact (filled_most_specific (strategy_A_filled _ _ E)).
Qed.

(** X12. Whatever either strategy returns, the matched text it stores is
    null or a text of 1 to 255 characters, never the empty string, and the
    score it stores has two decimals. *)
Theorem results_stored_fields (texts : Texts) (groups : Groups) :
  stored_fields (match_listing_with_texts texts groups)
  /\ (forall ext,
        match match_listing ext texts groups with
        | Some r => stored_fields (fields r)
        | None => True
        end).
Proof.
  split.
  - destruct (strategy_B_filled texts groups) as [H | H].
    + rewrite H. split; exact I.
    + exact (filled_stored H).
  - intros ext. unfold match_listing.
    destruct (match_texts_A texts groups) as [r|] eqn:E; simpl; [|exact I].
    exact (filled_stored (strategy_A_filled _ _ E)).
Qed.

(** X13. The ids of a result form a path of the hierarchy: two ids at
    neighbouring levels are those of a node and of its parent.  This holds
    of every result of Strategy A, and of every result of Strategy B when
    no node has id 0. *)
Theorem result_chain_linked (texts : Texts) (groups : Groups) :
  (forall ext r,
      match_listing ext texts groups = Some r ->
      linked groups (chain (fields r)))
  /\ (no_zero_key groups ->
      linked groups (chain (match_listing_with_texts texts groups))).
Proof.
  split.
  - intros ext r. unfold match_listing.
    destruct (match_texts_A texts groups) as [r'|] eqn:E; [|discriminate].
    intros [= <-]. simpl.
    apply (@filled_linked groups true r' (or_introl eq_refl)).
    exact (strategy_A_filled _ _ E).
  - intros Hz.
    destruct (strategy_B_filled texts groups) as [H | H].
    + rewrite H. intros l k p _ Hk. rewrite get_level_empty in Hk.
      discriminate.
    + exact (@filled_linked groups false _ (or_intror Hz) H).
Qed.

Lemma result_chain_linked_witness :
  (exists r, match_listing 1001 texts_scenario groups_scenario_region = Some r
             /\ linked groups_scenario_region (chain (fields r)))
  /\ no_zero_key groups_scenario_region
  /\ linked groups_scenario_region
       (chain (match_listing_with_texts texts_scenario
                 groups_scenario_region)).
Proof.
  pose proof (@result_chain_linked texts_scenario groups_scenario_region)
    as [HA HB].
  assert (Hz : no_zero_key groups_scenario_region).
  { apply no_zero_key_b_sound. vm_compute. reflexivity. }
  split; [|split; [exact Hz | exact (HB Hz)]].
  destruct (match_listing 1001 texts_scenario groups_scenario_region)
    as [r|] eqn:E.
  - exists r. split; [reflexivity | exact (HA 1001%Z r E)].
  - vm_compute in E. discriminate E.
Defined.

(** ** Chains in arbitrary hierarchies *)

Section AnyHierarchy.

Variable groups : Groups.

(** The levels that the walk writes have no gap. *)
Lemma chain_loop_contiguous (fuel : nat) (i l : Z) (c r : Chain) :
  (2 <= l)%Z ->
  chain_loop fuel groups i l c = Some r ->
  (forall m, (l <= m)%Z -> get_level m c = None) ->
  forall m,
    (l <= m <= 4)%Z -> get_level (m + 1) r <> None -> get_level m r <> None.
Proof.
  revert i l c. induction fuel as [|fuel IH]; intros i l c Hl E Hc m Hm;
    rewrite chain_loop_eq in E;
    (destruct (Z.leb_spec l 5) as [H5|H5]; [|lia]); simpl in E;
    [discriminate|].
  assert (Hstop : r = set_level l i c -> get_level (m + 1) r <> None -> False).
  { intros -> Hp. apply Hp. rewrite get_set_level by lia.
    destruct (Z.eqb_spec (m + 1) l); [lia|]. apply Hc. lia. }
  destruct (Z.eqb_spec l 5) as [->|Hn5];
    [intros Hp; exfalso; injection E as <-; now apply Hstop|].
  destruct (lookup i (groups_get groups l)) as [info|] eqn:Hlook;
    [|intros Hp; exfalso; injection E as <-; now apply Hstop].
  destruct (truthy (parent_id info));
    [|intros Hp; exfalso; injection E as <-; now apply Hstop].
  destruct (parent_id info) as [p0|] eqn:Hpar;
    [|intros Hp; exfalso; injection E as <-; now apply Hstop].
  destruct (Z.eq_dec m l) as [->|Hne].
  - intros _.
    rewrite (@chain_loop_lower groups fuel p0 (l + 1)%Z _ r ltac:(lia) E l
               ltac:(lia)).
    rewrite get_set_level by lia. rewrite Z.eqb_refl. discriminate.
  - apply (IH p0 (l + 1)%Z (set_level l i c)); [lia | exact E | | lia].
    intros m' Hm'. rewrite get_set_level by lia.
    destruct (Z.eqb_spec m' l); [lia|]. apply Hc. lia.
Qed.

Lemma in_lookup_some (A : Type) (k : Z) (v : A) (d : list (Z * A)) :
  In (k, v) d -> exists v', lookup k d = Some v'.
Proof.
  induction d as [|[k' w] r IH]; simpl; [tauto|].
  intros [He | Hin].
  - injection He as -> ->. rewrite Z.eqb_refl. now exists v.
  - destruct (k' =? k)%Z; [now exists w | now apply IH].
Qed.

End AnyHierarchy.

(** X14. Whatever the hierarchy, also one with missing nodes or broken
    parent links, the chain that [get_parent_chain] returns for a start
    level between 2 and 5 holds the start id at the start level, nothing
    below it, and has no gap above it: a level is set only if the level
    below it, down to the start level, is set.  When the start id is not a
    node of its level the chain holds that id alone. *)
Theorem parent_chain_contiguous (groups : Groups) (i L : Z) :
  (2 <= L <= 5)%Z ->
  let c := get_parent_chain i L groups in
  get_level L c = Some i
  /\ (forall j, (j < L)%Z -> get_level j c = None)
  /\ (forall m, (L <= m <= 4)%Z ->
                get_level (m + 1) c <> None -> get_level m c <> None)
  /\ (lookup i (groups_get groups L) = None ->
      c = set_level L i empty_chain).
Proof.
  intros HL c. split; [now apply get_parent_chain_self|].
  split; [intros j Hj; apply get_parent_chain_lower; lia|].
  destruct (get_parent_chain_loop groups i L) as [r [E Hr]]. split.
  - intros m Hm. unfold c. rewrite Hr.
    apply (@chain_loop_contiguous groups _ i L empty_chain r ltac:(lia) E
             (fun m _ => get_level_empty m) m Hm).
  - intros Hnone. unfold c. rewrite Hr.
    destruct (Z.to_nat (6 - L)) as [|fuel] eqn:Ef; [lia|].
    rewrite chain_loop_eq in E.
    destruct (Z.leb_spec L 5) as [_|H5]; [simpl in E|lia].
    rewrite Hnone in E.
    destruct (L =? 5)%Z; injection E as <-; reflexivity.
Qed.

Lemma parent_chain_contiguous_witness :
  get_parent_chain 301 3 groups_scenario
  = Build_Chain None (Some 301%Z) (Some 501%Z) None
  /\ get_level 3 (get_parent_chain 301 3 groups_scenario) = Some 301%Z
  /\ lookup 999%Z (groups_get groups_scenario 2) = None
  /\ get_parent_chain 999 2 groups_scenario = set_level 2 999%Z empty_chain.
Proof.
  split; [vm_compute; reflexivity|].
  pose proof (@parent_chain_contiguous groups_scenario 301%Z 3%Z
                ltac:(lia)) as [H1 _].
  split; [exact H1|].
  assert (Hnone : lookup 999%Z (groups_get groups_scenario 2) = None).
  { vm_compute. reflexivity. }
  split; [exact Hnone|].
  exact (proj2 (proj2 (proj2 (@parent_chain_contiguous groups_scenario
                                999%Z 2%Z ltac:(lia)))) Hnone).
Defined.

Section WellFormedResults.

Variable groups : Groups.
Hypothesis Hwf : well_formed groups.
Hypothesis Hids : truthy_parents groups.

Lemma node_chain_complete (level i : Z) :
  (2 <= level <= 5)%Z -> is_node groups level i ->
  complete_from level (get_parent_chain i level groups).
Proof.
  intros Hl [info Hin].
  destruct (in_lookup_some _ _ _ Hin) as [info' Hlook].
  destruct (@chain_loop_complete groups Hwf Hids (Z.to_nat (6 - level)) i
              level empty_chain info' Hl ltac:(lia) Hlook)
    as [r [E [Hall _]]].
  unfold complete_from, get_parent_chain. rewrite E. exact Hall.
Qed.

Lemma filled_complete (strict : bool) (r : MatchResult) :
  filled strict groups r ->
  exists l, matchLevel r = Some l /\ complete_from l (chain r).
Proof.
  intros [level c Hl Hn | l3 l2 info Hn3 Hin2 _].
  - exists level. split; [reflexivity|]. now apply node_chain_complete.
  - exists 2%Z. split; [reflexivity|]. intros m Hm. simpl.
    rewrite get_set_level by lia.
    destruct (Z.eqb_spec m 2); [discriminate|].
    apply (@node_chain_complete 3%Z (cand_id l3) ltac:(lia) Hn3). lia.
Qed.

End WellFormedResults.

(** X15. In a well-formed hierarchy without parent id 0, every non-empty
    result of either strategy has the locGroup id of every level from its
    match level up to 5 set. *)
Theorem results_complete (texts : Texts) (groups : Groups) :
  well_formed groups ->
  truthy_parents groups ->
  (match_listing_with_texts texts groups = empty_result
   \/ exists l,
        matchLevel (match_listing_with_texts texts groups) = Some l
        /\ complete_from l (chain (match_listing_with_texts texts groups)))
  /\ (forall ext r,
        match_listing ext texts groups = Some r ->
        exists l, matchLevel (fields r) = Some l
                  /\ complete_from l (chain (fields r))).
Proof.
  intros Hwf Hids. split.
  - destruct (strategy_B_filled texts groups) as [H | H]; [now left | right].
    exact (@filled_complete groups Hwf Hids false _ H).
  - intros ext r. unfold match_listing.
    destruct (match_texts_A texts groups) as [r'|] eqn:E; [|discriminate].
    intros [= <-]. simpl.
    exact (@filled_complete groups Hwf Hids true _ (strategy_A_filled _ _ E)).
Qed.

Lemma results_complete_witness :
  match_listing_with_texts texts_scenario groups_scenario_region
  <> empty_result
  /\ exists l,
       matchLevel (match_listing_with_texts texts_scenario
                     groups_scenario_region) = Some l
       /\ complete_from l
            (chain (match_listing_with_texts texts_scenario
                      groups_scenario_region)).
Proof.
  assert (Hne : match_listing_with_texts texts_scenario groups_scenario_region
                <> empty_result).
  { intros H. vm_compute in H. discriminate H. }
  split; [exact Hne|].
  destruct (@results_complete texts_scenario groups_scenario_region)
    as [[H | H] _].
  - apply well_formed_b_sound. vm_compute. reflexivity.
  - apply truthy_parents_b_sound. vm_compute. reflexivity.
  - now elim Hne.
  - exact H.
Defined.

(** ** Reading a table page by page *)

Section Pages.

Variable A : Type.

Lemma page_size_pos : (0 < page_size)%nat.
Proof. unfold page_size. lia. Qed.

Lemma range_rows_page (table : list A) (offset : nat) :
  range_rows table offset (offset + page_size - 1)
  = firstn page_size (skipn offset table).
Proof.
  unfold range_rows. f_equal. pose proof page_size_pos. lia.
Qed.

Lemma read_pages_eq (fuel : nat) (table : list A) (offset : nat)
  (all_rows : list A) :
  read_pages (S fuel) table offset all_rows =
  match firstn page_size (skipn offset table) with
  | [] => Some all_rows
  | _ :: _ =>
    if (List.length (firstn page_size (skipn offset table)) <? page_size)%nat
    then Some (all_rows ++ firstn page_size (skipn offset table))
    else read_pages fuel table (offset + page_size)
           (all_rows ++ firstn page_size (skipn offset table))
  end.
Proof.
  change (read_pages (S fuel) table offset all_rows) with
    (let data := range_rows table offset (offset + page_size - 1) in
     match data with
     | [] => Some all_rows
     | _ :: _ =>
       if (List.length data <? page_size)%nat then Some (all_rows ++ data)
       else read_pages fuel table (offset + page_size) (all_rows ++ data)
     end).
  cbv zeta. now rewrite range_rows_page.
Qed.

Lemma firstn_nil_inv (n : nat) (l : list A) :
  (0 < n)%nat -> firstn n l = [] -> l = [].
Proof.
  intros Hn H. apply (f_equal (@List.length A)) in H.
  rewrite length_firstn in H. destruct l; [reflexivity|].
  change (List.length (a :: l)) with (S (List.length l)) in H.
  change (@List.length A []) with 0%nat in H. lia.
Qed.

Lemma read_pages_rest (fuel : nat) (table : list A) (offset : nat)
  (all_rows : list A) :
  (List.length table - offset < fuel * page_size)%nat ->
  read_pages fuel table offset all_rows
  = Some (all_rows ++ skipn offset table).
Proof.
  revert offset all_rows. induction fuel as [|fuel IH];
    intros offset all_rows Hf; [simpl in Hf; lia|].
  rewrite read_pages_eq.
  pose proof page_size_pos as Hp.
  pose proof (length_skipn offset table) as Hlen.
  pose proof (length_firstn page_size (skipn offset table)) as Hfl.
  destruct (firstn page_size (skipn offset table)) as [|a d] eqn:Ed.
  - apply firstn_nil_inv in Ed; [|exact Hp]. rewrite Ed.
    now rewrite app_nil_r.
  - rewrite <- Ed in *. clear Ed.
    destruct (Nat.ltb_spec
                (List.length (firstn page_size (skipn offset table)))
                page_size) as [Hlt | Hge].
    + rewrite firstn_all2 by lia. reflexivity.
    + rewrite IH.
      * rewrite <- app_assoc. f_equal. f_equal.
        rewrite <- (firstn_skipn page_size (skipn offset table)) at 2.
        f_equal. rewrite skipn_skipn. f_equal. lia.
      * rewrite Nat.mul_succ_l in Hf. lia.
Qed.

End Pages.

(** X16. The paginated read returns the whole table: given one unit of
    fuel per request that is needed, the loop ends and has collected every
    row of the table once and in order, whatever the number of rows (none,
    a multiple of the page size, or any other). *)
Theorem read_pages_all (A : Type) (fuel : nat) (table : list A) :
  (List.length table < fuel * page_size)%nat ->
  read_pages fuel table 0 [] = Some table.
Proof.
  intros H. rewrite read_pages_rest by lia. reflexivity.
Qed.

Lemma read_pages_all_witness :
  read_pages 3 (seq 0 2000) 0 [] = Some (seq 0 2000)
  /\ read_pages 1 (@nil nat) 0 [] = Some [].
Proof.
  split.
  - apply (@read_pages_all nat 3 (seq 0 2000)).
    rewrite length_seq. unfold page_size. lia.
  - apply (@read_pages_all nat 1 []). unfold page_size. simpl. lia.
Defined.

(** ** Batches *)

Section Batches.

Variable A : Type.

Lemma batch_size_pos : (0 < BATCH_SIZE)%nat.
Proof. unfold BATCH_SIZE. lia. Qed.

Lemma range_eq (fuel start stop step : nat) :
  range (S fuel) start stop step =
  if (start <? stop)%nat then start :: range fuel (start + step) stop step
  else [].
Proof. reflexivity. Qed.

(** The slices taken from [start] on cover the rest of the list. *)
Lemma batches_from (matches : list A) (fuel start : nat) :
  (List.length matches - start <= fuel)%nat ->
  let bs := map (fun i => slice matches i (i + BATCH_SIZE))
                (range fuel start (List.length matches) BATCH_SIZE) in
  List.concat bs = skipn start matches
  /\ Forall (fun b => (1 <= List.length b <= BATCH_SIZE)%nat) bs.
Proof.
  revert start. induction fuel as [|fuel IH]; intros start Hf.
  - simpl. split; [|constructor].
    rewrite skipn_all2 by lia. reflexivity.
  - rewrite range_eq. pose proof batch_size_pos as Hb.
    destruct (Nat.ltb_spec start (List.length matches)) as [Hlt | Hge].
    + destruct (IH (start + BATCH_SIZE)%nat ltac:(lia)) as [Hc Hall].
      cbv zeta. rewrite map_cons, concat_cons. split.
      * rewrite Hc. unfold slice.
        replace (start + BATCH_SIZE - start)%nat with BATCH_SIZE by lia.
        rewrite <- (firstn_skipn BATCH_SIZE (skipn start matches)) at 2.
        f_equal. rewrite skipn_skipn. f_equal. lia.
      * constructor; [|exact Hall].
        unfold slice.
        replace (start + BATCH_SIZE - start)%nat with BATCH_SIZE by lia.
        rewrite length_firstn, length_skipn. lia.
    + simpl. split; [|constructor].
      rewrite skipn_all2 by lia. reflexivity.
Qed.

Lemma post_batch_count (calls : list (Response * list A)) (st : nat * nat) :
  let r := fold_left (@post_batch A) calls st in
  (fst r + snd r
   = fst st + snd st + List.length (List.concat (map snd calls)))%nat.
Proof.
  revert st. induction calls as [|[resp b] r IH]; intros st.
  - simpl. lia.
  - cbv zeta.
    change (fold_left (@post_batch A) ((resp, b) :: r) st)
      with (fold_left (@post_batch A) r (post_batch st (resp, b))).
    specialize (IH (post_batch st (resp, b))).
    cbv zeta in IH. rewrite IH.
    change (map snd ((resp, b) :: r)) with (b :: map snd r).
    rewrite concat_cons, length_app.
    unfold post_batch. destruct resp as [code|]; simpl.
    + destruct ((code =? 200)%Z || (code =? 201)%Z); simpl; lia.
    + lia.
Qed.

Lemma post_batch_ok (calls : list (Response * list A)) (st : nat * nat) :
  Forall (fun call => fst call = Status 200 \/ fst call = Status 201) calls ->
  fold_left (@post_batch A) calls st
  = (fst st + List.length (List.concat (map snd calls)), snd st)%nat.
Proof.
  intros H. revert st. induction H as [|[resp b] r Hr _ IH]; intros st.
  - simpl. destruct st. simpl. f_equal. lia.
  - change (fold_left (@post_batch A) ((resp, b) :: r) st)
      with (fold_left (@post_batch A) r (post_batch st (resp, b))).
    rewrite IH.
    change (map snd ((resp, b) :: r)) with (b :: map snd r).
    rewrite concat_cons, length_app. simpl in Hr.
    destruct Hr as [-> | ->]; simpl; f_equal; lia.
Qed.

Lemma map_snd_combine (X Y : Type) (l : list X) (l' : list Y) :
  List.length l = List.length l' -> map snd (combine l l') = l'.
Proof.
  revert l'. induction l as [|x l IH]; intros [|y l'] H; simpl in *;
    try discriminate; [reflexivity|].
  f_equal. apply IH. lia.
Qed.

End Batches.

(** X17. The batches of the insertion loop are the list of matches cut in
    order: put end to end they give the list back, none is empty, and each
    has [BATCH_SIZE] rows at most. *)
Theorem batches_partition (A : Type) (matches : list A) :
  List.concat (batches matches) = matches
  /\ Forall (fun b => (1 <= List.length b <= BATCH_SIZE)%nat)
            (batches matches).
Proof.
  destruct (@batches_from A matches (List.length matches) 0%nat
              ltac:(lia)) as [Hc Hall].
  split; [exact Hc | exact Hall].
Qed.

(** X18. [match_scraped_listings] counts every match once: whatever the
    server answers to each post, the two numbers it returns add up to the
    number of matches; they are the number of matches and 0 when every
    answer has status 200 or 201, and (0, 0) when there is no match. *)
Theorem insert_matches_counts (A : Type) (responses : nat -> Response)
  (matches : list A) :
  (fst (insert_matches responses matches)
   + snd (insert_matches responses matches) = List.length matches)%nat
  /\ ((forall k, responses k = Status 200 \/ responses k = Status 201) ->
      insert_matches responses matches = (List.length matches, 0%nat))
  /\ insert_matches responses (@nil A) = (0%nat, 0%nat).
Proof.
  assert (Hsnd : map snd (combine
                   (map responses (seq 0 (List.length (batches matches))))
                   (batches matches)) = batches matches).
  { apply map_snd_combine. now rewrite length_map, length_seq. }
  destruct (@batches_from A matches (List.length matches) 0%nat
              ltac:(lia)) as [Hc _].
  change (List.concat (batches matches) = matches) in Hc.
  split; [|split; [|reflexivity]].
  - destruct matches as [|a m] eqn:E; [reflexivity|]. rewrite <- E in *.
    assert (Hi : insert_matches responses matches =
                 fold_left (@post_batch A)
                   (combine
                      (map responses
                           (seq 0 (List.length (batches matches))))
                      (batches matches)) (0, 0)%nat).
    { rewrite E. reflexivity. }
    rewrite Hi.
    pose proof (post_batch_count
                  (combine
                     (map responses (seq 0 (List.length (batches matches))))
                     (batches matches)) (0, 0)%nat) as H.
    cbv zeta in H. rewrite H, Hsnd, Hc. simpl. lia.
  - intros Hok.
    destruct matches as [|a m] eqn:E; [reflexivity|]. rewrite <- E in *.
    assert (Hi : insert_matches responses matches =
                 fold_left (@post_batch A)
                   (combine
                      (map responses
                           (seq 0 (List.length (batches matches))))
                      (batches matches)) (0, 0)%nat).
    { rewrite E. reflexivity. }
    rewrite Hi, post_batch_ok.
    + rewrite Hsnd, Hc. reflexivity.
    + apply Forall_forall. intros [resp b] Hin.
      apply in_combine_l in Hin. apply in_map_iff in Hin.
      destruct Hin as [k [Hk _]]. simpl. rewrite <- Hk. apply Hok.
Qed.

Lemma insert_matches_counts_witness :
  insert_matches (fun _ => Status 201) (seq 0 250)
  = (List.length (seq 0 250), 0%nat)
  /\ (fst (insert_matches (fun k => if (k =? 1)%nat then Raised
                                    else Status 201) (seq 0 250))
      + snd (insert_matches (fun k => if (k =? 1)%nat then Raised
                                      else Status 201) (seq 0 250))
      = List.length (seq 0 250))%nat.
Proof.
  split.
  - apply (proj1 (proj2 (@insert_matches_counts nat (fun _ => Status 201)
                           (seq 0 250)))).
    intros k. now right.
  - apply (proj1 (@insert_matches_counts nat
                    (fun k => if (k =? 1)%nat then Raised else Status 201)
                    (seq 0 250))).
Defined.

(** ** Loading the hierarchy *)

Section Loading.

Lemma lookup_dict_set (A : Type) (d : list (Z * A)) (k i : Z) (v : A) :
  lookup i (dict_set d k v) = if (k =? i)%Z then Some v else lookup i d.
Proof.
  induction d as [|[k' v'] r IH]; simpl.
  - reflexivity.
  - destruct (Z.eqb_spec k' k) as [->|Hne]; simpl.
    + destruct (k =? i)%Z; reflexivity.
    + rewrite IH. destruct (Z.eqb_spec k' i) as [->|_]; [|reflexivity].
      destruct (Z.eqb_spec k i); [congruence | reflexivity].
Qed.

Lemma in_keys_dict_set (A : Type) (d : list (Z * A)) (k i : Z) (v : A) :
  In i (map fst (dict_set d k v)) -> i = k \/ In i (map fst d).
Proof.
  induction d as [|[k' v'] r IH]; simpl.
  - intros [H | []]. now left.
  - destruct (Z.eqb_spec k' k) as [->|Hne]; simpl.
    + intros [H | H]; [left; now symmetry | right; now right].
    + intros [H | H]; [right; now left|].
      destruct (IH H) as [H' | H']; [now left | right; now right].
Qed.

Lemma nodup_dict_set (A : Type) (d : list (Z * A)) (k : Z) (v : A) :
  NoDup (map fst d) -> NoDup (map fst (dict_set d k v)).
Proof.
  induction d as [|[k' v'] r IH]; simpl; intros H.
  - constructor; [intros [] | constructor].
  - inversion H as [|? ? Hnot Hr]; subst.
    destruct (Z.eqb_spec k' k) as [->|Hne]; simpl.
    + constructor; assumption.
    + constructor; [|now apply IH].
      intros Hin. apply in_keys_dict_set in Hin.
      destruct Hin as [Hin | Hin]; [congruence | now apply Hnot].
Qed.

Lemma nodup_index_rows (rows : list Row) (d : LevelData) :
  NoDup (keys d) -> NoDup (keys (fold_left index_row rows d)).
Proof.
  revert d. induction rows as [|row r IH]; intros d Hd; [exact Hd|].
  simpl. apply IH. unfold index_row, keys. now apply nodup_dict_set.
Qed.

Lemma find_app (A : Type) (f : A -> bool) (l l' : list A) :
  find f (l ++ l') = match find f l with
                     | Some x => Some x
                     | None => find f l'
                     end.
Proof.
  induction l as [|a l IH]; simpl; [reflexivity|].
  destruct (f a); [reflexivity | exact IH].
Qed.

Lemma lookup_index_rows (rows : list Row) (d : LevelData) (i : Z) :
  lookup i (fold_left index_row rows d) =
  match last_row rows i with
  | Some row => Some (row_info row)
  | None => lookup i d
  end.
Proof.
  revert d. induction rows as [|row r IH]; intros d; [reflexivity|].
  simpl fold_left. rewrite IH. unfold last_row. simpl rev.
  rewrite find_app.
  destruct (find (fun row0 => (row_id row0 =? i)%Z) (rev r)); [reflexivity|].
  unfold index_row. rewrite lookup_dict_set. simpl.
  destruct (row_id row =? i)%Z; reflexivity.
Qed.

Lemma load_level_rows (rows : list Row) :
  load_level (Some rows) = fold_left index_row rows [].
Proof.
  unfold load_level. rewrite read_pages_rest; [reflexivity|].
  unfold page_size. lia.
Qed.

Lemma groups_get_loaded (tables : Z -> option (list Row)) (level : Z) :
  groups_get (load_location_groups tables) level
  = if ((2 <=? level) && (level <=? 5))%Z then load_level (tables level)
    else [].
Proof.
  unfold groups_get, load_location_groups. cbn [map lookup].
  destruct (Z.eqb_spec 2 level) as [<-|H2]; [reflexivity|].
  destruct (Z.eqb_spec 3 level) as [<-|H3]; [reflexivity|].
  destruct (Z.eqb_spec 4 level) as [<-|H4]; [reflexivity|].
  destruct (Z.eqb_spec 5 level) as [<-|H5]; [reflexivity|].
  destruct (Z.leb_spec 2 level); destruct (Z.leb_spec level 5); simpl;
    try reflexivity.
  exfalso. lia.
Qed.

End Loading.

(** X19. The hierarchy that [load_location_groups] builds has unique keys
    at every level; at each of the levels 2 to 5 an id is looked up to the
    entry built from the last row of the table with that id (a later row
    replaces an earlier one with the same id), and a level whose table
    could not be read is empty. *)
Theorem load_location_groups_indexed (tables : Z -> option (list Row)) :
  unique_keys (load_location_groups tables)
  /\ (forall level rows i,
        (2 <= level <= 5)%Z -> tables level = Some rows ->
        lookup i (groups_get (load_location_groups tables) level)
        = option_map row_info (last_row rows i))
  /\ (forall level,
        (2 <= level <= 5)%Z -> tables level = None ->
        groups_get (load_location_groups tables) level = []).
Proof.
  split; [|split].
  - intros level. rewrite groups_get_loaded.
    destruct ((2 <=? level) && (level <=? 5))%Z; [|constructor].
    destruct (tables level) as [rows|]; [|constructor].
    rewrite load_level_rows. apply nodup_index_rows. constructor.
  - intros level rows i Hl Ht. rewrite groups_get_loaded.
    destruct (Z.leb_spec 2 level); [|lia].
    destruct (Z.leb_spec level 5); [|lia]. simpl.
    rewrite Ht, load_level_rows, lookup_index_rows.
    destruct (last_row rows i); reflexivity.
  - intros level Hl Ht. rewrite groups_get_loaded.
    destruct (Z.leb_spec 2 level); [|lia].
    destruct (Z.leb_spec level 5); [|lia]. simpl.
    now rewrite Ht.
Qed.

Lemma load_location_groups_indexed_witness :
  lookup 7%Z
    (groups_get
       (load_location_groups
          (fun level => if (level =? 2)%Z then Some rows_example else None))
       2)
  = Some (load_row u"Escalón" [] u"Colonia Escalón" (Some 4%Z))
  /\ groups_get
       (load_location_groups
          (fun level => if (level =? 2)%Z then Some rows_example else None))
       3 = [].
Proof.
  destruct (@load_location_groups_indexed
              (fun level => if (level =? 2)%Z then Some rows_example
                            else None)) as [_ [H1 H2]].
  split.
  - rewrite (H1 2%Z rows_example 7%Z ltac:(lia) eq_refl). reflexivity.
  - apply (H2 3%Z ltac:(lia) eq_refl).
Defined.

(** ** The test for a match in [match_scraped_listings] *)

(** X20. When no node of the hierarchy has id 0, [match_scraped_listings]
    counts a listing as matched exactly when Strategy B returns a result
    that is not empty. *)
Theorem has_location_iff (texts : Texts) (groups : Groups) :
  no_zero_key groups ->
  (has_location (match_listing_with_texts texts groups) = true
   <-> match_listing_with_texts texts groups <> empty_result).
Proof.
  intros Hz. split.
  - intros H E. rewrite E in H. discriminate H.
  - intros Hne.
    destruct (strategy_B_filled texts groups) as [H | H]; [now elim Hne|].
    destruct (filled_most_specific H) as [l [_ [Hl [[i [Hi [info Hin]]] _]]]].
    assert (Hnz : truthy (Some i) = true).
    { simpl. destruct (Z.eqb_spec i 0) as [->|_]; [|reflexivity].
      exfalso. exact (Hz _ _ Hin). }
    unfold has_location. apply existsb_exists. exists (Some i).
    split; [|exact Hnz]. rewrite <- Hi. unfold get_level.
    destruct (Z.eqb_spec l 2); [simpl; tauto|].
    destruct (Z.eqb_spec l 3); [simpl; tauto|].
    destruct (Z.eqb_spec l 4); [simpl; tauto|].
    destruct (Z.eqb_spec l 5); [simpl; tauto|]. lia.
Qed.

Lemma has_location_iff_witness :
  no_zero_key groups_scenario
  /\ has_location (match_listing_with_texts texts_scenario groups_scenario)
     = true
  /\ has_location
       (match_listing_with_texts (title_only u"Casa en venta")
          groups_scenario) = false.
Proof.
  assert (Hz : no_zero_key groups_scenario).
  { apply no_zero_key_b_sound. vm_compute. reflexivity. }
  split; [exact Hz|]. split.
  - apply (proj2 (@has_location_iff texts_scenario groups_scenario Hz)).
    intros E. vm_compute in E. discriminate E.
  - destruct (has_location
                (match_listing_with_texts (title_only u"Casa en venta")
                   groups_scenario)) eqn:E; [|reflexivity].
    exfalso.
    apply (proj1 (@has_location_iff (title_only u"Casa en venta")
                    groups_scenario Hz) E).
    vm_compute. reflexivity.
Defined.

(** ** The parent filter of Strategy B *)

(** X21. The parent filter of [find_match] is tested by its truth value:
    with a filter other than 0 every candidate returned is a node of the
    level whose parent id is the filter, and with the filter 0 the search
    is the unfiltered one. *)
Theorem find_match_parent_filter (texts : Texts) (data : LevelData) :
  (forall p c,
      p <> 0%Z -> find_match texts data (Some p) = Some c ->
      exists info, In (cand_id c, info) data /\ parent_id info = Some p)
  /\ find_match texts data (Some 0%Z) = find_match texts data None.
Proof.
  split.
  - intros p c Hp H. destruct (find_match_node _ _ _ H) as [info [Hin Hf]].
    exists info. split; [exact Hin|].
    unfold passes_filter in Hf. simpl in Hf.
    destruct (Z.eqb_spec p 0) as [Hz|_]; [now elim Hp|].
    simpl in Hf. apply negb_true_iff, negb_false_iff in Hf.
    destruct (parent_id info) as [q|]; [|discriminate].
    simpl in Hf. apply Z.eqb_eq in Hf. now subst q.
  - reflexivity.
Qed.

Lemma find_match_parent_filter_witness :
  exists info,
    In (C1, info) (groups_get groups_scenario 2)
    /\ parent_id info = Some M1.
Proof.
  apply (proj1 (@find_match_parent_filter texts_scenario
                  (groups_get groups_scenario 2)) M1
           (C1, 1.0, u"San Francisco", title)).
  - discriminate.
  - vm_compute. reflexivity.
Defined.

(** ** The threshold of Strategy A below level 5 *)

Section ThresholdA.

Variables (texts : Texts) (groups : Groups).

Lemma round_half_even_floor (q : Q) : (Qfloor q <= round_half_even q)%Z.
Proof.
  unfold round_half_even.
  destruct (Qltb (q - inject_Z (Qfloor q)) (1 # 2)); [lia|].
  destruct (Qltb (1 # 2) (q - inject_Z (Qfloor q))); [lia|].
  destruct (Z.even (Qfloor q)); lia.
Qed.

Lemma round2_min_score (q : Q) : MIN_SCORE <= q -> MIN_SCORE <= round2 q.
Proof.
  intros H. unfold round2. rewrite Qred_correct.
  assert (Hfl : (90 <= Qfloor (q * 100))%Z).
  { change 90%Z with (Qfloor (MIN_SCORE * 100)).
    apply Qfloor_resp_le. apply Qmult_le_compat_r; [exact H|].
    vm_compute. discriminate. }
  pose proof (round_half_even_floor (q * 100)) as Hr.
  set (z := if double_above q then (Qfloor (q * 100) + 1)%Z
            else if double_below q then Qfloor (q * 100)
            else round_half_even (q * 100)).
  assert (Hf : (90 <= z)%Z).
  { unfold z. destruct (double_above q); [lia|].
    destruct (double_below q); lia. }
  unfold MIN_SCORE, Qle. simpl. lia.
Qed.

(** What the scoped search of Strategy A holds before it visits the levels
    from [next] on: nothing, or a candidate of a level below [next] whose
    score reached the threshold. *)
Lemma visit_lower_A_threshold (d next level : Z) (st : LowerA) :
  (fst (fst st) = None /\ snd (fst st) = 5%Z
   \/ exists c, fst (fst st) = Some c
                /\ Qle_bool MIN_SCORE (cand_score c) = true
                /\ (snd (fst st) < next)%Z) ->
  (next <= level < 5)%Z ->
  let st' := visit_lower_A texts groups d st level in
  fst (fst st') = None /\ snd (fst st') = 5%Z
  \/ exists c, fst (fst st') = Some c
               /\ Qle_bool MIN_SCORE (cand_score c) = true
               /\ (snd (fst st') < level + 1)%Z.
Proof.
  intros Hst Hl st'.
  assert (Hkeep : fst (fst st) = None /\ snd (fst st) = 5%Z
                  \/ exists c, fst (fst st) = Some c
                               /\ Qle_bool MIN_SCORE (cand_score c) = true
                               /\ (snd (fst st) < level + 1)%Z).
  { destruct Hst as [H | [c [H1 [H2 H3]]]]; [now left | right].
    exists c. repeat split; try assumption. lia. }
  unfold st', visit_lower_A. destruct st as [[b bl] bs]. simpl in *.
  destruct (get_ids_under_department groups level d); [exact Hkeep|].
  destruct (filter_ids groups level (z :: l)); [exact Hkeep|].
  destruct (find_best_match_in_level texts (p :: l0) None) as [c|];
    [|exact Hkeep].
  destruct (Qle_bool MIN_SCORE (cand_score c)) eqn:Es; simpl.
  - destruct (Z.ltb_spec level bl) as [Hlt|Hge]; simpl.
    + right. exists c. repeat split; [exact Es | lia].
    + destruct (Qltb bs (cand_score c)); simpl; [|exact Hkeep].
      destruct (Z.eqb_spec level bl) as [He|_]; [|exact Hkeep].
      exfalso. destruct Hst as [[_ H5] | [c' [_ [_ Hlt]]]]; lia.
  - destruct (Qltb bs (cand_score c)); simpl; [|exact Hkeep].
    destruct (Z.eqb_spec level bl) as [He|_]; [|exact Hkeep].
    exfalso. destruct Hst as [[_ H5] | [c' [_ [_ Hlt]]]]; lia.
Qed.

Lemma lower_A_threshold (d : Z) :
  let st := fold_left (visit_lower_A texts groups d) [2; 3; 4]%Z
                      (None, 5%Z, 0) in
  match fst (fst st) with
  | Some c => Qle_bool MIN_SCORE (cand_score c) = true
              /\ (snd (fst st) < 5)%Z
  | None => True
  end.
Proof.
  intros st. unfold st.
  change (fold_left (visit_lower_A texts groups d) [2; 3; 4]%Z
                    (None, 5%Z, 0))
    with (visit_lower_A texts groups d
            (visit_lower_A texts groups d
               (visit_lower_A texts groups d (None, 5%Z, 0) 2) 3) 4).
  pose proof (@visit_lower_A_threshold d 2%Z 2%Z (None, 5%Z, 0)
                (or_introl (conj eq_refl eq_refl)) ltac:(lia)) as H2.
  cbv zeta in H2.
  pose proof (@visit_lower_A_threshold d 3%Z 3%Z _ H2 ltac:(lia)) as H3.
  cbv zeta in H3.
  pose proof (@visit_lower_A_threshold d 4%Z 4%Z _ H3 ltac:(lia)) as H4.
  cbv zeta in H4.
  destruct H4 as [[H4 _] | [c [H4 [Hs Hl]]]]; rewrite H4; [exact I|].
  split; [exact Hs | exact Hl].
Qed.

End ThresholdA.

(** X22. Below level 5 Strategy A applies its threshold: a result of
    [match_listing] with a match level of 2, 3 or 4 stores a score of 0.9
    at least. *)
Theorem match_listing_threshold_below_5 (ext : Z) (texts : Texts)
  (groups : Groups) (r : ListingMatch) (l : Z) :
  match_listing ext texts groups = Some r ->
  matchLevel (fields r) = Some l ->
  (l < 5)%Z ->
  exists s, matchScore (fields r) = Some s /\ MIN_SCORE <= s.
Proof.
  unfold match_listing.
  destruct (match_texts_A texts groups) as [r'|] eqn:E; [|discriminate].
  intros [= <-]. simpl. revert E. unfold match_texts_A.
  assert (Hrec : forall ch lv c,
            Qle_bool MIN_SCORE (cand_score c) = true ->
            exists s, matchScore (recorded ch lv c) = Some s
                      /\ MIN_SCORE <= s).
  { intros ch lv c Hs. eexists. split; [reflexivity|].
    apply round2_min_score. now apply Qle_bool_iff. }
  destruct (find_best_match_in_level texts (groups_get groups 5) None)
    as [l5|].
  - pose proof (lower_A_threshold texts groups (cand_id l5)) as Hinv.
    cbv zeta in Hinv.
    destruct (fold_left (visit_lower_A texts groups (cand_id l5))
                        [2; 3; 4]%Z (None, 5%Z, 0)) as [[b bl] bs].
    simpl in Hinv. destruct b as [c|].
    + intros [= <-] _ _. rewrite record_with_chain.
      apply Hrec. exact (proj1 Hinv).
    + intros [= <-]. simpl. intros [= <-] Hl. lia.
  - assert (Hl2 : forall r0,
      match find_best_match_in_level texts (groups_get groups 2) None with
      | Some l2 =>
        if Qle_bool MIN_SCORE (cand_score l2) then
          Some (record_match
                  (with_chain empty_result
                     (get_parent_chain (cand_id l2) 2 groups)) 2 l2)
        else None
      | None => None
      end = Some r0 ->
      exists s, matchScore r0 = Some s /\ MIN_SCORE <= s).
    { intros r0.
      destruct (find_best_match_in_level texts (groups_get groups 2) None)
        as [l2|]; [|discriminate].
      destruct (Qle_bool MIN_SCORE (cand_score l2)) eqn:Es; [|discriminate].
      intros [= <-]. rewrite record_with_chain. now apply Hrec. }
    destruct (find_best_match_in_level texts (groups_get groups 3) None)
      as [l3|]; [|intros E _ _; now apply Hl2].
    destruct (Qle_bool MIN_SCORE (cand_score l3)) eqn:Es3;
      [|intros E _ _; now apply Hl2].
    rewrite !record_with_chain.
    destruct (find_best_match_in_level texts (groups_get groups 2)
                (Some (cand_id l3))) as [l2|].
    + destruct (Qle_bool MIN_SCORE (cand_score l2)) eqn:Es2.
      * intros [= <-] _ _. rewrite record_with_chain. now apply Hrec.
      * intros [= <-] _ _. now apply Hrec.
    + intros [= <-] _ _. now apply Hrec.
Qed.

Lemma match_listing_threshold_below_5_witness :
  match_listing 1001 texts_region groups_three_levels
  = Some (Build_ListingMatch 1001
            (Build_MatchResult
               (Build_Chain None None (Some 401%Z) (Some 501%Z))
               (Some 4%Z) (Some 1) (Some title) (Some u"Region Central")))
  /\ exists s,
       matchScore
         (fields (Build_ListingMatch 1001
                    (Build_MatchResult
                       (Build_Chain None None (Some 401%Z) (Some 501%Z))
                       (Some 4%Z) (Some 1) (Some title)
                       (Some u"Region Central")))) = Some s
       /\ MIN_SCORE <= s.
Proof.
  assert (E : match_listing 1001 texts_region groups_three_levels
              = Some (Build_ListingMatch 1001
                        (Build_MatchResult
                           (Build_Chain None None (Some 401%Z) (Some 501%Z))
                           (Some 4%Z) (Some 1) (Some title)
                           (Some u"Region Central")))).
  { vm_compute. reflexivity. }
  split; [exact E|].
  apply (@match_listing_threshold_below_5 1001%Z texts_region
           groups_three_levels _ 4%Z E); [reflexivity | lia].
Defined.
